(** * Receipt pipeline: text field parser, document flattener and CSV sink

    A shallow embedding of
    - [src/textract_handler.py]  ([extract_blocks], [parse_fields]),
    - [src/csv_writer.py]        ([write_csv], [read_csv]),
    - [src/main.py]              ([validate_environment], [process_receipt]),
    - [old_web_app/csv_generator.py] ([extract_data_from_json],
      [generate_summary_csv], [generate_detailed_csv], [main]),
    together with the parts of the Python runtime these functions rely on
    (the backtracking [re] matcher, [float]/[str] on floats, the [csv]
    writer and reader, pieces of [str] and [os.path]).  Pillow, the Textract
    client, [glob] and [json.load] are not Python of this repository: they
    are parameters of the functions that call them.

    Text is modelled as a sequence of 8-bit code points (the Latin-1 range of
    a Python [str]); character classes follow Python's Unicode tables on that
    range. *)

From Stdlib Require Import ZArith NArith Ascii String List Bool Lia DecimalString.
From stdpp Require Import gmap strings list.
Import ListNotations.
Local Open Scope string_scope.

(* ===================================================================== *)
(** * Python's [re]: a backtracking matcher                               *)
(* ===================================================================== *)

Module Re.

(** ** Character classes *)

Definition code (c : ascii) : N := N_of_ascii c.

Definition in_range (lo hi : N) (c : ascii) : bool :=
  ((lo <=? code c) && (code c <=? hi))%N.

(** [\d] on code points below 256. *)
Definition is_digit (c : ascii) : bool := in_range 48 57 c.

Definition is_upper (c : ascii) : bool := in_range 65 90 c.

(** [\w] on code points below 256: alphanumerics per [str.isalnum], and the
    underscore. *)
Definition is_word (c : ascii) : bool :=
  in_range 48 57 c || in_range 65 90 c || in_range 95 95 c ||
  in_range 97 122 c || in_range 170 170 c || in_range 178 179 c ||
  in_range 181 181 c || in_range 185 186 c || in_range 188 190 c ||
  in_range 192 214 c || in_range 216 246 c || in_range 248 255 c.

(** [\s] on code points below 256. *)
Definition is_space (c : ascii) : bool :=
  in_range 9 13 c || in_range 28 32 c || in_range 133 133 c ||
  in_range 160 160 c.

(** Case folding of the ASCII letters, which is all that [re.IGNORECASE]
    does to the literals of the patterns below (they are ASCII, and no code
    point below 256 folds to an ASCII letter other than the letter's own
    two cases). *)
Definition lower (c : ascii) : ascii :=
  if is_upper c then ascii_of_N (code c + 32) else c.

Inductive cclass : Type :=
| CLit (c : ascii)            (* a literal character *)
| CDigit                      (* \d *)
| CWord                       (* \w *)
| CSpace                      (* \s *)
| COr (a b : cclass).         (* members of a bracket expression *)

(** [ic] is the [re.IGNORECASE] flag. *)
Fixpoint cmatch (ic : bool) (cl : cclass) (x : ascii) : bool :=
  match cl with
  | CLit c => if ic then Ascii.eqb (lower x) (lower c) else Ascii.eqb x c
  | CDigit => is_digit x
  | CWord => is_word x
  | CSpace => is_space x
  | COr a b => cmatch ic a x || cmatch ic b x
  end.

(** ** Patterns *)

Inductive regex : Type :=
| Eps
| Cls (c : cclass)                           (* one character *)
| Rep (c : cclass) (lo : nat) (hi : option nat)  (* greedy c{lo,hi} *)
| Seq (r1 r2 : regex)
| Alt (r1 r2 : regex)                        (* ordered alternation *)
| Grp (i : nat) (r : regex)                  (* capturing group number i *)
| WordB.                                     (* \b *)

Definition seqs (rs : list regex) : regex := foldr Seq Eps rs.

Fixpoint lit_chars (cs : list ascii) : regex :=
  match cs with
  | [] => Eps
  | c :: cs' => Seq (Cls (CLit c)) (lit_chars cs')
  end.

(** A literal word of the pattern. *)
Definition lit (s : string) : regex := lit_chars (list_ascii_of_string s).

Definition star (c : cclass) : regex := Rep c 0 None.      (* c*  *)
Definition plus (c : cclass) : regex := Rep c 1 None.      (* c+  *)
Definition opt (c : cclass) : regex := Rep c 0 (Some 1).   (* c?  *)
Definition opt_re (r : regex) : regex := Alt r Eps.        (* (?:r)? *)

(** ** Matching *)

Record mstate : Type := MState {
  prev : option ascii;                 (* the character before the position *)
  rest : list ascii;                   (* the text from the position on *)
  caps : list (nat * list ascii)       (* groups captured so far *)
}.

Definition set_cap (i : nat) (w : list ascii) (st : mstate) : mstate :=
  MState (prev st) (rest st) ((i, w) :: caps st).

Fixpoint lookup_cap (i : nat) (cs : list (nat * list ascii)) : option (list ascii) :=
  match cs with
  | [] => None
  | (j, w) :: cs' => if Nat.eqb i j then Some w else lookup_cap i cs'
  end.

Definition opt_word (o : option ascii) : bool :=
  match o with Some c => is_word c | None => false end.

(** [\b]: exactly one side of the position is a word character. *)
Definition word_boundary (p : option ascii) (s : list ascii) : bool :=
  xorb (opt_word p) (opt_word (head s)).

Definition hi_allows (hi : option nat) : bool :=
  match hi with Some O => false | _ => true end.

Section Matcher.
Context (ic : bool).

(** Greedy repetition of a class: take a character when allowed, and give
    it back when the rest of the pattern fails. *)
Fixpoint rep (c : cclass) (lo : nat) (hi : option nat)
    (p : option ascii) (s : list ascii)
    (k : option ascii -> list ascii -> option mstate) : option mstate :=
  let stop := match lo with O => k p s | S _ => None end in
  match s with
  | x :: s' =>
      if cmatch ic c x && hi_allows hi then
        match rep c (Nat.pred lo) (option_map Nat.pred hi) (Some x) s' k with
        | Some r => Some r
        | None => stop
        end
      else stop
  | [] => stop
  end.

Fixpoint mre (r : regex) (st : mstate) (k : mstate -> option mstate)
    : option mstate :=
  match r with
  | Eps => k st
  | Cls c =>
      match rest st with
      | x :: s' => if cmatch ic c x then k (MState (Some x) s' (caps st)) else None
      | [] => None
      end
  | Rep c lo hi =>
      rep c lo hi (prev st) (rest st) (fun p s => k (MState p s (caps st)))
  | Seq r1 r2 => mre r1 st (fun st' => mre r2 st' k)
  | Alt r1 r2 =>
      match mre r1 st k with
      | Some res => Some res
      | None => mre r2 st k
      end
  | Grp i r1 =>
      mre r1 st (fun st' =>
        k (set_cap i (take (length (rest st) - length (rest st')) (rest st)) st'))
  | WordB => if word_boundary (prev st) (rest st) then k st else None
  end.

(** A match starting exactly at the given position. *)
Definition match_here (r : regex) (p : option ascii) (s : list ascii)
    : option mstate :=
  mre r (MState p s []) Some.

(** [re.search]: the match at the leftmost position that has one. *)
Fixpoint search_from (r : regex) (p : option ascii) (s : list ascii)
    : option mstate :=
  match match_here r p s with
  | Some m => Some m
  | None =>
      match s with
      | [] => None
      | c :: s' => search_from r (Some c) s'
      end
  end.

(** [re.findall] for a pattern with one group: the group of every match,
    left to right, matches not overlapping.  [skip] counts the characters
    of the previous match that are still to be passed over.  (The patterns
    it is used with cannot match the empty string.) *)
Fixpoint findall_from (r : regex) (p : option ascii) (s : list ascii)
    (skip : nat) : list (option (list ascii)) :=
  match s with
  | [] => []
  | c :: s' =>
      match skip with
      | S n => findall_from r (Some c) s' n
      | O =>
          match match_here r p s with
          | Some m =>
              lookup_cap 1 (caps m)
                :: findall_from r (Some c) s' (length s - length (rest m) - 1)
          | None => findall_from r (Some c) s' 0
          end
      end
  end.

End Matcher.

(** The match object of [re.search(pattern, text, flags)]. *)
Definition search (r : regex) (ic : bool) (text : string) : option mstate :=
  search_from ic r None (list_ascii_of_string text).

(** [match.group(i)]: [None] when the group took no part in the match. *)
Definition group (m : mstate) (i : nat) : option string :=
  option_map string_of_list_ascii (lookup_cap i (caps m)).

(** [re.findall] gives [''] for a group that took no part in the match. *)
Definition findall (r : regex) (ic : bool) (text : string) : list string :=
  map (fun o => string_of_list_ascii (default [] o))
      (findall_from ic r None (list_ascii_of_string text) 0).

(** The character before the position once the characters [w] are passed. *)
Fixpoint after (p : option ascii) (w : list ascii) : option ascii :=
  match w with
  | [] => p
  | x :: w' => after (Some x) w'
  end.

(** ** What a match is, without the search order

    [matches ic r st st'] holds when [r] can take the matcher from [st] to
    [st']; the matcher above finds one such [st'], the one that Python's
    priorities (leftmost, greedy, alternatives in order) select. *)
Fixpoint matches (ic : bool) (r : regex) (st st' : mstate) : Prop :=
  match r with
  | Eps => st' = st
  | Cls c =>
      exists x, rest st = x :: rest st' /\ cmatch ic c x = true /\
                prev st' = Some x /\ caps st' = caps st
  | Rep c lo hi =>
      exists w, rest st = (w ++ rest st')%list /\
                forallb (cmatch ic c) w = true /\
                lo <= length w /\
                (forall h, hi = Some h -> length w <= h) /\
                prev st' = after (prev st) w /\ caps st' = caps st
  | Seq r1 r2 => exists mid, matches ic r1 st mid /\ matches ic r2 mid st'
  | Alt r1 r2 => matches ic r1 st st' \/ matches ic r2 st st'
  | Grp i r1 =>
      exists mid, matches ic r1 st mid /\
        st' = set_cap i (take (length (rest st) - length (rest mid)) (rest st)) mid
  | WordB => word_boundary (prev st) (rest st) = true /\ st' = st
  end.

(** Group [i] is set by every match of the pattern. *)
Fixpoint defines (i : nat) (r : regex) : bool :=
  match r with
  | Eps | Cls _ | Rep _ _ _ | WordB => false
  | Seq r1 r2 => defines i r1 || defines i r2
  | Alt r1 r2 => defines i r1 && defines i r2
  | Grp j r1 => Nat.eqb i j || defines i r1
  end.

(** The least number of characters that a match of the pattern takes. *)
Fixpoint min_len (r : regex) : nat :=
  match r with
  | Eps | WordB => 0
  | Cls _ => 1
  | Rep _ lo _ => lo
  | Seq r1 r2 => min_len r1 + min_len r2
  | Alt r1 r2 => Nat.min (min_len r1) (min_len r2)
  | Grp _ r1 => min_len r1
  end.

(** Every character of the class is a digit. *)
Definition digits_only (c : cclass) : bool :=
  match c with
  | CDigit => true
  | _ => false
  end.

(** Every match of the pattern takes a digit. *)
Fixpoint needs_digit (r : regex) : bool :=
  match r with
  | Eps | WordB => false
  | Cls c => digits_only c
  | Rep c lo _ => digits_only c && (1 <=? lo)%nat
  | Seq r1 r2 => needs_digit r1 || needs_digit r2
  | Alt r1 r2 => needs_digit r1 && needs_digit r2
  | Grp _ r1 => needs_digit r1
  end.

(** The pattern has no capturing group. *)
Fixpoint no_groups (r : regex) : bool :=
  match r with
  | Eps | Cls _ | Rep _ _ _ | WordB => true
  | Seq r1 r2 | Alt r1 r2 => no_groups r1 && no_groups r2
  | Grp _ _ => false
  end.

(** [grp_ok ic Q r]: the text consumed by the body of every group of [r]
    satisfies [Q]. *)
Fixpoint grp_ok (ic : bool) (Q : list ascii -> Prop) (r : regex) : Prop :=
  match r with
  | Eps | Cls _ | Rep _ _ _ | WordB => True
  | Seq r1 r2 | Alt r1 r2 => grp_ok ic Q r1 /\ grp_ok ic Q r2
  | Grp _ r1 =>
      grp_ok ic Q r1 /\
      (forall st mid w,
         matches ic r1 st mid -> rest st = (w ++ rest mid)%list -> Q w)
  end.

(** The character before position [n] of a text, and the match attempted
    at position [n]. *)
Definition char_before (s : list ascii) (n : nat) : option ascii :=
  match n with
  | O => None
  | S n' => s !! n'
  end.

Definition match_at (r : regex) (ic : bool) (text : string) (n : nat)
    : option mstate :=
  let s := list_ascii_of_string text in
  match_here ic r (char_before s n) (drop n s).

End Re.

(* ===================================================================== *)
(** * Python exceptions                                                   *)
(* ===================================================================== *)

Inductive exn : Type :=
| ValueError
| AttributeError
| IndexError
| KeyError.

#[global] Instance exn_eq_dec : EqDecision exn.
Proof. solve_decision. Defined.

(** A computation that returns a value or raises. *)
Definition result (A : Type) : Type := exn + A.

Definition ret {A} (a : A) : result A := inr a.
Definition raise {A} (e : exn) : result A := inl e.

Definition bind {A B} (c : result A) (f : A -> result B) : result B :=
  match c with
  | inl e => inl e
  | inr a => f a
  end.

Notation "'let!' x ':=' c 'in' k" := (bind c (fun x => k))
  (at level 10, x name, c at level 100, k at level 200).

(** [try: c  except e: h]. *)
Definition try_except {A} (c : result A) (e : exn) (h : result A) : result A :=
  match c with
  | inl e' => if decide (e' = e) then h else inl e'
  | inr a => inr a
  end.

Fixpoint mapM {A B} (f : A -> result B) (l : list A) : result (list B) :=
  match l with
  | [] => ret []
  | a :: l' => let! b := f a in let! bs := mapM f l' in ret (b :: bs)
  end.

(* ===================================================================== *)
(** * Python's [float]: binary64 values of unsigned decimal literals      *)
(* ===================================================================== *)

Module PyFloat.

(** A non-negative binary64 value: [Fin m e] is [m * 2^e], written with
    [2^52 <= m < 2^53] (or [e = -1074] for the subnormals and zero). *)
Inductive float : Type :=
| Fin (m e : Z)
| Inf.

#[global] Instance float_eq_dec : EqDecision float.
Proof. solve_decision. Defined.

Definition pow2 (k : Z) : Z := 2 ^ Z.max k 0.
Definition pow10 (k : Z) : Z := 10 ^ Z.max k 0.

(** The binary64 value nearest to [n / d] (ties to even), for [0 <= n],
    [0 < d]. *)
Definition round_ratio (n d : Z) : float :=
  if (n =? 0)%Z then Fin 0 (-1074)
  else
    let L := (Z.log2 n - Z.log2 d)%Z in
    (* floor (log2 (n/d)) is L or L-1 *)
    let fl := if (d * pow2 L <=? n * pow2 (- L))%Z then L else (L - 1)%Z in
    let e := Z.max (fl - 52) (-1074) in
    let num := (n * pow2 (- e))%Z in
    let den := (d * pow2 e)%Z in
    let q := (num / den)%Z in
    let r := (num mod den)%Z in
    let q' := if (den <? 2 * r)%Z || ((den =? 2 * r)%Z && Z.odd q)
              then (q + 1)%Z else q in
    let '(m, e') := if (q' =? 2 ^ 53)%Z then (2 ^ 52, e + 1)%Z else (q', e) in
    if (971 <? e')%Z then Inf else Fin m e'.

Definition digit_val (c : ascii) : Z := Z.of_N (Re.code c) - 48.

Definition digits_val (cs : list ascii) : Z :=
  fold_left (fun acc c => acc * 10 + digit_val c)%Z cs 0%Z.

Fixpoint split_dot (cs : list ascii) : list ascii * option (list ascii) :=
  match cs with
  | [] => ([], None)
  | c :: cs' =>
      if Ascii.eqb c "." then ([], Some cs')
      else let '(a, b) := split_dot cs' in (c :: a, b)
  end.

(** [float(s)] for a literal made of digits and dots: digits, optionally a
    dot, optionally digits, with a digit on at least one side.  Anything
    else of that alphabet is a [ValueError].  (Signs, exponents,
    underscores, blanks, [inf] and [nan] never reach [float] in
    [parse_fields]: its arguments are made of digits and dots only, see
    [TextractHandlerFacts.float_arguments].) *)
Definition py_float (s : string) : result float :=
  let '(ip, fo) := split_dot (list_ascii_of_string s) in
  let fp := default [] fo in
  if forallb Re.is_digit ip && forallb Re.is_digit fp
     && negb (Nat.eqb (length ip + length fp) 0)
  then ret (round_ratio (digits_val (ip ++ fp)) (10 ^ Z.of_nat (length fp)))
  else raise ValueError.

(** The order of the values: [key] is the value in units of [2^-1074], the
    smallest positive binary64 number, and a number above all of them for
    infinity. *)
Definition key (a : float) : Z :=
  match a with
  | Fin m e => (m * 2 ^ (e + 1074))%Z
  | Inf => (2 ^ 2098)%Z
  end.

Definition ltb (a b : float) : bool := (key a <? key b)%Z.

Definition is_pos (a : float) : bool := ltb (Fin 0 (-1074)) a.

(** One step of [max]: a later element replaces the best so far only when
    it is larger. *)
Definition bigger (best x : float) : float := if ltb best x then x else best.

(** [max(l)] of a non-empty list: the first of the largest elements. *)
Definition py_max (l : list float) : result float :=
  match l with
  | [] => raise ValueError
  | a :: l' => ret (fold_left bigger l' a)
  end.

(** ** [str(x)]: the shortest decimal string that reads back as [x] *)

Definition Z_to_string (z : Z) : string :=
  DecimalString.NilZero.string_of_uint (N.to_uint (Z.to_N z)).

(** [v = num / den] as an exact fraction. *)
Definition num_of (m e : Z) : Z := (m * pow2 e)%Z.
Definition den_of (e : Z) : Z := pow2 (- e).

(** The position [t] of the decimal point: [10^(t-1) <= v < 10^t]. *)
Fixpoint decpt_down (fuel : nat) (n d t : Z) : Z :=
  match fuel with
  | O => t
  | S fuel' =>
      (* v < 10^(t-1) ? *)
      if (n * pow10 (- (t - 1)) <? d * pow10 (t - 1))%Z
      then decpt_down fuel' n d (t - 1)%Z
      else t
  end.

Definition decpt (n d : Z) : Z :=
  let L := (Z.log2 n - Z.log2 d)%Z in
  decpt_down 8 n d (((L + 1) * 30103) / 100000 + 2)%Z.

(** The [p]-digit decimals [g * 10^(t-p)] just below and just above [v];
    the one that reads back as [v] (the nearer one when both do). *)
Definition candidate (m e : Z) (t : Z) (p : Z) : option Z :=
  let n := num_of m e in
  let d := den_of e in
  let s := (t - p)%Z in
  let lo := ((n * pow10 (- s)) / (d * pow10 s))%Z in
  let hi := (lo + 1)%Z in
  let back g := bool_decide (round_ratio (g * pow10 s) (pow10 (- s)) = Fin m e) in
  (* distance of g to v, times d * 10^max(-s,0) *)
  let dist g := Z.abs (g * pow10 s * d - n * pow10 (- s))%Z in
  match back lo, back hi with
  | true, true =>
      if (dist lo <? dist hi)%Z then Some lo
      else if (dist hi <? dist lo)%Z then Some hi
      else if Z.even lo then Some lo else Some hi
  | true, false => Some lo
  | false, true => Some hi
  | false, false => None
  end.

Fixpoint shortest (ps : list Z) (m e t : Z) : option (Z * Z) :=
  match ps with
  | [] => None
  | p :: ps' =>
      match candidate m e t p with
      | Some g => Some (g, p)
      | None => shortest ps' m e t
      end
  end.

Fixpoint strip_zeros (fuel : nat) (g : Z) : Z :=
  match fuel with
  | O => g
  | S fuel' => if (g mod 10 =? 0)%Z then strip_zeros fuel' (g / 10)%Z else g
  end.

Definition zeros (k : Z) : string :=
  string_of_list_ascii (replicate (Z.to_nat k) "0"%char).

Definition substr_from (k : nat) (s : string) : string :=
  string_of_list_ascii (drop k (list_ascii_of_string s)).
Definition substr_to (k : nat) (s : string) : string :=
  string_of_list_ascii (take k (list_ascii_of_string s)).

(** [repr] layout: exponent form when the point is far from the digits. *)
Definition layout (ds : string) (t : Z) : string :=
  let nd := Z.of_nat (String.length ds) in
  if (16 <? t)%Z || (t <? -3)%Z then
    let ex := (t - 1)%Z in
    let mant := if (nd =? 1)%Z then ds
                else substr_to 1 ds ++ "." ++ substr_from 1 ds in
    let exs := Z_to_string (Z.abs ex) in
    let exs := if (Z.abs ex <? 10)%Z then "0" ++ exs else exs in
    mant ++ "e" ++ (if (ex <? 0)%Z then "-" else "+") ++ exs
  else if (t <=? 0)%Z then "0." ++ zeros (- t) ++ ds
  else if (nd <=? t)%Z then ds ++ zeros (t - nd) ++ ".0"
  else substr_to (Z.to_nat t) ds ++ "." ++ substr_from (Z.to_nat t) ds.

Definition precisions : list Z :=
  [1; 2; 3; 4; 5; 6; 7; 8; 9; 10; 11; 12; 13; 14; 15; 16; 17]%Z.

Definition py_str (x : float) : string :=
  match x with
  | Inf => "inf"
  | Fin m e =>
      if (m =? 0)%Z then "0.0"
      else
        let t := decpt (num_of m e) (den_of e) in
        match shortest precisions m e t with
        | Some (g, p) =>
            (* g = 10^p stands for the digit 1 one place higher *)
            let t' := if (g =? 10 ^ p)%Z then (t + 1)%Z else t in
            layout (Z_to_string (strip_zeros 20 g)) t'
        | None => "?"
        end
  end.

End PyFloat.

(* ===================================================================== *)
(** * src/textract_handler.py                                             *)
(* ===================================================================== *)

Module TextractHandler.
Import Re PyFloat.

(** The dictionary returned by [parse_fields]: four fixed keys, each bound
    to a string or to [None]. *)
Record fields : Type := Fields {
  date : option string;
  start_time : option string;
  end_time : option string;
  total : option string
}.

Definition set_date (v : option string) (f : fields) : fields :=
  Fields v (start_time f) (end_time f) (total f).
Definition set_start_time (v : option string) (f : fields) : fields :=
  Fields (date f) v (end_time f) (total f).
Definition set_end_time (v : option string) (f : fields) : fields :=
  Fields (date f) (start_time f) v (total f).
Definition set_total (v : option string) (f : fields) : fields :=
  Fields (date f) (start_time f) (end_time f) v.

(** ** The patterns, in the order of the source

    (quoted with a blank before the parenthesis that closes the group of an
    amount) *)

Definition sep : cclass := COr (CLit "/") (CLit "-").            (* [/-] *)
Definition d12 : regex := Rep CDigit 1 (Some 2).                 (* \d{1,2} *)
Definition d4 : regex := Rep CDigit 4 (Some 4).                  (* \d{4} *)
Definition d2 : regex := Rep CDigit 2 (Some 2).                  (* \d{2} *)

(** "\b( ... )\b" *)
Definition bounded (body : list regex) : regex :=
  seqs [WordB; Grp 1 (seqs body); WordB].

Definition date_patterns : list regex := [
  (* "\b(\d{1,2}[/-]\d{1,2}[/-]\d{4})\b" *)
  bounded [d12; Cls sep; d12; Cls sep; d4];
  (* "\b(\d{4}[/-]\d{1,2}[/-]\d{1,2})\b" *)
  bounded [d4; Cls sep; d12; Cls sep; d12];
  (* "\b(\d{1,2}\s+\w+\s+\d{4})\b" *)
  bounded [d12; plus CSpace; plus CWord; plus CSpace; d4];
  (* "\b(\w+\s+\d{1,2},?\s+\d{4})\b" *)
  bounded [plus CWord; plus CSpace; d12; opt (CLit ","); plus CSpace; d4]
].

(** The pattern of one time: "\d{1,2}:\d{2}\s*(?:AM|PM|am|pm)?" *)
Definition a_time : regex :=
  seqs [d12; Cls (CLit ":"); d2; star CSpace;
        opt_re (Alt (lit "AM") (Alt (lit "PM") (Alt (lit "am") (lit "pm"))))].

(** "(\d{1,2}:\d{2}\s*(?:AM|PM|am|pm)?)" *)
Definition time_pattern : regex := Grp 1 a_time.

(** "(time)\s*[-to]+\s*(time)", with the pattern of one time twice *)
Definition time_range_pattern : regex :=
  seqs [Grp 1 a_time; star CSpace;
        plus (COr (CLit "-") (COr (CLit "t") (CLit "o")));
        star CSpace; Grp 2 a_time].

(** The range as the specification words it, two times joined by a dash or
    the word to: "(time)\s*(?:-|to)\s*(time)".  The code has the bracket
    expression above in its place. *)
Definition worded_time_range_pattern : regex :=
  seqs [Grp 1 a_time; star CSpace; Alt (lit "-") (lit "to");
        star CSpace; Grp 2 a_time].

(** "([\d,]+\.?\d* )" *)
Definition amount : regex :=
  Grp 1 (seqs [plus (COr CDigit (CLit ",")); opt (CLit "."); star CDigit]).

Definition colon_space : cclass := COr (CLit ":") CSpace.        (* [:\s] *)

Definition total_patterns : list regex := [
  (* "AED\s*([\d,]+\.?\d* )" *)
  seqs [lit "AED"; star CSpace; amount];
  (* "([\d,]+\.?\d* )\s*AED" *)
  seqs [amount; star CSpace; lit "AED"];
  (* "TOTAL[:\s]+AED\s*([\d,]+\.?\d* )" *)
  seqs [lit "TOTAL"; plus colon_space; lit "AED"; star CSpace; amount];
  (* "TOTAL[:\s]+([\d,]+\.?\d* )" *)
  seqs [lit "TOTAL"; plus colon_space; amount];
  (* "AMOUNT[:\s]+AED\s*([\d,]+\.?\d* )" *)
  seqs [lit "AMOUNT"; plus colon_space; lit "AED"; star CSpace; amount];
  (* "GRAND\s+TOTAL[:\s]+([\d,]+\.?\d* )" *)
  seqs [lit "GRAND"; plus CSpace; lit "TOTAL"; plus colon_space; amount];
  (* "(?:TOTAL|AMOUNT|SUM)[:\s]*\$?([\d,]+\.?\d* )" *)
  seqs [Alt (lit "TOTAL") (Alt (lit "AMOUNT") (lit "SUM"));
        star colon_space; opt (CLit "$"); amount]
].

(** "\b(\d+\.?\d{0,2})\b" *)
Definition price_pattern : regex :=
  bounded [plus CDigit; opt (CLit "."); Rep CDigit 0 (Some 2)].

(** ** Small pieces of Python *)

(** [s.replace(',', '')] *)
Definition remove_commas (s : string) : string :=
  string_of_list_ascii
    (filter (fun c => c <> ","%char) (list_ascii_of_string s)).

(** Truth value of an optional string: [None] and [''] are false. *)
Definition truthy (v : option string) : bool :=
  match v with
  | Some s => negb (String.eqb s "")
  | None => false
  end.

(** [l[i]] *)
Definition index {A} (l : list A) (i : nat) : result A :=
  match l !! i with
  | Some a => ret a
  | None => raise IndexError
  end.

(** ** [parse_fields], block by block *)

(** [for pattern in date_patterns: ... break] *)
Fixpoint date_loop (ps : list regex) (lines : string) (f : fields) : fields :=
  match ps with
  | [] => f
  | pattern :: ps' =>
      match search pattern true lines with
      | Some m => set_date (group m 1) f
      | None => date_loop ps' lines f
      end
  end.

(** The generic pairing of the first two times found. *)
Definition time_block (lines : string) (f : fields) : result fields :=
  let time_matches := findall time_pattern false lines in
  if (2 <=? length time_matches)%nat then
    let! t0 := index time_matches 0 in
    let f := set_start_time (Some t0) f in
    let! t1 := index time_matches 1 in
    ret (set_end_time (Some t1) f)
  else if (length time_matches =? 1)%nat then
    let! t0 := index time_matches 0 in
    ret (set_start_time (Some t0) f)
  else ret f.

(** The explicit range, checked afterwards. *)
Definition range_block (lines : string) (f : fields) : fields :=
  match search time_range_pattern true lines with
  | Some range_match =>
      set_end_time (group range_match 2)
        (set_start_time (group range_match 1) f)
  | None => f
  end.

(** [for pattern in total_patterns: ... try: float(total_str) ... break
    except ValueError: continue] *)
Fixpoint total_loop (ps : list regex) (lines : string) (f : fields)
    : result fields :=
  match ps with
  | [] => ret f
  | pattern :: ps' =>
      match search pattern true lines with
      | Some m =>
          let! total_str :=
            match group m 1 with
            | Some s => ret s
            | None => raise AttributeError   (* None has no replace *)
            end in
          let total_str := remove_commas total_str in
          match py_float total_str with
          | inr _ => ret (set_total (Some total_str) f)
          | inl ValueError => total_loop ps' lines f
          | inl e => raise e
          end
      | None => total_loop ps' lines f
      end
  end.

(** [[float(p) for p in prices if float(p) > 0]] *)
Fixpoint positive_prices (prices : list string) : result (list float) :=
  match prices with
  | [] => ret []
  | p :: prices' =>
      let! x := py_float p in
      if is_pos x then
        let! y := py_float p in
        let! ys := positive_prices prices' in
        ret (y :: ys)
      else positive_prices prices'
  end.

(** The fallback on the largest number of the text. *)
Definition fallback_block (lines : string) (f : fields) : result fields :=
  if negb (truthy (total f)) then
    let prices := findall price_pattern false lines in
    match prices with
    | [] => ret f
    | _ :: _ =>
        try_except
          (let! numeric_prices := positive_prices prices in
           match numeric_prices with
           | [] => ret f
           | _ :: _ =>
               let! mx := py_max numeric_prices in
               ret (set_total (Some (py_str mx)) f)
           end)
          ValueError
          (ret f)
    end
  else ret f.

Definition parse_fields (lines : string) : result fields :=
  let f := Fields None None None None in
  let f := date_loop date_patterns lines f in
  let! f := time_block lines f in
  let f := range_block lines f in
  let! f := total_loop total_patterns lines f in
  fallback_block lines f.

(** ** Vocabulary for the statements about [parse_fields] *)

Definition newline : string := String (ascii_of_nat 10) EmptyString.

Definition empty_fields : fields := Fields None None None None.

(** The characters of an amount: digits, commas, dots. *)
Definition amount_chars (w : list ascii) : Prop :=
  forallb (fun c => is_digit c || Ascii.eqb c "," || Ascii.eqb c ".") w = true.

(** A price token: digits, then possibly a dot, then digits. *)
Definition price_shape (w : list ascii) : Prop :=
  exists w1 w2 w3, w = (w1 ++ w2 ++ w3)%list /\
    forallb is_digit w1 = true /\ 1 <= length w1 /\
    (w2 = [] \/ w2 = ["."%char]) /\ forallb is_digit w3 = true.

(** A pattern of the total cascade succeeds with [t] when its leftmost match
    captures a string that, commas removed, is a float literal [t]; a
    capture that is not one counts as no match. *)
Definition accepts (pattern : regex) (lines : string) : option string :=
  match search pattern true lines with
  | Some m =>
      match group m 1 with
      | Some s =>
          match py_float (remove_commas s) with
          | inr _ => Some (remove_commas s)
          | inl _ => None
          end
      | None => None
      end
  | None => None
  end.

(** The positive values of the price tokens of the text, in text order. *)
Definition token_value (s : string) : option float :=
  match py_float s with
  | inr x => Some x
  | inl _ => None
  end.

Definition price_values (lines : string) : list float :=
  filter (fun x => is_pos x = true)
         (omap token_value (findall price_pattern false lines)).

(** The generic pairing of the times found by [re.findall]. *)
Definition generic_pairing (lines : string) : option string * option string :=
  match findall time_pattern false lines with
  | [] => (None, None)
  | [a] => (Some a, None)
  | a :: b :: _ => (Some a, Some b)
  end.

(** The first pattern of the total cascade. *)
Definition aed_prefixed : regex := seqs [lit "AED"; star CSpace; amount].

(** No letter A, capital or small, in a text. *)
Definition no_letter_a (pre : string) : Prop :=
  forallb (fun c => negb (cmatch true (CLit "A") c)) (list_ascii_of_string pre)
  = true.

(** The text does not start with a digit. *)
Definition no_leading_digit (post : string) : Prop :=
  match post with
  | String c _ => is_digit c = false
  | EmptyString => True
  end.

Definition amount_text : list ascii := list_ascii_of_string "123.40".

(** A text that starts with the digits of a time: one or two digits, a
    colon, two digits. *)
Definition core_start (s : list ascii) : Prop :=
  exists D DD tl, s = (D ++ ":"%char :: DD ++ tl)%list /\
    forallb is_digit D = true /\ 1 <= length D <= 2 /\
    forallb is_digit DD = true /\ length DD = 2.

(** What each field is, read off the text alone. *)

Definition date_of (lines : string) : option string :=
  date (date_loop date_patterns lines empty_fields).

Definition times_of (lines : string) : option string * option string :=
  match search time_range_pattern true lines with
  | Some range_match => (group range_match 1, group range_match 2)
  | None => generic_pairing lines
  end.

Fixpoint first_accepted (ps : list regex) (lines : string) : option string :=
  match ps with
  | [] => None
  | p :: ps' =>
      match accepts p lines with
      | Some t => Some t
      | None => first_accepted ps' lines
      end
  end.

Definition fallback_total (lines : string) : option string :=
  match price_values lines with
  | [] => None
  | a :: l => Some (py_str (fold_left bigger l a))
  end.

Definition total_of (lines : string) : option string :=
  match first_accepted total_patterns lines with
  | Some t => Some t
  | None => fallback_total lines
  end.

(** The record when the blocks before the total have run. *)
Definition before_total (lines : string) : fields :=
  range_block lines
    (match findall time_pattern false lines with
     | [] => date_loop date_patterns lines empty_fields
     | [a] => set_start_time (Some a) (date_loop date_patterns lines empty_fields)
     | a :: b :: _ =>
         set_end_time (Some b)
           (set_start_time (Some a) (date_loop date_patterns lines empty_fields))
     end).

(** A text without digits. *)
Definition no_digit (lines : string) : Prop :=
  forallb (fun c => negb (is_digit c)) (list_ascii_of_string lines) = true.

(** The characters of a string. *)
Definition chars (s : string) : list ascii := list_ascii_of_string s.

(** A text without comma. *)
Definition no_comma (s : string) : Prop :=
  forallb (fun c => negb (Ascii.eqb c ",")) (list_ascii_of_string s) = true.

(** The characters that [str] of a float is made of (the question mark
    stands for a value that has no shortest decimal, and there is none). *)
Definition float_alphabet : list ascii :=
  list_ascii_of_string "0123456789.e+-inf?".

(** A text whose characters all satisfy [P]. *)
Definition all_within (P : ascii -> bool) (s : string) : Prop :=
  forallb P (list_ascii_of_string s) = true.

End TextractHandler.

(* ===================================================================== *)
(** * Python's [csv] module, default dialect                              *)
(* ===================================================================== *)

Module Csv.
Local Open Scope list_scope.

Definition comma : ascii := ",".
Definition dquote : ascii := ascii_of_nat 34.
Definition cr : ascii := ascii_of_nat 13.
Definition lf : ascii := ascii_of_nat 10.

Definition is_comma (c : ascii) : bool := Ascii.eqb c comma.
Definition is_dquote (c : ascii) : bool := Ascii.eqb c dquote.
Definition is_cr (c : ascii) : bool := Ascii.eqb c cr.
Definition is_lf (c : ascii) : bool := Ascii.eqb c lf.

(** ** The writer: [QUOTE_MINIMAL], quotes doubled, lines ended by CR LF *)

(** The characters that make the writer quote a field: the delimiter, the
    quote character and the characters of the line terminator. *)
Definition special (c : ascii) : bool :=
  is_comma c || is_dquote c || is_cr c || is_lf c.

Fixpoint double_quotes (f : list ascii) : list ascii :=
  match f with
  | [] => []
  | c :: f' =>
      if is_dquote c then dquote :: dquote :: double_quotes f'
      else c :: double_quotes f'
  end.

Definition join_field (f : list ascii) : list ascii :=
  if existsb special f then (dquote :: double_quotes f) ++ [dquote]
  else f.

Fixpoint join_fields (fs : list (list ascii)) : list ascii :=
  match fs with
  | [] => []
  | [f] => join_field f
  | f :: fs' => join_field f ++ comma :: join_fields fs'
  end.

(** [writer.writerow(fields)]: the text added to the file.  A record of one
    empty field is written as a pair of quotes. *)
Definition writerow (fs : list (list ascii)) : list ascii :=
  let body := join_fields fs in
  let body := match fs, body with
              | _ :: _, [] => [dquote; dquote]
              | _, _ => body
              end in
  body ++ [cr; lf].

(** ** Reading a text file opened without [newline='']: universal newlines *)

(** CR LF and lone CR are handed to the program as LF. *)
Fixpoint translate (l : list ascii) : list ascii :=
  match l with
  | [] => []
  | c :: t =>
      if is_cr c then
        match t with
        | d :: t' => if is_lf d then lf :: translate t' else lf :: translate t
        | [] => [lf]
        end
      else c :: translate t
  end.

(** Iterating over the file: the lines, each with its LF. *)
Fixpoint split_lines (cur : list ascii) (l : list ascii) : list (list ascii) :=
  match l with
  | [] => match cur with [] => [] | _ :: _ => [cur] end
  | c :: t =>
      if is_lf c then (cur ++ [c]) :: split_lines [] t
      else split_lines (cur ++ [c]) t
  end.

(** ** The reader: the state machine of [_csv.reader] *)

Inductive rstate : Type :=
| START_RECORD
| START_FIELD
| IN_FIELD
| IN_QUOTED_FIELD
| QUOTE_IN_QUOTED_FIELD
| EAT_CRNL.

#[global] Instance rstate_eq_dec : EqDecision rstate.
Proof. solve_decision. Defined.

Record reader : Type := Reader {
  state : rstate;
  field : list ascii;          (* the field being read *)
  fields : list string         (* the fields of the record read so far *)
}.

(** What a line gives the machine: its characters, then the end of line. *)
Inductive event : Type :=
| Ch (c : ascii)
| EOL.

Inductive csv_error : Type := CsvError.

Definition fresh : reader := Reader START_RECORD [] [].

Definition set_state (s : rstate) (r : reader) : reader :=
  Reader s (field r) (fields r).

Definition save_field (r : reader) : reader :=
  Reader (state r) [] (fields r ++ [string_of_list_ascii (field r)]).

(** [csv.field_size_limit()]: the number of characters that a field may
    have. *)
Definition field_limit : N := 131072.

(** One more character for the field; the reader raises ("field larger than
    field limit") when the field has the limit already. *)
Definition add_char (c : ascii) (r : reader) : csv_error + reader :=
  if (field_limit <=? N.of_nat (length (field r)))%N then inl CsvError
  else inr (Reader (state r) (field r ++ [c]) (fields r)).

(** The character is added, then the state is set. *)
Definition add_then (s : rstate) (c : ascii) (r : reader)
    : csv_error + reader :=
  match add_char c r with
  | inl err => inl err
  | inr r' => inr (set_state s r')
  end.

(** The machine at the start of a field. *)
Definition start_field (r : reader) (e : event) : csv_error + reader :=
  match e with
  | EOL => inr (set_state START_RECORD (save_field r))
  | Ch c =>
      if is_lf c || is_cr c then inr (set_state EAT_CRNL (save_field r))
      else if is_dquote c then inr (set_state IN_QUOTED_FIELD r)
      else if is_comma c then inr (set_state START_FIELD (save_field r))
      else add_then IN_FIELD c r
  end.

Definition process (r : reader) (e : event) : csv_error + reader :=
  match state r with
  | START_RECORD =>
      match e with
      | EOL => inr r                                  (* empty line *)
      | Ch c =>
          if is_lf c || is_cr c then inr (set_state EAT_CRNL r)
          else start_field r e
      end
  | START_FIELD => start_field r e
  | IN_FIELD =>
      match e with
      | EOL => inr (set_state START_RECORD (save_field r))
      | Ch c =>
          if is_lf c || is_cr c then inr (set_state EAT_CRNL (save_field r))
          else if is_comma c then inr (set_state START_FIELD (save_field r))
          else add_char c r
      end
  | IN_QUOTED_FIELD =>
      match e with
      | EOL => inr r
      | Ch c =>
          if is_dquote c then inr (set_state QUOTE_IN_QUOTED_FIELD r)
          else add_char c r
      end
  | QUOTE_IN_QUOTED_FIELD =>
      match e with
      | EOL => inr (set_state START_RECORD (save_field r))
      | Ch c =>
          if is_dquote c then add_then IN_QUOTED_FIELD c r
          else if is_comma c then inr (set_state START_FIELD (save_field r))
          else if is_lf c || is_cr c then
            inr (set_state EAT_CRNL (save_field r))
          else add_then IN_FIELD c r                     (* not strict *)
      end
  | EAT_CRNL =>
      match e with
      | EOL => inr (set_state START_RECORD r)
      | Ch c =>
          if is_lf c || is_cr c then inr r
          else inl CsvError     (* new-line character seen in unquoted field *)
      end
  end.

Fixpoint feed (r : reader) (es : list event) : csv_error + reader :=
  match es with
  | [] => inr r
  | e :: es' =>
      match process r e with
      | inl err => inl err
      | inr r' => feed r' es'
      end
  end.

(** When the lines run out inside a quoted field, or with a field begun,
    what was read is one more record. *)
Definition exhausted (r : reader) : csv_error + list (list string) :=
  if negb (Nat.eqb (length (field r)) 0)
     || bool_decide (state r = IN_QUOTED_FIELD)
  then inr [fields (save_field r)]
  else inr [].

(** After a line: back at [START_RECORD] the record is complete and the
    next one starts afresh; otherwise the record goes on with the next
    line. *)
Definition emit (r : reader) (next : reader -> csv_error + list (list string))
    : csv_error + list (list string) :=
  if bool_decide (state r = START_RECORD) then
    match next fresh with
    | inl err => inl err
    | inr rows => inr (fields r :: rows)
    end
  else next r.

(** The records of the lines. *)
Fixpoint reader_rows (lines : list (list ascii)) (r : reader)
    : csv_error + list (list string) :=
  match lines with
  | [] => exhausted r
  | line :: lines' =>
      match feed r (map Ch line ++ [EOL]) with
      | inl err => inl err
      | inr r' => emit r' (reader_rows lines')
      end
  end.

(** The same records, read off the text character by character: a line
    ends after each LF, and at the end of a text that does not end with one
    ([pending] tells that the current line has characters). *)
Fixpoint stream (text : list ascii) (r : reader) (pending : bool)
    : csv_error + list (list string) :=
  match text with
  | [] =>
      if pending then
        match process r EOL with
        | inl err => inl err
        | inr r' => emit r' exhausted
        end
      else exhausted r
  | c :: t =>
      match process r (Ch c) with
      | inl err => inl err
      | inr r1 =>
          if is_lf c then
            match process r1 EOL with
            | inl err => inl err
            | inr r2 => emit r2 (fun r' => stream t r' false)
            end
          else stream t r1 true
      end
  end.

(** ** [csv.DictReader] *)

Inductive rvalue : Type :=
| RStr (s : string)
| RNone                       (* restval *)
| RList (l : list string).    (* the fields beyond the header, under restkey *)

#[global] Instance rvalue_eq_dec : EqDecision rvalue.
Proof. solve_decision. Defined.

(** A row as a dictionary: the keys are the names of the header, and [None]
    (the restkey) when the row is longer than the header. *)
Definition zip_dict (names : list string) (row : list string)
    : gmap (option string) rvalue :=
  foldl (fun d kv => <[Some (fst kv) := RStr (snd kv)]> d) ∅ (zip names row).

Definition dict_row (names : list string) (row : list string)
    : gmap (option string) rvalue :=
  let d := zip_dict names row in
  let lf := length names in
  let lr := length row in
  if (lf <? lr)%nat then <[None := RList (drop lf row)]> d
  else if (lr <? lf)%nat then
    foldl (fun d key => <[Some key := RNone]> d) d (drop lr names)
  else d.

(** All the rows of a [DictReader]: the first record is the header, empty
    records after it are passed over. *)
Definition dict_reader (lines : list (list ascii))
    : csv_error + list (gmap (option string) rvalue) :=
  match reader_rows lines fresh with
  | inl err => inl err
  | inr [] => inr []
  | inr (names :: rows) =>
      inr (map (dict_row names) (filter (fun row => row <> []) rows))
  end.

Definition has_chars (cur : list ascii) : bool :=
  match cur with [] => false | _ :: _ => true end.

(** A record put in front of the records that follow. *)
Definition cons_row (row : list string)
    (res : csv_error + list (list string)) : csv_error + list (list string) :=
  match res with
  | inl err => inl err
  | inr rows => inr (row :: rows)
  end.

(** No carriage return in a text. *)
Definition no_cr (f : list ascii) : Prop := forallb (fun c => negb (is_cr c)) f = true.

(** A text that is not longer than a field may be. *)
Definition within_limit (f : list ascii) : Prop :=
  (N.of_nat (length f) <= field_limit)%N.

End Csv.

(* ===================================================================== *)
(** * src/csv_writer.py                                                   *)
(* ===================================================================== *)

Module CsvWriter.
Import Csv.
Local Open Scope list_scope.

(** The values of a row dictionary. *)
Inductive pyval : Type :=
| PyNone
| PyStr (s : string)
| PyInt (z : Z).

(** Truth value: [None], [''] and [0] are false. *)
Definition truthy (v : pyval) : bool :=
  match v with
  | PyNone => false
  | PyStr s => negb (String.eqb s "")
  | PyInt z => negb (z =? 0)%Z
  end.

(** What the csv writer writes for a value: nothing for [None], a string as
    it is, [str(v)] otherwise. *)
Definition field_text (v : pyval) : list ascii :=
  match v with
  | PyNone => []
  | PyStr s => list_ascii_of_string s
  | PyInt z => list_ascii_of_string (NilZero.string_of_int (Z.to_int z))
  end.

Definition headers : list string :=
  ["date"; "start_time"; "end_time"; "total"; "source_file"; "processed_at"].

(** The world of the program: the files (a path that names a file is bound
    to its text; directories, which [write_csv] creates when missing, are not
    modelled), the row dictionaries, which are shared objects reached through
    references, and the clock, of which [timestamps n] is the [n]-th reading
    as [datetime.now().isoformat()] gives it. *)
Record world : Type := World {
  fs : gmap string (list ascii);
  heap : gmap nat (gmap string pyval);
  ticks : nat;
  timestamps : nat -> string
}.

Definition row_of (w : world) (l : nat) : gmap string pyval :=
  default ∅ (heap w !! l).

(** ['processed_at' not in row or not row['processed_at']] *)
Definition needs_stamp (row : gmap string pyval) : bool :=
  match row !! "processed_at" with
  | None => true
  | Some v => negb (truthy v)
  end.

(** One turn of the loop that stamps the rows, in place. *)
Definition stamp_row (w : world) (l : nat) : world :=
  if needs_stamp (row_of w l) then
    World (fs w)
          (<[l := <["processed_at" := PyStr (timestamps w (ticks w))]> (row_of w l)]>
             (heap w))
          (S (ticks w)) (timestamps w)
  else w.

Definition stamp_rows (rows : list nat) (w : world) : world :=
  foldl stamp_row w rows.

(** [clean_row[header] = row.get(header, None)] for every header. *)
Definition clean_row (row : gmap string pyval) : gmap string pyval :=
  foldl (fun clean header => <[header := default PyNone (row !! header)]> clean)
        ∅ headers.

(** [DictWriter.writerow]: the values under the field names, in their
    order, a missing one as ['']. (Its check for keys that are not field
    names cannot fire on a [clean_row].) *)
Definition dict_writerow (rowdict : gmap string pyval) : list ascii :=
  writerow (map (fun key => field_text (default (PyStr "") (rowdict !! key)))
                headers).

(** [DictWriter.writeheader] *)
Definition writeheader : list ascii :=
  writerow (map list_ascii_of_string headers).

Definition exists_path (path : string) (w : world) : bool :=
  bool_decide (is_Some (fs w !! path)).

(** [open(out_path, 'a')]: the file is created when there is none. *)
Definition open_append (path : string) (w : world) : world :=
  match fs w !! path with
  | Some _ => w
  | None => World (<[path := []]> (fs w)) (heap w) (ticks w) (timestamps w)
  end.

(** What the call puts in the buffer of its file object. *)
Definition written (file_exists : bool) (rows : list nat) (w : world)
    : list ascii :=
  (if file_exists then [] else writeheader) ++
  flat_map (fun l => dict_writerow (clean_row (row_of w l))) rows.

(** The text of the rows of a call, as written. *)
Definition rows_text (rows : list nat) (w : world) : list ascii :=
  flat_map (fun l => dict_writerow (clean_row (row_of w l))) rows.

(** Leaving the [with] block closes the file: the buffer goes to the end of
    the file. *)
Definition close_append (path : string) (buf : list ascii) (w : world) : world :=
  World (<[path := default [] (fs w !! path) ++ buf]> (fs w))
        (heap w) (ticks w) (timestamps w).

(** [write_csv], one caller at a time (the lock is free, taken and
    released). *)
Definition write_csv (rows : list nat) (out_path : string) (w : world) : world :=
  let file_exists := exists_path out_path w in
  let w := stamp_rows rows w in
  let w := open_append out_path w in
  let buf := written file_exists rows w in
  close_append out_path buf w.

(** ** The call when the operating system refuses

    The exceptions that reach the callers, with the text that [str(e)]
    gives; [FileNotFoundError] is told apart from the others because the
    callers handle it apart. *)
Inductive error : Type :=
| FileNotFoundError (msg : string)
| Exception (msg : string).

(** What the operating system does when the call asks for the file at a
    path: the directory cannot be made ([os.makedirs] raises, line 38), the
    file cannot be opened ([open] raises, line 49: an empty path, a
    directory, a file or a directory without permission), or the file is
    opened, and created when there is none; the lock, the writes and the
    closing of a file that is open are taken to go through. *)
Inductive access : Type :=
| MakedirsRaises (e : error)
| OpenRaises (e : error)
| Opens.

(** [write_csv] as a call that can be refused: the world that it leaves,
    and the exception when it raises.  [os.makedirs] comes before the loop
    that stamps the rows, [open] after it: a call that [open] stops has
    stamped its rows and written nothing. *)
Definition write_csv_or_raise (os : string -> access) (rows : list nat)
    (out_path : string) (w : world) : world * option error :=
  match os out_path with
  | MakedirsRaises e => (w, Some e)
  | OpenRaises e => (stamp_rows rows w, Some e)
  | Opens => (write_csv rows out_path w, None)
  end.

Definition read_csv (csv_path : string) (w : world)
    : csv_error + list (gmap (option string) rvalue) :=
  match fs w !! csv_path with
  | None => inr []
  | Some text => dict_reader (split_lines [] (translate text))
  end.

(** The dictionary that [read_csv] gives back for a row: under each column
    name, the text that the writer wrote for the row's value (nothing for
    [None] and for a missing key). *)
Definition as_read (row : gmap string pyval) : gmap (option string) rvalue :=
  zip_dict headers
    (map (fun key =>
            string_of_list_ascii (field_text (default PyNone (row !! key))))
         headers).

(** The fields of a row, as the writer gets them. *)
Definition row_fields (row : gmap string pyval) : list (list ascii) :=
  map (fun key => field_text (default PyNone (row !! key))) headers.

(** The text of a file that [write_csv] made: the header, then records. *)
Definition sink_text (records : list (list (list ascii))) : list ascii :=
  writeheader ++ flat_map writerow records.

(** A record of six fields without carriage return, none longer than a
    field may be for the reader. *)
Definition plain_record (record : list (list ascii)) : Prop :=
  length record = 6 /\ Forall no_cr record /\ Forall within_limit record.

(** A record of the file, as [read_csv] gives it. *)
Definition record_as_read (record : list (list ascii))
    : gmap (option string) rvalue :=
  zip_dict headers (map string_of_list_ascii record).

(** ** Several callers at once

    Each caller runs the statements of [write_csv] in order; between two
    statements the others may run.  What a caller writes stays in the
    buffer of its file object until the file is closed, as it does while
    the text is shorter than that buffer ([held_back] below); a longer
    text, of which the file object writes a part out before the end, is
    not modelled. *)

Inductive pc : Type :=
| AtExists      (* file_exists = os.path.exists(out_path) *)
| AtStamp       (* the loop that stamps the rows *)
| AtOpen        (* open(out_path, 'a', ...) *)
| AtLock        (* fcntl.flock(..., LOCK_EX) *)
| AtWrite       (* writeheader and the writerow loop *)
| AtUnlock      (* finally: fcntl.flock(..., LOCK_UN) *)
| AtClose       (* end of the with block *)
| Finished.

#[global] Instance pc_eq_dec : EqDecision pc.
Proof. solve_decision. Defined.

Record call : Type := Call {
  at_pc : pc;
  rows : list nat;
  out_path : string;
  file_exists : bool;
  buffer : list ascii
}.

Definition start_call (rows : list nat) (out_path : string) : call :=
  Call AtExists rows out_path false [].

(** The shared state: the world and the holder of the lock of each file. *)
Record shared : Type := Shared {
  the_world : world;
  locks : gmap string nat
}.

Definition at_ (p : pc) (c : call) : call :=
  Call p (rows c) (out_path c) (file_exists c) (buffer c).

(** One statement of caller [tid]; [None] when it cannot run (the lock is
    held by another caller, or the call has finished). *)
Definition step (tid : nat) (c : call) (s : shared) : option (call * shared) :=
  let w := the_world s in
  match at_pc c with
  | AtExists =>
      Some (Call AtStamp (rows c) (out_path c) (exists_path (out_path c) w)
                 (buffer c), s)
  | AtStamp => Some (at_ AtOpen c, Shared (stamp_rows (rows c) w) (locks s))
  | AtOpen => Some (at_ AtLock c, Shared (open_append (out_path c) w) (locks s))
  | AtLock =>
      match locks s !! out_path c with
      | Some _ => None
      | None => Some (at_ AtWrite c, Shared w (<[out_path c := tid]> (locks s)))
      end
  | AtWrite =>
      Some (Call AtUnlock (rows c) (out_path c) (file_exists c)
                 (buffer c ++ written (file_exists c) (rows c) w), s)
  | AtUnlock => Some (at_ AtClose c, Shared w (delete (out_path c) (locks s)))
  | AtClose =>
      Some (at_ Finished c,
            Shared (close_append (out_path c) (buffer c) w) (locks s))
  | Finished => None
  end.

(** A configuration: the callers and the shared state.  A schedule names
    the caller that runs next, statement after statement; a caller that
    cannot run passes its turn. *)
Definition config : Type := list call * shared.

Definition run_one (tid : nat) (cfg : config) : config :=
  match fst cfg !! tid with
  | None => cfg
  | Some c =>
      match step tid c (snd cfg) with
      | None => cfg
      | Some (c', s') => (<[tid := c']> (fst cfg), s')
      end
  end.

Definition run (schedule : list nat) (cfg : config) : config :=
  foldl (fun cfg tid => run_one tid cfg) cfg schedule.

Definition all_finished (cfg : config) : bool :=
  forallb (fun c => bool_decide (at_pc c = Finished)) (fst cfg).

(** The lines of a text: the pieces that end with CR LF. *)
Fixpoint crlf_lines (cur : list ascii) (l : list ascii) : list (list ascii) :=
  match l with
  | [] => match cur with [] => [] | _ :: _ => [cur] end
  | c :: t =>
      match t with
      | d :: t' =>
          if is_cr c && is_lf d then cur :: crlf_lines [] t'
          else crlf_lines (cur ++ [c]) t
      | [] => [cur ++ [c]]
      end
  end.

(** ** The data of the module's own test *)

Definition test_clock (n : nat) : string :=
  match n with
  | 0 => "2024-01-17T09:00:00.000001"
  | 1 => "2024-01-17T09:00:00.000002"
  | _ => "2024-01-17T09:00:00.000003"
  end.

Definition test_row_1 : gmap string pyval :=
  <["date" := PyStr "2024-01-15"]>
  (<["start_time" := PyStr "10:30 AM"]>
  (<["end_time" := PyStr "11:15 AM"]>
  (<["total" := PyStr "125.50"]>
  (<["source_file" := PyStr "test_receipt.jpg"]>
  (<["processed_at" := PyNone]> ∅))))).

Definition test_row_2 : gmap string pyval :=
  <["date" := PyStr "2024-01-16"]>
  (<["start_time" := PyStr "14:00"]>
  (<["end_time" := PyStr "15:30"]>
  (<["total" := PyStr "89.75"]>
  (<["source_file" := PyStr "receipt2.jpg"]> ∅)))).

Definition test_path : string := "output/test_receipts.csv".

(** No file yet, the two rows at the references 0 and 1. *)
Definition test_world : world :=
  World ∅ (<[0 := test_row_1]> (<[1 := test_row_2]> ∅)) 0 test_clock.

(** The same, an empty file already at the path. *)
Definition stale_world : world :=
  World (<[test_path := []]> ∅) (<[0 := test_row_1]> (<[1 := test_row_2]> ∅))
        0 test_clock.

Definition text_lines (path : string) (w : world) : list string :=
  map string_of_list_ascii (crlf_lines [] (default [] (fs w !! path))).

(** Two callers, one row each, the same new file. *)
Definition two_callers : config :=
  ([start_call [0] test_path; start_call [1] test_path],
   Shared test_world ∅).

(** One caller after the other. *)
Definition serial_schedule : list nat :=
  [0; 0; 0; 0; 0; 0; 0; 1; 1; 1; 1; 1; 1; 1].

(** Both callers look for the file before either opens it. *)
Definition racy_schedule : list nat :=
  [0; 1; 0; 0; 0; 0; 0; 0; 1; 1; 1; 1; 1; 1].

(** ** More vocabulary *)

(** The rows of [rows] that have no stamp yet. *)
Definition unstamped (w : world) (rows : list nat) : list nat :=
  List.filter (fun l => needs_stamp (row_of w l)) rows.

(** The clock gives no empty text. *)
Definition clock_ok (w : world) : Prop := forall k, timestamps w k <> "".

(** ** Vocabulary for the callers of an existing file *)













End CsvWriter.

(* ===================================================================== *)
(** * old_web_app/csv_generator.py                                        *)
(* ===================================================================== *)

Module CsvGenerator.
Local Open Scope list_scope.

(** The Textract response as the function reads it; a key that may be
    missing is an [option], and [d.get(key, default)] is [default]. *)
Record text_obj : Type := TextObj {
  Text : option string                                (* 'Text' *)
}.

Record expense_field : Type := ExpenseField {
  Type_ : option text_obj;                            (* 'Type' *)
  ValueDetection : option text_obj                    (* 'ValueDetection' *)
}.

Record line_item : Type := LineItem {
  LineItemExpenseFields : option (list expense_field)
}.

Record line_item_group : Type := LineItemGroup {
  LineItems : option (list line_item)
}.

Record expense_document : Type := ExpenseDocument {
  SummaryFields : option (list expense_field);
  LineItemGroups : option (list line_item_group)
}.

Record response : Type := Response {
  ExpenseDocuments : option (list expense_document)
}.

(** [field.get(key, {}).get('Text', '')] *)
Definition get_text (o : option text_obj) : string :=
  match o with
  | Some t => default "" (Text t)
  | None => ""
  end.

Record item : Type := Item {
  item_name : string;       (* 'item' *)
  item_price : string       (* 'price' *)
}.

Record extracted : Type := Extracted {
  filename : string;
  vendor_name : string;
  total : string;
  date : string;
  items : list item;
  processed_at : string
}.

(** One summary field: the three known tags set their field, any other tag
    is passed over. *)
Definition summary_step (ex : extracted) (field : expense_field) : extracted :=
  let field_type := get_text (Type_ field) in
  let field_value := get_text (ValueDetection field) in
  if String.eqb field_type "VENDOR_NAME" then
    Extracted (filename ex) field_value (total ex) (date ex) (items ex)
              (processed_at ex)
  else if String.eqb field_type "TOTAL" then
    Extracted (filename ex) (vendor_name ex) field_value (date ex) (items ex)
              (processed_at ex)
  else if String.eqb field_type "INVOICE_RECEIPT_DATE" then
    Extracted (filename ex) (vendor_name ex) (total ex) field_value (items ex)
              (processed_at ex)
  else ex.

(** One field of a line item: [ITEM] sets the name, [PRICE] the price. *)
Definition scan_step (np : string * string) (field : expense_field)
    : string * string :=
  let field_type := get_text (Type_ field) in
  let field_value := get_text (ValueDetection field) in
  if String.eqb field_type "ITEM" then (field_value, snd np)
  else if String.eqb field_type "PRICE" then (fst np, field_value)
  else np.

(** The name and the price of a line item once all its fields are scanned. *)
Definition scan (li : line_item) : string * string :=
  foldl scan_step ("", "") (default [] (LineItemExpenseFields li)).

(** A string is true when it is not empty. *)
Definition nonempty (s : string) : bool := negb (String.eqb s "").

(** [if item_name or item_price] *)
Definition kept (li : line_item) : bool :=
  nonempty (fst (scan li)) || nonempty (snd (scan li)).

Definition line_item_step (ex : extracted) (li : line_item) : extracted :=
  let '(item_name, item_price) := scan li in
  if nonempty item_name || nonempty item_price then
    Extracted (filename ex) (vendor_name ex) (total ex) (date ex)
              (items ex ++ [Item item_name item_price]) (processed_at ex)
  else ex.

Definition group_step (ex : extracted) (g : line_item_group) : extracted :=
  foldl line_item_step ex (default [] (LineItems g)).

Definition document_step (ex : extracted) (doc : expense_document) : extracted :=
  let ex := foldl summary_step ex (default [] (SummaryFields doc)) in
  foldl group_step ex (default [] (LineItemGroups doc)).

(** [extract_data_from_json], given the parsed content of the file, the
    name derived from its path and the reading of the clock. *)
Definition extract_data_from_json (name now : string) (data : response)
    : extracted :=
  let ex := Extracted name "" "" "" [] now in
  foldl document_step ex (default [] (ExpenseDocuments data)).

(** All the line items of a response, in the order of the loops. *)
Definition group_line_items (g : line_item_group) : list line_item :=
  default [] (LineItems g).

Definition document_line_items (doc : expense_document) : list line_item :=
  flat_map group_line_items (default [] (LineItemGroups doc)).

Definition all_line_items (data : response) : list line_item :=
  flat_map document_line_items (default [] (ExpenseDocuments data)).

Definition as_item (li : line_item) : item :=
  Item (fst (scan li)) (snd (scan li)).

(** A response with three line items, one of them with an empty name and an
    empty price. *)
Definition field_of (tag value : string) : expense_field :=
  ExpenseField (Some (TextObj (Some tag))) (Some (TextObj (Some value))).

Definition three_items : response :=
  Response (Some [ExpenseDocument
    (Some [field_of "VENDOR_NAME" "Cafe"; field_of "TOTAL" "6.00"])
    (Some [LineItemGroup (Some [
       LineItem (Some [field_of "ITEM" "Coffee"; field_of "PRICE" "3.50"]);
       LineItem (Some [field_of "ITEM" ""; field_of "QUANTITY" "2";
                       field_of "PRICE" ""]);
       LineItem (Some [field_of "PRICE" "2.50"])])])]).

End CsvGenerator.

(* ===================================================================== *)
(** * Pieces of [str] and of [os.path]                                    *)
(* ===================================================================== *)

Module PyText.
Local Open Scope list_scope.

(** [s.startswith(p)] *)
Fixpoint starts_with (p s : list ascii) : bool :=
  match p, s with
  | [], _ => true
  | _ :: _, [] => false
  | a :: p', b :: s' => Ascii.eqb a b && starts_with p' s'
  end.

(** [sub in s], on the characters. *)
Fixpoint contains_from (sub s : list ascii) : bool :=
  starts_with sub s ||
  match s with
  | [] => false
  | _ :: s' => contains_from sub s'
  end.

(** [sub in s] *)
Definition contains (sub s : string) : bool :=
  contains_from (list_ascii_of_string sub) (list_ascii_of_string s).

(** [s.replace(old, new)] for a non-empty [old]: the occurrences of [old]
    are taken from left to right, without overlap.  [skip] counts the
    characters of the occurrence just replaced that are still to be passed
    over. *)
Fixpoint replace_from (old new s : list ascii) (skip : nat) : list ascii :=
  match s with
  | [] => []
  | c :: s' =>
      match skip with
      | S n => replace_from old new s' n
      | O =>
          if starts_with old s
          then new ++ replace_from old new s' (length old - 1)
          else c :: replace_from old new s' 0
      end
  end.

(** [s.replace(old, new)]; with an empty [old], [new] goes before every
    character and at the end. *)
Definition replace (old new s : string) : string :=
  let o := list_ascii_of_string old in
  let n := list_ascii_of_string new in
  let l := list_ascii_of_string s in
  string_of_list_ascii
    match o with
    | [] => n ++ flat_map (fun c => c :: n) l
    | _ :: _ => replace_from o n l 0
    end.

(** [sep.join(parts)] *)
Fixpoint join (sep : string) (parts : list string) : string :=
  match parts with
  | [] => ""
  | [p] => p
  | p :: parts' => (p ++ sep ++ join sep parts')%string
  end.

(** [str(n)] of an integer, and of one that is a length. *)
Definition str_int (z : Z) : string :=
  DecimalString.NilZero.string_of_int (Z.to_int z).

Definition str_nat (n : nat) : string := str_int (Z.of_nat n).

(** [s[:k]] *)
Definition prefix_of (k : nat) (s : string) : string :=
  string_of_list_ascii (take k (list_ascii_of_string s)).

(** ** [posixpath] *)

Definition slash : ascii := "/".

(** [os.path.basename(p)]: what follows the last slash.  [cur] is the
    component being read. *)
Fixpoint basename_from (cur p : list ascii) : list ascii :=
  match p with
  | [] => cur
  | c :: p' =>
      if Ascii.eqb c slash then basename_from [] p'
      else basename_from (cur ++ [c]) p'
  end.

Definition basename (p : string) : string :=
  string_of_list_ascii (basename_from [] (list_ascii_of_string p)).

(** [s.endswith('/')] *)
Definition ends_with_slash (a : list ascii) : bool :=
  match last a with
  | Some c => Ascii.eqb c slash
  | None => false
  end.

(** [os.path.join(a, b)] *)
Definition path_join (a b : string) : string :=
  let la := list_ascii_of_string a in
  let lb := list_ascii_of_string b in
  if starts_with [slash] lb then b
  else if Nat.eqb (length la) 0 || ends_with_slash la then (a ++ b)%string
  else (a ++ "/" ++ b)%string.

(** ** Vocabulary *)

(** [w] is a piece of [text]: characters that follow one another in it. *)
Definition piece_of (w text : list ascii) : Prop :=
  exists a b, text = a ++ w ++ b.

(** No occurrence of [sub] starts in the first [n] positions of [s]. *)
Fixpoint none_within (sub s : list ascii) (n : nat) {struct n} : bool :=
  match n with
  | O => true
  | S n' =>
      negb (starts_with sub s) &&
      match s with
      | [] => true
      | _ :: s' => none_within sub s' n'
      end
  end.

(** No proper beginning of [pat], put before [pat], starts with [pat]:
    an occurrence of [pat] cannot end inside another one. *)
Definition border_free (pat : list ascii) : Prop :=
  forallb (fun k => negb (starts_with pat (take k pat ++ pat)))
          (seq 1 (length pat - 1)) = true.

End PyText.

(* ===================================================================== *)
(** * Functions that print, raise and touch the files                     *)
(* ===================================================================== *)

Module Io.
Import CsvWriter.

(** The text that [str(e)] gives. *)
Definition str (e : error) : string :=
  match e with
  | FileNotFoundError msg => msg
  | Exception msg => msg
  end.

(** What a call can see and change: the files, the row dictionaries and the
    clock (the world of [write_csv]), the environment variables, and what
    was printed on the standard output, one entry for each [print]. *)
Record state : Type := State {
  world : CsvWriter.world;
  environ : gmap string string;
  stdout : list string
}.

(** A call: from a state to a value or an exception, and the state left. *)
Definition io (A : Type) : Type := state -> (error + A) * state.

Definition io_ret {A} (a : A) : io A := fun st => (inr a, st).

Definition io_raise {A} (e : error) : io A := fun st => (inl e, st).

Definition io_bind {A B} (c : io A) (k : A -> io B) : io B :=
  fun st =>
    match c st with
    | (inl e, st') => (inl e, st')
    | (inr a, st') => k a st'
    end.

Notation "'do!' x ':=' c 'in' k" := (io_bind c (fun x => k))
  (at level 10, x name, c at level 100, k at level 200).

(** [try: body  except Exception as e: handler] *)
Definition io_try {A} (body : io A) (handler : error -> io A) : io A :=
  fun st =>
    match body st with
    | (inl e, st') => handler e st'
    | (inr a, st') => (inr a, st')
    end.

(** [if flag: c] *)
Definition when (flag : bool) (c : io unit) : io unit :=
  if flag then c else io_ret tt.

Definition print (line : string) : io unit :=
  fun st => (inr tt, State (world st) (environ st) (stdout st ++ [line])).

(** [os.environ.get(var)] *)
Definition getenv (var : string) : io (option string) :=
  fun st => (inr (environ st !! var), st).

(** [os.path.exists(path)] *)
Definition path_exists (path : string) : io bool :=
  fun st => (inr (exists_path path (world st)), st).

(** [datetime.now().isoformat()]: the next reading of the clock. *)
Definition now_isoformat : io string :=
  fun st =>
    let w := world st in
    (inr (timestamps w (ticks w)),
     State (World (fs w) (heap w) (S (ticks w)) (timestamps w))
           (environ st) (stdout st)).

(** A reference that is not in use. *)
Definition new_ref (h : gmap nat (gmap string pyval)) : nat :=
  S (foldr Nat.max 0 (map fst (map_to_list h))).

(** A dictionary display: a new object. *)
Definition new_dict (d : gmap string pyval) : io nat :=
  fun st =>
    let w := world st in
    let l := new_ref (heap w) in
    (inr l,
     State (World (fs w) (<[l := d]> (heap w)) (ticks w) (timestamps w))
           (environ st) (stdout st)).

(** A call of [write_csv], which the operating system can refuse. *)
Definition call_write_csv (os : string -> access) (rows : list nat)
    (out_path : string) : io unit :=
  fun st =>
    match write_csv_or_raise os rows out_path (world st) with
    | (w, Some e) => (inl e, State w (environ st) (stdout st))
    | (w, None) => (inr tt, State w (environ st) (stdout st))
    end.

(** [open(path, 'w')]: an empty file, whatever was there. *)
Definition open_write (path : string) : io unit :=
  fun st =>
    let w := world st in
    (inr tt,
     State (World (<[path := []]> (fs w)) (heap w) (ticks w) (timestamps w))
           (environ st) (stdout st)).

(** Text written to the file at [path], at its end. *)
Definition write_text (path : string) (text : list ascii) : io unit :=
  fun st =>
    let w := world st in
    (inr tt,
     State (World (<[path := (default [] (fs w !! path) ++ text)%list]> (fs w))
                  (heap w) (ticks w) (timestamps w))
           (environ st) (stdout st)).

(** [for x in l: body x], stopped by the first exception. *)
Fixpoint for_each {A} (l : list A) (body : A -> io unit) : io unit :=
  match l with
  | [] => io_ret tt
  | x :: l' => do! _ := body x in for_each l' body
  end.

(** Truth value of what [os.environ.get] gives. *)
Definition truthy (v : option string) : bool :=
  match v with
  | Some s => negb (String.eqb s "")
  | None => false
  end.

(** The state with more lines printed. *)
Definition say (st : state) (lines : list string) : state :=
  State (world st) (environ st) (stdout st ++ lines)%list.

(** The value and the state that a call leaves. *)
Definition value_of {A} (r : (error + A) * state) : error + A := fst r.
Definition state_of {A} (r : (error + A) * state) : state := snd r.

End Io.

(* ===================================================================== *)
(** * src/textract_handler.py: [extract_blocks]                           *)
(* ===================================================================== *)

Module ExtractBlocks.
Import PyText CsvWriter CsvGenerator Io.

(** A block of the response, as the function reads it. *)
Record block : Type := Block {
  BlockType : option string;                          (* 'BlockType' *)
  BlockText : option string                           (* 'Text' *)
}.

(** The response of [analyze_expense], as the function reads it. *)
Record textract_response : Type := TextractResponse {
  expense : response;                                 (* 'ExpenseDocuments' *)
  Blocks : option (list block)                        (* 'Blocks' *)
}.

(** What is not Python of this repository: Pillow, the Textract client and
    the operating system where it can refuse the output file.
    [preprocess] stands for the block that opens the image, converts it to
    RGB when needed and saves it as JPEG: the new bytes, or the text of the
    exception.  [boto3_client region] is [boto3.client('textract',
    region_name=region)]: the client, whose [analyze_expense] takes the bytes
    of the document, or the text of the exception.  [output_access path] is
    what happens when [write_csv] asks for the file at [path].  (The files
    of [fs] are files that can be read: a directory or a file without
    permission at the path of the image is not modelled.) *)
Record services : Type := Services {
  preprocess : list ascii -> string + list ascii;
  boto3_client : string -> string + (list ascii -> string + textract_response);
  output_access : string -> access
}.

(** [os.environ.get('AWS_REGION') or
     os.environ.get('AWS_DEFAULT_REGION', 'us-east-1')] *)
Definition region_of (env : gmap string string) : string :=
  if truthy (env !! "AWS_REGION") then default "" (env !! "AWS_REGION")
  else default "us-east-1" (env !! "AWS_DEFAULT_REGION").

(** ** The text of the response *)

(** One field: the text of its value, when it has one that is not empty. *)
Definition field_lines (all_text_lines : list string) (field : expense_field)
    : list string :=
  match ValueDetection field with
  | Some value_detection =>
      let text := default "" (Text value_detection) in
      if nonempty text then (all_text_lines ++ [text])%list else all_text_lines
  | None => all_text_lines
  end.

Definition item_lines (all_text_lines : list string) (li : line_item)
    : list string :=
  foldl field_lines all_text_lines (default [] (LineItemExpenseFields li)).

Definition group_lines (all_text_lines : list string) (g : line_item_group)
    : list string :=
  foldl item_lines all_text_lines (default [] (LineItems g)).

Definition document_lines (all_text_lines : list string)
    (doc : expense_document) : list string :=
  let all_text_lines :=
    foldl field_lines all_text_lines (default [] (SummaryFields doc)) in
  foldl group_lines all_text_lines (default [] (LineItemGroups doc)).

(** [text in all_text_lines] *)
Definition among (text : string) (all_text_lines : list string) : bool :=
  existsb (String.eqb text) all_text_lines.

(** One block: the text of a LINE block, when it is not empty and not
    among the lines already. *)
Definition block_lines (all_text_lines : list string) (b : block)
    : list string :=
  if bool_decide (BlockType b = Some "LINE") then
    let text := default "" (BlockText b) in
    if nonempty text && negb (among text all_text_lines)
    then (all_text_lines ++ [text])%list
    else all_text_lines
  else all_text_lines.

Definition all_text_lines (r : textract_response) : list string :=
  let lines :=
    foldl document_lines [] (default [] (ExpenseDocuments (expense r))) in
  foldl block_lines lines (default [] (Blocks r)).

(** ** [extract_blocks] *)

(** [open(path, 'rb')] and [read]. *)
Definition read_bytes (path : string) : io (list ascii) :=
  fun st =>
    match fs (world st) !! path with
    | Some bytes => (inr bytes, st)
    | None =>
        (inl (FileNotFoundError
                ("[Errno 2] No such file or directory: '" ++ path ++ "'")),
         st)
    end.

(** The bytes sent to Textract: the image as JPEG, or the bytes of the
    file, with a warning, when Pillow fails. *)
Definition prepare (sv : services) (image_bytes : list ascii)
    : io (list ascii) :=
  match preprocess sv image_bytes with
  | inr jpeg => io_ret jpeg
  | inl e =>
      do! _ := print ("Warning: Could not preprocess image: " ++ e) in
      io_ret image_bytes
  end.

Definition extract_blocks (sv : services) (path : string) : io string :=
  do! found := path_exists path in
  if negb found then
    io_raise (FileNotFoundError ("Image file not found: " ++ path))
  else
    do! image_bytes := read_bytes path in
    do! image_bytes := prepare sv image_bytes in
    do! aws_region := getenv "AWS_REGION" in
    do! aws_default_region := getenv "AWS_DEFAULT_REGION" in
    let region :=
      if truthy aws_region then default "" aws_region
      else default "us-east-1" aws_default_region in
    match boto3_client sv region with
    | inl e =>
        io_raise (Exception
          ("Failed to create Textract client. Check AWS credentials: " ++ e))
    | inr analyze_expense =>
        match analyze_expense image_bytes with
        | inl e => io_raise (Exception ("Textract API error: " ++ e))
        | inr response => io_ret (join TextractHandler.newline (all_text_lines response))
        end
    end.

(** ** Vocabulary *)

(** The bytes that reach Textract for a file. *)
Definition bytes_sent (sv : services) (image_bytes : list ascii) : list ascii :=
  match preprocess sv image_bytes with
  | inr jpeg => jpeg
  | inl _ => image_bytes
  end.

(** What Textract answers for the file at [path]: the text of the failure
    of the client or of the call, or the response. *)
Definition answer (sv : services) (path : string) (st : state)
    : option (string + (string + textract_response)) :=
  match fs (world st) !! path with
  | None => None
  | Some image_bytes =>
      Some match boto3_client sv (region_of (environ st)) with
           | inl e => inl e
           | inr analyze_expense =>
               inr (analyze_expense (bytes_sent sv image_bytes))
           end
  end.

(** The texts of the values of the expense documents, in the order of the
    loops, and the texts of the LINE blocks. *)
Definition value_text (field : expense_field) : list string :=
  match ValueDetection field with
  | Some value_detection =>
      let text := default "" (Text value_detection) in
      if nonempty text then [text] else []
  | None => []
  end.

Definition item_fields (li : line_item) : list expense_field :=
  default [] (LineItemExpenseFields li).

Definition document_fields (doc : expense_document) : list expense_field :=
  (default [] (SummaryFields doc) ++
   flat_map item_fields (document_line_items doc))%list.

Definition expense_texts (r : textract_response) : list string :=
  flat_map value_text
    (flat_map document_fields (default [] (ExpenseDocuments (expense r)))).

Definition line_text (b : block) : list string :=
  if bool_decide (BlockType b = Some "LINE") then
    let text := default "" (BlockText b) in
    if nonempty text then [text] else []
  else [].

Definition block_texts (r : textract_response) : list string :=
  flat_map line_text (default [] (Blocks r)).

(** The first occurrence of each text that is not in [seen]. *)
Fixpoint fresh_texts (seen : list string) (texts : list string) : list string :=
  match texts with
  | [] => []
  | t :: texts' =>
      if among t seen then fresh_texts seen texts'
      else t :: fresh_texts (seen ++ [t])%list texts'
  end.

(** Pillow handing back the bytes it was given. *)
Definition pillow_idle (sv : services) : services :=
  Services (fun image_bytes => inr image_bytes) (boto3_client sv)
           (output_access sv).

End ExtractBlocks.

(* ===================================================================== *)
(** * src/main.py                                                         *)
(* ===================================================================== *)

Module Main.
Import PyText CsvWriter Io ExtractBlocks.

Definition newline : string := TextractHandler.newline.

Definition required_vars : list string :=
  ["AWS_ACCESS_KEY_ID"; "AWS_SECRET_ACCESS_KEY"].

(** [for var in required_vars: if not os.environ.get(var):
    missing.append(var)] *)
Fixpoint collect_missing (vars missing : list string) : io (list string) :=
  match vars with
  | [] => io_ret missing
  | var :: vars' =>
      do! value := getenv var in
      collect_missing vars'
        (if negb (truthy value) then (missing ++ [var])%list else missing)
  end.

Definition validate_environment : io bool :=
  do! missing := collect_missing required_vars [] in
  match missing with
  | _ :: _ =>
      do! _ := print ("Error: Missing required environment variables: "
                      ++ join ", " missing) in
      do! _ := print "Please configure your AWS credentials in a .env file or environment variables." in
      do! _ := print "See .env.example for the required format." in
      io_ret false
  | [] =>
      do! aws_region := getenv "AWS_REGION" in
      do! aws_default_region := getenv "AWS_DEFAULT_REGION" in
      do! _ := when (negb (truthy aws_region || truthy aws_default_region))
                 (print "Warning: No AWS_REGION configured, using default: us-east-1") in
      io_ret true
  end.

(** [f"{value}"] of a field that is a string or [None]. *)
Definition show (value : option string) : string := default "None" value.

(** A field as a value of the row. *)
Definition as_value (value : option string) : pyval :=
  match value with
  | Some s => PyStr s
  | None => PyNone
  end.

(** [parse_fields] called from here: an exception of it as one of this
    module, with the name of its class for text ([parse_fields] raises
    none, so the text is never looked at). *)
Definition exn_text (e : exn) : string :=
  match e with
  | ValueError => "ValueError"
  | AttributeError => "AttributeError"
  | IndexError => "IndexError"
  | KeyError => "KeyError"
  end.

Definition call_parse_fields (text_content : string)
    : io TextractHandler.fields :=
  match TextractHandler.parse_fields text_content with
  | inr fields => io_ret fields
  | inl e => io_raise (Exception (exn_text e))
  end.

(** The row for the CSV file. *)
Definition csv_row (fields : TextractHandler.fields) (input_path : string)
    : gmap string pyval :=
  <["date" := as_value (TextractHandler.date fields)]>
  (<["start_time" := as_value (TextractHandler.start_time fields)]>
  (<["end_time" := as_value (TextractHandler.end_time fields)]>
  (<["total" := as_value (TextractHandler.total fields)]>
  (<["source_file" := PyStr (basename input_path)]>
  (<["processed_at" := PyNone]> ∅))))).

(** The preview of the text: its first 500 characters. *)
Definition preview_of (text_content : string) : string :=
  if (500 <? String.length text_content)%nat
  then (prefix_of 500 text_content ++ "...")%string
  else text_content.

(** What [except Exception as e] prints, before the trace. *)
Definition report (e : error) (output_path : string) : io unit :=
  if contains "Failed to create Textract client" (str e) then
    do! _ := print "Error: AWS credentials not configured. Please check your .env file" in
    print ("Details: " ++ str e)
  else if contains "Textract API error" (str e) then
    print ("Error: Failed to process image with Textract: " ++ str e)
  else if contains "Permission" (str e) then
    do! _ := print ("Error: Cannot write to output file: " ++ output_path) in
    print ("Details: " ++ str e)
  else print ("Error: An unexpected error occurred: " ++ str e).

(** The body of the [try] statement.  (The trace that the verbose mode adds
    after an error goes to the standard error, which is not modelled.) *)
Definition process_receipt_body (sv : services)
    (input_path output_path : string) (verbose : bool) : io bool :=
  do! found := path_exists input_path in
  if negb found then
    do! _ := print ("Error: Receipt file not found: " ++ input_path) in
    io_ret false
  else
    do! _ := print "Processing with AWS Textract..." in
    do! _ := when verbose (print ("  Extracting text from: " ++ input_path)) in
    do! text_content := extract_blocks sv input_path in
    do! _ := when verbose
      (do! _ := print ("  Extracted " ++ str_nat (String.length text_content)
                       ++ " characters of text") in
       do! _ := print (newline ++ "--- Extracted Text Preview ---") in
       do! _ := print (preview_of text_content) in
       print ("--- End Preview ---" ++ newline)) in
    do! _ := when verbose (print "  Parsing fields from text...") in
    do! fields := call_parse_fields text_content in
    do! _ := when verbose
      (do! _ := print "  Parsed fields:" in
       do! _ := print ("    date: " ++ show (TextractHandler.date fields)) in
       do! _ := print ("    start_time: "
                       ++ show (TextractHandler.start_time fields)) in
       do! _ := print ("    end_time: "
                       ++ show (TextractHandler.end_time fields)) in
       print ("    total: " ++ show (TextractHandler.total fields))) in
    do! row := new_dict (csv_row fields input_path) in
    do! _ := when verbose (print ("  Writing to CSV: " ++ output_path)) in
    do! _ := call_write_csv (output_access sv) [row] output_path in
    do! _ := print ("Done. CSV saved to: " ++ output_path) in
    io_ret true.

Definition process_receipt (sv : services)
    (input_path output_path : string) (verbose : bool) : io bool :=
  io_try (process_receipt_body sv input_path output_path verbose)
    (fun e =>
       match e with
       | FileNotFoundError _ =>
           do! _ := print ("Error: " ++ str e) in
           io_ret false
       | Exception _ =>
           do! _ := report e output_path in
           do! _ := when verbose (print (newline ++ "--- Full Error Trace ---")) in
           io_ret false
       end).

(** ** Vocabulary *)

(** The text that Textract gives for the file, when everything succeeds. *)
Definition text_of (sv : services) (input_path : string) (st : state)
    : option string :=
  match answer sv input_path st with
  | Some (inr (inr response)) =>
      Some (join newline (all_text_lines response))
  | _ => None
  end.

(** The lines printed before the call of Textract, the warning of
    [extract_blocks] included. *)
Definition intro_lines (sv : services) (input_path : string) (verbose : bool)
    (image_bytes : list ascii) : list string :=
  ("Processing with AWS Textract..." ::
   (if verbose then [("  Extracting text from: " ++ input_path)%string]
    else []) ++
   match preprocess sv image_bytes with
   | inl e => [("Warning: Could not preprocess image: " ++ e)%string]
   | inr _ => []
   end)%list.

(** The lines of the verbose mode between the text and the row. *)
Definition verbose_lines (text_content output_path : string)
    (fields : TextractHandler.fields) : list string :=
  ["  Extracted " ++ str_nat (String.length text_content)
     ++ " characters of text";
   newline ++ "--- Extracted Text Preview ---";
   preview_of text_content;
   "--- End Preview ---" ++ newline;
   "  Parsing fields from text...";
   "  Parsed fields:";
   "    date: " ++ show (TextractHandler.date fields);
   "    start_time: " ++ show (TextractHandler.start_time fields);
   "    end_time: " ++ show (TextractHandler.end_time fields);
   "    total: " ++ show (TextractHandler.total fields);
   "  Writing to CSV: " ++ output_path].

(** The lines that [report] prints. *)
Definition report_lines (e : error) (output_path : string) : list string :=
  if contains "Failed to create Textract client" (str e) then
    ["Error: AWS credentials not configured. Please check your .env file";
     "Details: " ++ str e]
  else if contains "Textract API error" (str e) then
    ["Error: Failed to process image with Textract: " ++ str e]
  else if contains "Permission" (str e) then
    ["Error: Cannot write to output file: " ++ output_path;
     "Details: " ++ str e]
  else ["Error: An unexpected error occurred: " ++ str e].

Definition trace_lines (verbose : bool) : list string :=
  if verbose then [newline ++ "--- Full Error Trace ---"] else [].

(** The lines that the handlers print for an exception. *)
Definition handler_lines (e : error) (output_path : string) (verbose : bool)
    : list string :=
  match e with
  | FileNotFoundError _ => ["Error: " ++ str e]
  | Exception _ => (report_lines e output_path ++ trace_lines verbose)%list
  end.

(** What the handlers make of a failure of Textract, [lines] being printed
    before it. *)
Definition failed (st : state) (lines : list string) (e : error)
    (output_path : string) (verbose : bool) : (error + bool) * state :=
  (inr false,
   say st (lines ++ report_lines e output_path ++ trace_lines verbose)%list).

(** The credentials are there. *)
Definition has_credentials (env : gmap string string) : bool :=
  truthy (env !! "AWS_ACCESS_KEY_ID") && truthy (env !! "AWS_SECRET_ACCESS_KEY").

(** A region is configured. *)
Definition has_region (env : gmap string string) : bool :=
  truthy (env !! "AWS_REGION") || truthy (env !! "AWS_DEFAULT_REGION").

Definition region_warning : string :=
  "Warning: No AWS_REGION configured, using default: us-east-1".

(** The world with the row of a receipt as a new dictionary. *)
Definition with_row (w : CsvWriter.world) (row : gmap string pyval)
    : CsvWriter.world :=
  World (fs w) (<[new_ref (heap w) := row]> (heap w)) (ticks w) (timestamps w).

(** The fields that [parse_fields] finds in a text. *)
Definition fields_of (text_content : string) : TextractHandler.fields :=
  match TextractHandler.parse_fields text_content with
  | inr fields => fields
  | inl _ => TextractHandler.empty_fields
  end.

(** The fields of the line that a receipt adds to the CSV file. *)
Definition line_fields (text_content input_path stamp : string)
    : list (list ascii) :=
  let fields := fields_of text_content in
  map field_text
    [as_value (TextractHandler.date fields);
     as_value (TextractHandler.start_time fields);
     as_value (TextractHandler.end_time fields);
     as_value (TextractHandler.total fields);
     PyStr (basename input_path);
     PyStr stamp].

(** A text without carriage return. *)
Definition plain (s : string) : Prop := Csv.no_cr (list_ascii_of_string s).

(** A text that is not longer than [csv.field_size_limit()]: the reader
    raises on a longer field. *)
Definition field_size_limit : Z := 131072.

Definition fits (s : string) : Prop :=
  (Z.of_nat (String.length s) <= field_size_limit)%Z.

End Main.

(* ===================================================================== *)
(** * old_web_app/csv_generator.py: the two CSV reports                   *)
(* ===================================================================== *)

Module CsvReports.
Import PyText Csv CsvWriter Io.
Import CsvGenerator.

(** What is not Python of this repository: [glob.glob pattern], the paths
    that match, in the order in which the system lists them; and, for a
    path, what [open] and [json.load] give: the document, of the shape that
    Textract gives to its responses, or the text of the exception. *)
Record json_store : Type := JsonStore {
  glob : string -> list string;
  load : string -> string + response
}.

(** [os.path.basename(json_file_path).replace('-raw-response.json', '')] *)
Definition filename_of (json_file_path : string) : string :=
  replace "-raw-response.json" "" (basename json_file_path).

(** [extract_data_from_json(json_file_path)], from the file on: the
    document is loaded, then the clock is read, then the document is gone
    through. *)
Definition extract_data_from_json (js : json_store) (json_file_path : string)
    : io extracted :=
  match load js json_file_path with
  | inl e => io_raise (Exception e)
  | inr data =>
      do! now := now_isoformat in
      io_ret (CsvGenerator.extract_data_from_json
                (filename_of json_file_path) now data)
  end.

(** [csv.DictWriter(csvfile, fieldnames).writerow(rowdict)], for a
    dictionary whose keys are field names. *)
Definition dict_writerow (fieldnames : list string)
    (rowdict : gmap string pyval) : list ascii :=
  writerow (map (fun key => field_text (default (PyStr "") (rowdict !! key)))
                fieldnames).

(** [writeheader] *)
Definition writeheader (fieldnames : list string) : list ascii :=
  writerow (map list_ascii_of_string fieldnames).

(** ** [generate_summary_csv] *)

Definition summary_fieldnames : list string :=
  ["filename"; "vendor_name"; "total"; "date"; "item_count"; "processed_at"].

Definition summary_row (data : extracted) : gmap string pyval :=
  <["filename" := PyStr (filename data)]>
  (<["vendor_name" := PyStr (vendor_name data)]>
  (<["total" := PyStr (total data)]>
  (<["date" := PyStr (date data)]>
  (<["item_count" := PyInt (Z.of_nat (length (items data)))]>
  (<["processed_at" := PyStr (processed_at data)]> ∅))))).

(** One turn of the loop over the files. *)
Definition summary_turn (js : json_store) (csv_file_path json_file : string)
    : io unit :=
  io_try
    (do! data := extract_data_from_json js json_file in
     write_text csv_file_path (dict_writerow summary_fieldnames (summary_row data)))
    (fun e => print ("Error processing " ++ json_file ++ ": " ++ str e)).

Definition generate_summary_csv (js : json_store) (output_dir : string)
    : io (option string) :=
  let json_files := glob js (path_join output_dir "*-raw-response.json") in
  match json_files with
  | [] =>
      do! _ := print "No JSON files found to process" in
      io_ret None
  | _ :: _ =>
      let csv_file_path := path_join output_dir "receipt_summary.csv" in
      do! _ := open_write csv_file_path in
      do! _ := write_text csv_file_path (writeheader summary_fieldnames) in
      do! _ := for_each json_files (summary_turn js csv_file_path) in
      do! _ := print ("Summary CSV generated: " ++ csv_file_path) in
      io_ret (Some csv_file_path)
  end.

(** ** [generate_detailed_csv] *)

Definition detailed_fieldnames : list string :=
  ["filename"; "vendor_name"; "receipt_total"; "receipt_date";
   "item_name"; "item_price"; "processed_at"].

Definition detailed_row (data : extracted) (name price : string)
    : gmap string pyval :=
  <["filename" := PyStr (filename data)]>
  (<["vendor_name" := PyStr (vendor_name data)]>
  (<["receipt_total" := PyStr (total data)]>
  (<["receipt_date" := PyStr (date data)]>
  (<["item_name" := PyStr name]>
  (<["item_price" := PyStr price]>
  (<["processed_at" := PyStr (processed_at data)]> ∅)))))).

Definition detailed_turn (js : json_store) (csv_file_path json_file : string)
    : io unit :=
  io_try
    (do! data := extract_data_from_json js json_file in
     match items data with
     | _ :: _ =>
         for_each (items data) (fun item =>
           write_text csv_file_path
             (dict_writerow detailed_fieldnames
                (detailed_row data (item_name item) (item_price item))))
     | [] =>
         write_text csv_file_path
           (dict_writerow detailed_fieldnames (detailed_row data "" ""))
     end)
    (fun e => print ("Error processing " ++ json_file ++ ": " ++ str e)).

Definition generate_detailed_csv (js : json_store) (output_dir : string)
    : io (option string) :=
  let json_files := glob js (path_join output_dir "*-raw-response.json") in
  match json_files with
  | [] =>
      do! _ := print "No JSON files found to process" in
      io_ret None
  | _ :: _ =>
      let csv_file_path := path_join output_dir "receipt_details.csv" in
      do! _ := open_write csv_file_path in
      do! _ := write_text csv_file_path (writeheader detailed_fieldnames) in
      do! _ := for_each json_files (detailed_turn js csv_file_path) in
      do! _ := print ("Detailed CSV generated: " ++ csv_file_path) in
      io_ret (Some csv_file_path)
  end.

(** ** [main] *)

Definition main (js : json_store) : io unit :=
  do! _ := print "CSV Generator for Receipt Processing" in
  do! _ := print (string_of_list_ascii (replicate 40 "="%char)) in
  do! summary_csv := generate_summary_csv js "output" in
  do! detailed_csv := generate_detailed_csv js "output" in
  do! _ := print (TextractHandler.newline ++ "CSV files generated:") in
  do! _ := when (Io.truthy summary_csv)
             (print ("  - Summary: " ++ default "" summary_csv)) in
  when (Io.truthy detailed_csv)
    (print ("  - Detailed: " ++ default "" detailed_csv)).

(** ** Vocabulary *)

(** The documents that load, each with the reading of the clock that its
    turn takes, the first of them at reading [tick]. *)
Fixpoint loaded (js : json_store) (clock : nat -> string) (tick : nat)
    (json_files : list string) : list extracted :=
  match json_files with
  | [] => []
  | json_file :: json_files' =>
      match load js json_file with
      | inl _ => loaded js clock tick json_files'
      | inr data =>
          CsvGenerator.extract_data_from_json
            (filename_of json_file) (clock tick) data
          :: loaded js clock (S tick) json_files'
      end
  end.

(** The lines printed for the files that do not load. *)
Definition load_errors (js : json_store) (json_files : list string)
    : list string :=
  flat_map (fun json_file =>
              match load js json_file with
              | inl e => ["Error processing " ++ json_file ++ ": " ++ e]
              | inr _ => []
              end) json_files.

(** The fields of the line of a receipt in the summary. *)
Definition summary_fields (data : extracted) : list string :=
  [filename data; vendor_name data; total data; date data;
   str_nat (length (items data)); processed_at data].

(** The fields of the lines of a receipt in the detailed report. *)
Definition detailed_fields (data : extracted) : list (list string) :=
  match items data with
  | [] =>
      [[filename data; vendor_name data; total data; date data; ""; "";
        processed_at data]]
  | _ :: _ =>
      map (fun item =>
             [filename data; vendor_name data; total data; date data;
              item_name item; item_price item; processed_at data])
          (items data)
  end.

(** The text of the two reports for the documents that load. *)
Definition summary_text (docs : list extracted) : list ascii :=
  (writeheader summary_fieldnames ++
   flat_map (fun data => writerow (map list_ascii_of_string (summary_fields data)))
            docs)%list.

Definition detailed_text (docs : list extracted) : list ascii :=
  (writeheader detailed_fieldnames ++
   flat_map (fun data =>
               flat_map (fun record => writerow (map list_ascii_of_string record))
                        (detailed_fields data))
            docs)%list.

(** The state after a report: the file at [path] holds [text], the clock
    was read [docs] times, [lines] were printed. *)
Definition reported (st : state) (path : string) (text : list ascii)
    (docs : nat) (lines : list string) : state :=
  let w := world st in
  State (World (<[path := text]> (fs w)) (heap w) (docs + ticks w)
               (timestamps w))
        (environ st) (stdout st ++ lines)%list.

(** A turn that adds [render data] to the file for a document that loads,
    and prints a line for one that does not. *)
Definition turn_ok (js : json_store) (path : string)
    (turn : string -> io unit) (render : extracted -> list ascii) : Prop :=
  forall json_file st content,
    fs (world st) !! path = Some content ->
    turn json_file st =
    (inr tt,
     match load js json_file with
     | inl e =>
         reported st path content 0
           [("Error processing " ++ json_file ++ ": " ++ e)%string]
     | inr data =>
         reported st path
           (content ++
            render (CsvGenerator.extract_data_from_json
                      (filename_of json_file)
                      (timestamps (world st) (ticks (world st))) data))
           1 []
     end).

(** The sum of the numbers of a list. *)
Definition total_of_counts (counts : list nat) : nat := foldr Nat.add 0 counts.

(** The characters of a text, none of them a slash. *)
Definition no_slash (s : string) : Prop :=
  forallb (fun c => negb (Ascii.eqb c slash)) (list_ascii_of_string s) = true.

(** The ending that tells a raw response. *)
Definition raw_suffix : string := "-raw-response.json".

(** The pattern of the raw responses in a directory. *)
Definition raw_responses (output_dir : string) : string :=
  path_join output_dir "*-raw-response.json".

(** A row of a report, as [csv.DictReader] gives it back. *)
Definition row_as_read (fieldnames record : list string)
    : gmap (option string) rvalue :=
  zip_dict fieldnames record.

(** The values of the summary fields with a given tag, in the order of the
    loops. *)
Definition tagged (tag : string) (data : response) : list string :=
  map (fun field => get_text (ValueDetection field))
    (List.filter (fun field => String.eqb (get_text (Type_ field)) tag)
       (flat_map (fun doc => default [] (SummaryFields doc))
                 (default [] (ExpenseDocuments data)))).

(** The path of the raw response that [local_receipt_processor.py] saves
    for a receipt: [os.path.join(output_dir,
    f"{base_name}-raw-response.json")]. *)
Definition raw_response_path (output_dir base_name : string) : string :=
  path_join output_dir (base_name ++ "-raw-response.json").

End CsvReports.

(* ===================================================================== *)
(** * Sample data                                                         *)
(* ===================================================================== *)

Module Samples.
Import PyText CsvWriter CsvGenerator Io ExtractBlocks CsvReports.

(** A response with two summary fields, one line item and three blocks:
    the first block repeats a value, the third is not a LINE. *)
Definition cafe_response : textract_response :=
  TextractResponse
    (Response (Some [ExpenseDocument
       (Some [field_of "VENDOR_NAME" "Cafe Luna";
              field_of "TOTAL" "TOTAL: AED 42.50"])
       (Some [LineItemGroup (Some [
          LineItem (Some [field_of "ITEM" "Latte";
                          field_of "PRICE" "21.25"])])])]))
    (Some [Block (Some "LINE") (Some "Cafe Luna");
           Block (Some "LINE") (Some "24/09/2024 9:15");
           Block (Some "WORD") (Some "Latte")]).

(** No file can be opened at the empty path, nor under a directory that
    belongs to someone else. *)
Definition cafe_access (path : string) : access :=
  if String.eqb path "" then
    OpenRaises (FileNotFoundError "[Errno 2] No such file or directory: ''")
  else if starts_with (list_ascii_of_string "/root/")
                      (list_ascii_of_string path) then
    MakedirsRaises (Exception "[Errno 13] Permission denied: '/root/out'")
  else Opens.

(** Pillow cannot read the file; the client needs a region. *)
Definition cafe_services : services :=
  Services
    (fun _ => inl "cannot identify image file")
    (fun region =>
       if String.eqb region "" then inl "You must specify a region."
       else inr (fun _ => inr cafe_response))
    cafe_access.

Definition cafe_path : string := "receipts/cafe.jpg".

Definition cafe_bytes : list ascii := list_ascii_of_string "not an image".

Definition cafe_environ : gmap string string :=
  <["AWS_ACCESS_KEY_ID" := "AKIAEXAMPLE"]>
  (<["AWS_SECRET_ACCESS_KEY" := "secret"]>
  (<["AWS_REGION" := "eu-west-1"]> ∅)).

(** The receipt is there, no CSV file yet. *)
Definition cafe_state : state :=
  State (World (<[cafe_path := cafe_bytes]> ∅) ∅ 0 test_clock) cafe_environ [].

Definition cafe_text : string :=
  join TextractHandler.newline
    ["Cafe Luna"; "TOTAL: AED 42.50"; "Latte"; "21.25"; "24/09/2024 9:15"].

Definition receipt_data : string := "output/receipt_data.csv".

(** The credentials are there, the default region is set to nothing. *)
Definition blank_region_environ : gmap string string :=
  <["AWS_ACCESS_KEY_ID" := "AKIAEXAMPLE"]>
  (<["AWS_SECRET_ACCESS_KEY" := "secret"]>
  (<["AWS_DEFAULT_REGION" := ""]> ∅)).

Definition blank_region_state : state :=
  State (World (<[cafe_path := cafe_bytes]> ∅) ∅ 0 test_clock)
        blank_region_environ [].

(** A document with no line item, and a vendor named twice. *)
Definition kiosk_doc : response :=
  Response (Some [ExpenseDocument
    (Some [field_of "VENDOR_NAME" "Kiosk"; field_of "TOTAL" "12.00";
           field_of "VENDOR_NAME" "Kiosk 24"])
    None]).

(** Three raw responses in the directory, the second of which does not
    load. *)
Definition sample_store : json_store :=
  JsonStore
    (fun pattern =>
       if String.eqb pattern "output/*-raw-response.json" then
         ["output/r1-raw-response.json"; "output/broken-raw-response.json";
          "output/r2-raw-response.json"]
       else [])
    (fun path =>
       if String.eqb path "output/r1-raw-response.json" then inr three_items
       else if String.eqb path "output/r2-raw-response.json" then inr kiosk_doc
       else inl "Expecting value: line 1 column 1 (char 0)").

(** A clock with five readings. *)
Definition report_clock (n : nat) : string :=
  match n with
  | 0 => "2024-01-17T09:00:00.000001"
  | 1 => "2024-01-17T09:00:00.000002"
  | 2 => "2024-01-17T09:00:00.000003"
  | 3 => "2024-01-17T09:00:00.000004"
  | _ => "2024-01-17T09:00:00.000005"
  end.

(** A summary of an earlier run is there. *)
Definition report_state : state :=
  State (World (<["output/receipt_summary.csv" :=
                    list_ascii_of_string "left by an earlier run"]> ∅)
               ∅ 0 report_clock)
        ∅ [].

End Samples.

(* ===================================================================== *)
(** * Facts about the matcher                                             *)
(* ===================================================================== *)

Module ReFacts.
Import Re.
Local Open Scope list_scope.

Section Sound.
Context (ic : bool).

(** What the greedy loop hands to its continuation. *)
Lemma rep_sound c s : forall lo hi p k res,
  rep ic c lo hi p s k = Some res ->
  exists w s', s = w ++ s' /\ forallb (cmatch ic c) w = true /\
    lo <= length w /\ (forall h, hi = Some h -> length w <= h) /\
    k (after p w) s' = Some res.
Proof.
  induction s as [|x s IH]; intros lo hi p k res H; simpl in H.
  - destruct lo; [|discriminate].
    exists [], []. repeat split; simpl; auto; lia.
  - assert (Hstop : match lo with O => k p (x :: s) | S _ => None end = Some res ->
              exists w s', x :: s = w ++ s' /\ forallb (cmatch ic c) w = true /\
                lo <= length w /\ (forall h, hi = Some h -> length w <= h) /\
                k (after p w) s' = Some res).
    { intros Hs. destruct lo; [|discriminate].
      exists [], (x :: s). repeat split; simpl; auto; lia. }
    destruct (cmatch ic c x && hi_allows hi) eqn:Hc; [|auto].
    apply andb_true_iff in Hc as [Hx Hhi].
    destruct (rep ic c (Nat.pred lo) (option_map Nat.pred hi) (Some x) s k)
      as [r|] eqn:Hr; [|auto].
    inversion H; subst r; clear H Hstop.
    apply IH in Hr as (w & s' & -> & Hw & Hlo & Hh & Hk).
    exists (x :: w), s'. repeat split; simpl; auto.
    + rewrite Hx, Hw. reflexivity.
    + lia.
    + intros h ->. destruct h as [|h]; [discriminate|].
      specialize (Hh h eq_refl). lia.
Qed.

(** Every result of the matcher comes from a match of the pattern. *)
Lemma mre_sound r : forall st k res,
  mre ic r st k = Some res ->
  exists st', matches ic r st st' /\ k st' = Some res.
Proof.
  induction r as [|c|c lo hi|r1 IH1 r2 IH2|r1 IH1 r2 IH2|i r1 IH1|];
    intros st k res H; simpl in H.
  - exists st. split; [reflexivity|assumption].
  - destruct (rest st) as [|x s'] eqn:Hrest; [discriminate|].
    destruct (cmatch ic c x) eqn:Hx; [|discriminate].
    eexists. split; [|exact H]. simpl. exists x. rewrite Hrest.
    repeat split; auto.
  - apply rep_sound in H as (w & s' & Hs & Hw & Hlo & Hh & Hk).
    eexists. split; [|exact Hk]. simpl. exists w. repeat split; auto.
  - apply IH1 in H as (mid & Hm1 & H).
    apply IH2 in H as (st' & Hm2 & H).
    exists st'. split; [|assumption]. simpl. eauto.
  - destruct (mre ic r1 st k) as [res'|] eqn:H1.
    + inversion H; subst res'.
      apply IH1 in H1 as (st' & Hm & Hk). exists st'. simpl. auto.
    + apply IH2 in H as (st' & Hm & Hk). exists st'. simpl. auto.
  - apply IH1 in H as (mid & Hm & Hk).
    eexists. split; [|exact Hk]. simpl. eauto.
  - destruct (word_boundary (prev st) (rest st)) eqn:Hb; [|discriminate].
    exists st. simpl. auto.
Qed.

(** Conversely, the matcher finds a match whenever the pattern has one that
    the rest of the pattern accepts. *)
Lemma rep_complete c w : forall lo hi p s k,
  forallb (cmatch ic c) w = true ->
  lo <= length w -> (forall h, hi = Some h -> length w <= h) ->
  is_Some (k (after p w) s) ->
  is_Some (rep ic c lo hi p (w ++ s) k).
Proof.
  induction w as [|x w IH]; intros lo hi p s k Hw Hlo Hhi Hk.
  - cbn [length] in Hlo. assert (lo = 0) as -> by lia.
    cbn [app after] in *. destruct s as [|y s]; cbn [rep]; [assumption|].
    destruct (cmatch ic c y && hi_allows hi); [|assumption].
    destruct (rep ic c (Nat.pred 0) (option_map Nat.pred hi) (Some y) s k);
      [eauto|assumption].
  - cbn [forallb] in Hw. apply andb_true_iff in Hw as [Hx Hw].
    cbn [app rep]. rewrite Hx.
    assert (Hal : hi_allows hi = true).
    { destruct hi as [[|h]|]; try reflexivity.
      specialize (Hhi 0 eq_refl). cbn [length] in Hhi. lia. }
    rewrite Hal. cbn [andb].
    destruct (IH (Nat.pred lo) (option_map Nat.pred hi) (Some x) s k)
      as [res Hres]; auto.
    + cbn [length] in Hlo. lia.
    + intros h Hh. destruct hi as [h'|]; [|discriminate].
      injection Hh as <-. specialize (Hhi h' eq_refl). cbn [length] in Hhi. lia.
    + rewrite Hres. eauto.
Qed.

Lemma mre_complete r : forall st st' k,
  matches ic r st st' -> is_Some (k st') -> is_Some (mre ic r st k).
Proof.
  induction r as [|c|c lo hi|r1 IH1 r2 IH2|r1 IH1 r2 IH2|i r1 IH1|];
    intros st st' k H Hk; simpl in H; cbn [mre].
  - subst. assumption.
  - destruct H as (x & Hr & Hc & Hp & Hcs). rewrite Hr, Hc.
    destruct st' as [p' s' cs']. cbn in Hp, Hcs. subst. assumption.
  - destruct H as (w & Hr & Hw & Hlo & Hhi & Hp & Hcs). rewrite Hr.
    apply rep_complete; auto.
    destruct st' as [p' s' cs']. cbn in Hp, Hcs. subst. assumption.
  - destruct H as (mid & H1 & H2). eapply IH1; eauto.
  - destruct H as [H|H].
    + destruct (IH1 _ _ k H Hk) as [res ->]. eauto.
    + destruct (mre ic r1 st k); eauto.
  - destruct H as (mid & H1 & ->). eapply (IH1 _ mid); eauto.
  - destruct H as [-> ->]. assumption.
Qed.

Lemma match_here_complete r p s st' :
  matches ic r (MState p s []) st' -> is_Some (match_here ic r p s).
Proof. intros H. unfold match_here. eapply mre_complete; eauto. Qed.

(** A match consumes a prefix of the text. *)
Lemma matches_consumed r : forall st st',
  matches ic r st st' -> exists w, rest st = w ++ rest st'.
Proof.
  induction r as [|c|c lo hi|r1 IH1 r2 IH2|r1 IH1 r2 IH2|i r1 IH1|];
    intros st st' H; simpl in H.
  - subst. exists []. reflexivity.
  - destruct H as (x & Hr & _). exists [x]. assumption.
  - destruct H as (w & Hr & _). exists w. assumption.
  - destruct H as (mid & H1 & H2).
    apply IH1 in H1 as [w1 E1]. apply IH2 in H2 as [w2 E2].
    exists (w1 ++ w2). rewrite E1, E2, app_assoc. reflexivity.
  - destruct H as [H|H]; eauto.
  - destruct H as (mid & H1 & ->). apply IH1 in H1. assumption.
  - destruct H as [_ ->]. exists []. reflexivity.
Qed.

(** A match takes at least [min_len] characters. *)
Lemma matches_min_len r : forall st st',
  matches ic r st st' -> length (rest st') + min_len r <= length (rest st).
Proof.
induction r as [|c|c lo hi|r1 IH1 r2 IH2|r1 IH1 r2 IH2|i r1 IH1|];
  intros st st' H; simpl in H; cbn [min_len].
- subst. lia.
- destruct H as (x & -> & _). cbn [length]. lia.
- destruct H as (w & -> & _ & Hlo & _). rewrite length_app. lia.
- destruct H as (mid & H1 & H2). apply IH1 in H1. apply IH2 in H2. lia.
- destruct H as [H|H]; [apply IH1 in H|apply IH2 in H]; lia.
- destruct H as (mid & H1 & ->). apply IH1 in H1. assumption.
- destruct H as [_ ->]. lia.
Qed.

(** A pattern without groups leaves the captures alone. *)
Lemma matches_no_groups r : forall st st',
  no_groups r = true -> matches ic r st st' -> caps st' = caps st.
Proof.
  induction r as [|c|c lo hi|r1 IH1 r2 IH2|r1 IH1 r2 IH2|i r1 IH1|];
    intros st st' Hn H; simpl in H, Hn.
  - subst. reflexivity.
  - destruct H as (x & _ & _ & _ & Hc). assumption.
  - destruct H as (w & _ & _ & _ & _ & _ & Hc). assumption.
  - apply andb_true_iff in Hn as [Hn1 Hn2].
    destruct H as (mid & H1 & H2).
    rewrite (IH2 _ _ Hn2 H2). eauto.
  - apply andb_true_iff in Hn as [Hn1 Hn2]. destruct H; eauto.
  - discriminate.
  - destruct H as [_ ->]. reflexivity.
Qed.

(** Groups, once set, stay set; the groups of the pattern get set. *)
Lemma matches_defines r : forall st st' i,
  matches ic r st st' ->
  defines i r = true \/ is_Some (lookup_cap i (caps st)) ->
  is_Some (lookup_cap i (caps st')).
Proof.
  induction r as [|c|c lo hi|r1 IH1 r2 IH2|r1 IH1 r2 IH2|j r1 IH1|];
    intros st st' i H Hd; simpl in H, Hd.
  - subst. destruct Hd; [discriminate|assumption].
  - destruct H as (x & _ & _ & _ & ->). destruct Hd; [discriminate|assumption].
  - destruct H as (w & _ & _ & _ & _ & _ & ->).
    destruct Hd; [discriminate|assumption].
  - destruct H as (mid & H1 & H2).
    destruct Hd as [Hd|Hd].
    + apply orb_true_iff in Hd as [Hd|Hd].
      * eapply IH2; [exact H2|]. right. eapply IH1; eauto.
      * eapply IH2; eauto.
    + eapply IH2; [exact H2|]. right. eapply IH1; eauto.
  - destruct Hd as [Hd|Hd].
    + apply andb_true_iff in Hd as [Hd1 Hd2]. destruct H; eauto.
    + destruct H; eauto.
  - destruct H as (mid & H1 & ->). simpl.
    destruct (Nat.eqb i j) eqn:Hij; [eauto|].
    simpl in Hd. eapply IH1; eauto.
  - destruct H as [_ ->]. destruct Hd; [discriminate|assumption].
Qed.

Lemma match_here_sound r p s m :
  match_here ic r p s = Some m -> matches ic r (MState p s []) m.
Proof.
  unfold match_here. intros H.
  apply mre_sound in H as (st' & Hm & Hk). congruence.
Qed.

(** [re.search] returns a match that starts somewhere in the text. *)
Lemma search_from_sound r s : forall p m,
  search_from ic r p s = Some m ->
  exists p' s', matches ic r (MState p' s' []) m.
Proof.
  induction s as [|c s IH]; intros p m H; simpl in H.
  - destruct (match_here ic r p []) eqn:Hm; [|discriminate].
    inversion H; subst. eauto using match_here_sound.
  - destruct (match_here ic r p (c :: s)) eqn:Hm.
    + inversion H; subst. eauto using match_here_sound.
    + eauto.
Qed.

(** ... and that no earlier position has a match. *)
Lemma search_from_leftmost r s : forall p m,
  search_from ic r p s = Some m ->
  exists n,
    match_here ic r (match n with O => p | S n' => s !! n' end) (drop n s)
      = Some m /\
    forall k, k < n ->
      match_here ic r (match k with O => p | S k' => s !! k' end) (drop k s)
        = None.
Proof.
  induction s as [|c s IH]; intros p m H; cbn [search_from] in H.
  - destruct (match_here ic r p []) eqn:Hm; [|discriminate].
    exists 0. split; [cbn [drop]; congruence|]. intros k Hk. lia.
  - destruct (match_here ic r p (c :: s)) eqn:Hm.
    + exists 0. split; [cbn [drop]; congruence|]. intros k Hk. lia.
    + apply IH in H as (n & Hn & Hbefore). exists (S n). split.
      * destruct n; exact Hn.
      * intros [|k] Hk; [exact Hm|].
        specialize (Hbefore k ltac:(lia)). destruct k; exact Hbefore.
Qed.

(** Every element of [re.findall] is the group of a match. *)
Lemma findall_from_sound r s : forall p skip o,
  In o (findall_from ic r p s skip) ->
  exists p' s' m, matches ic r (MState p' s' []) m /\
                  o = lookup_cap 1 (caps m).
Proof.
  induction s as [|c s IH]; intros p skip o H; simpl in H; [contradiction|].
  destruct skip as [|n]; [|eauto].
  destruct (match_here ic r p (c :: s)) as [m|] eqn:Hm; [|eauto].
  destruct H as [<-|H]; [|eauto].
  exists p, (c :: s), m. split; [apply match_here_sound; assumption|reflexivity].
Qed.

Lemma take_consumed (w r : list ascii) :
  take (length (w ++ r) - length r) (w ++ r) = w.
Proof.
  rewrite length_app.
  replace (length w + length r - length r) with (length w) by lia.
  apply take_app_length.
Qed.

Lemma matches_caps_inv Q r : forall st st',
  grp_ok ic Q r -> matches ic r st st' ->
  Forall (fun iw => Q (snd iw)) (caps st) ->
  Forall (fun iw => Q (snd iw)) (caps st').
Proof.
  induction r as [|c|c lo hi|r1 IH1 r2 IH2|r1 IH1 r2 IH2|j r1 IH1|];
    intros st st' Hg H Hc; simpl in H, Hg.
  - subst. assumption.
  - destruct H as (x & _ & _ & _ & ->). assumption.
  - destruct H as (w & _ & _ & _ & _ & _ & ->). assumption.
  - destruct Hg as [Hg1 Hg2]. destruct H as (mid & H1 & H2). eauto.
  - destruct Hg as [Hg1 Hg2]. destruct H; eauto.
  - destruct Hg as [Hg1 Hq]. destruct H as (mid & H1 & ->). simpl.
    constructor; [|eauto]. simpl.
    destruct (matches_consumed _ _ _ H1) as [w Hw].
    rewrite Hw, take_consumed. eauto.
  - destruct H as [_ ->]. assumption.
Qed.

Lemma lookup_cap_In i w cs : lookup_cap i cs = Some w -> In (i, w) cs.
Proof.
  induction cs as [|[j v] cs IH]; simpl; [discriminate|].
  destruct (Nat.eqb i j) eqn:E.
  - apply Nat.eqb_eq in E as ->. intros [= ->]. auto.
  - auto.
Qed.

(** The group of a match found by [re.search]. *)
Lemma search_from_group Q r i s p m :
  grp_ok ic Q r -> defines i r = true ->
  search_from ic r p s = Some m ->
  exists w, lookup_cap i (caps m) = Some w /\ Q w.
Proof.
  intros Hg Hd H. apply search_from_sound in H as (p' & s' & H).
  destruct (matches_defines _ _ _ i H (or_introl Hd)) as [w Hw].
  exists w. split; [assumption|].
  pose proof (matches_caps_inv Q _ _ _ Hg H (List.Forall_nil _)) as Hall.
  rewrite List.Forall_forall in Hall.
  apply (Hall (i, w)). apply lookup_cap_In. assumption.
Qed.

Lemma findall_from_group Q r s p skip o :
  grp_ok ic Q r -> defines 1 r = true ->
  In o (findall_from ic r p s skip) ->
  exists w, o = Some w /\ Q w.
Proof.
  intros Hg Hd H. apply findall_from_sound in H as (p' & s' & m & H & ->).
  destruct (matches_defines _ _ _ 1 H (or_introl Hd)) as [w Hw].
  exists w. split; [assumption|].
  pose proof (matches_caps_inv Q _ _ _ Hg H (List.Forall_nil _)) as Hall.
  rewrite List.Forall_forall in Hall.
  apply (Hall (1, w)). apply lookup_cap_In. assumption.
Qed.

(** The shape [c1{lo,} c2? c3{..}] shared by amounts and prices. *)
Lemma matches_triple c1 lo1 hi1 c2 c3 lo3 hi3 st st' w :
  matches ic (seqs [Rep c1 lo1 hi1; opt c2; Rep c3 lo3 hi3]) st st' ->
  rest st = w ++ rest st' ->
  exists w1 w2 w3, w = w1 ++ w2 ++ w3 /\
    forallb (cmatch ic c1) w1 = true /\ lo1 <= length w1 /\
    forallb (cmatch ic c2) w2 = true /\ length w2 <= 1 /\
    forallb (cmatch ic c3) w3 = true /\
    (forall h, hi3 = Some h -> length w3 <= h).
Proof.
  simpl. intros (m1 & (w1 & E1 & F1 & L1 & _ & _ & _) & m2 &
                 (w2 & E2 & F2 & _ & H2 & _ & _) & m3 &
                 (w3 & E3 & F3 & _ & H3 & _ & _) & ->) Hw.
  exists w1, w2, w3. repeat split; auto.
  rewrite E1, E2, E3 in Hw.
  rewrite !app_assoc in Hw. apply app_inv_tail in Hw.
  rewrite <- Hw, <- !app_assoc. reflexivity.
Qed.

End Sound.

(** ** Running the matcher by hand *)

Section Run.
Context (ic : bool).

(** A repetition that may take nothing more passes on. *)
Lemma rep_done c p s k : rep ic c 0 (Some 0) p s k = k p s.
Proof. destruct s; cbn [rep hi_allows]; rewrite ?andb_false_r; reflexivity. Qed.

(** An optional character that is there is taken, when the rest of the
    pattern then succeeds. *)
Lemma rep_opt_taken c p x s k res :
  cmatch ic c x = true -> k (Some x) s = Some res ->
  rep ic c 0 (Some 1) p (x :: s) k = Some res.
Proof.
  intros Hx Hk. cbn [rep hi_allows option_map Nat.pred]. rewrite Hx.
  cbn [andb]. rewrite rep_done, Hk. reflexivity.
Qed.

(** A greedy repetition takes the whole run of its class, when the rest of
    the pattern succeeds after the run. *)
Lemma rep_run c w : forall lo p s k res,
  forallb (cmatch ic c) w = true ->
  match s with x :: _ => cmatch ic c x = false | [] => True end ->
  lo <= length w ->
  k (after p w) s = Some res ->
  rep ic c lo None p (w ++ s) k = Some res.
Proof.
  induction w as [|x w IH]; intros lo p s k res Hw Hs Hlo Hk.
  - cbn [length] in Hlo. assert (lo = 0) as -> by lia.
    cbn [app]. cbn [after] in Hk.
    destruct s as [|y s]; cbn [rep]; [assumption|].
    rewrite Hs. cbn [andb]. assumption.
  - cbn [forallb] in Hw. apply andb_true_iff in Hw as [Hx Hw].
    cbn [app rep hi_allows option_map]. rewrite Hx. cbn [andb].
    rewrite (IH (Nat.pred lo) (Some x) s k res); auto.
    cbn [length] in Hlo. lia.
Qed.

End Run.

(** Literals that are not letters are compared as they are, whatever the
    flag. *)
Lemma cmatch_comma ic x : cmatch ic (CLit ",") x = Ascii.eqb x ",".
Proof.
  destruct ic; [|reflexivity].
  destruct x as [[] [] [] [] [] [] [] []]; reflexivity.
Qed.

Lemma cmatch_dot ic x : cmatch ic (CLit ".") x = Ascii.eqb x ".".
Proof.
  destruct ic; [|reflexivity].
  destruct x as [[] [] [] [] [] [] [] []]; reflexivity.
Qed.

Lemma cmatch_colon ic x : cmatch ic (CLit ":") x = Ascii.eqb x ":".
Proof.
  destruct ic; [|reflexivity].
  destruct x as [[] [] [] [] [] [] [] []]; reflexivity.
Qed.

Lemma lower_not_digit c : is_digit c = false -> is_digit (lower c) = false.
Proof. destruct c as [[] [] [] [] [] [] [] []]; vm_compute; congruence. Qed.

Lemma digit_lower x : is_digit x = true -> lower x = x.
Proof. destruct x as [[] [] [] [] [] [] [] []]; vm_compute; congruence. Qed.

Lemma space_not_digit x : is_space x = true -> is_digit x = false.
Proof. destruct x as [[] [] [] [] [] [] [] []]; vm_compute; congruence. Qed.

(** A literal that is no digit matches no digit. *)
Lemma lit_not_digit ic c x :
  is_digit c = false -> cmatch ic (CLit c) x = true -> is_digit x = false.
Proof.
  intros Hc Hx. cbn [cmatch] in Hx. destruct ic.
  - apply Ascii.eqb_eq in Hx. destruct (is_digit x) eqn:Hd; [|reflexivity].
    rewrite (digit_lower _ Hd) in Hx. subst x.
    rewrite (lower_not_digit _ Hc) in Hd. discriminate.
  - apply Ascii.eqb_eq in Hx. subst. assumption.
Qed.

Lemma search_leftmost r ic text m :
  search r ic text = Some m ->
  exists n, match_at r ic text n = Some m /\
            forall k, k < n -> match_at r ic text k = None.
Proof.
  unfold search, match_at, char_before. intros H.
  apply search_from_leftmost in H as (n & Hn & Hb). eauto.
Qed.

End ReFacts.

(* ===================================================================== *)
(** * Properties of [parse_fields]                                        *)
(* ===================================================================== *)

Module TextractHandlerFacts.
Import Re PyFloat TextractHandler ReFacts.
Local Open Scope list_scope.

(** ** What the groups of the patterns can hold *)

Lemma forallb_weaken {A} (f g : A -> bool) (l : list A) :
  (forall x, f x = true -> g x = true) ->
  forallb f l = true -> forallb g l = true.
Proof.
  intros Hfg. induction l as [|x l IH]; simpl; [auto|].
  intros H. apply andb_true_iff in H as [Hx Hl].
  rewrite (Hfg _ Hx), (IH Hl). reflexivity.
Qed.

Lemma amount_body_chars ic st mid w :
  matches ic (seqs [plus (COr CDigit (CLit ",")); opt (CLit "."); star CDigit])
    st mid ->
  rest st = w ++ rest mid -> amount_chars w.
Proof.
  intros H Hw.
  destruct (matches_triple ic _ _ _ _ _ _ _ _ _ _ H Hw)
    as (w1 & w2 & w3 & -> & F1 & _ & F2 & _ & F3 & _).
  unfold amount_chars. rewrite !forallb_app.
  apply andb_true_iff; split; [|apply andb_true_iff; split].
  - revert F1. apply forallb_weaken. intros x.
    change (cmatch ic (COr CDigit (CLit ",")) x)
      with (is_digit x || cmatch ic (CLit ",") x).
    rewrite cmatch_comma. intros Hx. apply orb_true_iff in Hx as [->| ->]; [reflexivity|].
    rewrite orb_true_r. reflexivity.
  - revert F2. apply forallb_weaken. intros x. rewrite cmatch_dot.
    intros ->. apply orb_true_r.
  - revert F3. apply forallb_weaken. intros x. simpl. intros ->. reflexivity.
Qed.

Lemma one_dot ic (w : list ascii) :
  forallb (cmatch ic (CLit ".")) w = true -> length w <= 1 ->
  w = [] \/ w = ["."%char].
Proof.
  destruct w as [|x [|y w]]; cbn [forallb length]; intros H L; [auto| |lia].
  right. rewrite cmatch_dot, andb_true_r in H.
  apply Ascii.eqb_eq in H. subst. reflexivity.
Qed.

Lemma price_body_shape ic st mid w :
  matches ic (seqs [plus CDigit; opt (CLit "."); Rep CDigit 0 (Some 2)]) st mid ->
  rest st = w ++ rest mid -> price_shape w.
Proof.
  intros H Hw.
  destruct (matches_triple ic _ _ _ _ _ _ _ _ _ _ H Hw)
    as (w1 & w2 & w3 & -> & F1 & L1 & F2 & L2 & F3 & _).
  exists w1, w2, w3. repeat split; auto.
  eapply one_dot; eauto.
Qed.

Lemma total_patterns_grp_ok ic :
  Forall (grp_ok ic amount_chars) total_patterns.
Proof.
  unfold total_patterns.
  repeat (apply List.Forall_cons || apply List.Forall_nil);
    cbn; repeat split;
    intros st mid w H Hw; exact (amount_body_chars ic st mid w H Hw).
Qed.

Lemma total_patterns_define :
  Forall (fun p => defines 1 p = true) total_patterns.
Proof. repeat constructor. Qed.

Lemma price_pattern_grp_ok ic : grp_ok ic price_shape price_pattern.
Proof.
  cbn. repeat split.
  intros st mid w H Hw. exact (price_body_shape ic st mid w H Hw).
Qed.

(** The patterns given to [re.findall] take at least one character, so that
    its matches never are empty. *)
Lemma findall_patterns_advance ic p s m :
  match_here ic time_pattern p s = Some m \/
  match_here ic price_pattern p s = Some m ->
  length (rest m) < length s.
Proof.
  intros [H|H]; apply match_here_sound, matches_min_len in H;
    cbn in H; lia.
Qed.

(** ** [float] on what reaches it *)

Lemma py_float_raises s e : py_float s = inl e -> e = ValueError.
Proof.
  unfold py_float. destruct (split_dot _) as [ip fo].
  destruct (_ && _); [discriminate|]. intros [= <-]. reflexivity.
Qed.

Lemma digit_not_dot c : is_digit c = true -> Ascii.eqb c "." = false.
Proof. destruct c as [[] [] [] [] [] [] [] []]; vm_compute; congruence. Qed.

Lemma split_dot_digits w1 r :
  forallb is_digit w1 = true ->
  split_dot (w1 ++ r) = (w1 ++ fst (split_dot r), snd (split_dot r)).
Proof.
  induction w1 as [|c w1 IH]; simpl; intros H.
  - destruct (split_dot r); reflexivity.
  - apply andb_true_iff in H as [Hc Hw]. rewrite (digit_not_dot _ Hc), (IH Hw).
    reflexivity.
Qed.

(** Every price token is a float literal. *)
Lemma price_shape_valid w :
  price_shape w -> exists x, py_float (string_of_list_ascii w) = inr x.
Proof.
  intros (w1 & w2 & w3 & -> & F1 & L1 & [-> | ->] & F3); unfold py_float;
    rewrite list_ascii_of_string_of_list_ascii.
  - simpl. replace (w1 ++ w3) with ((w1 ++ w3) ++ []) by apply app_nil_r.
    rewrite split_dot_digits by (rewrite forallb_app, F1, F3; reflexivity).
    simpl. rewrite app_nil_r, forallb_app, F1, F3. simpl.
    rewrite length_app.
    destruct (length w1 + length w3 + 0) eqn:E; [lia|]. simpl. eauto.
  - rewrite split_dot_digits by assumption. simpl.
    rewrite app_nil_r, F1, F3. simpl.
    destruct (length w1 + length w3) eqn:E; [lia|]. simpl. eauto.
Qed.

Lemma remove_commas_chars w :
  amount_chars w ->
  forallb (fun c => is_digit c || Ascii.eqb c ".")
          (list_ascii_of_string (remove_commas (string_of_list_ascii w))) = true.
Proof.
  unfold remove_commas, amount_chars.
  rewrite !list_ascii_of_string_of_list_ascii.
  induction w as [|c w IH]; [reflexivity|].
  cbn [forallb]. intros H. apply andb_true_iff in H as [Hc Hw].
  rewrite filter_cons. destruct (decide (c <> ","%char)) as [Hne|Heq].
  - cbn [forallb]. rewrite (IH Hw), andb_true_r.
    apply orb_true_iff in Hc as [Hc|Hc]; [|rewrite Hc; apply orb_true_r].
    apply orb_true_iff in Hc as [Hc|Hc]; [rewrite Hc; reflexivity|].
    apply Ascii.eqb_eq in Hc. contradiction.
  - apply IH. assumption.
Qed.

(** What reaches [float] in [parse_fields] is made of digits and dots:
    the captures of the total patterns once the commas are removed, and the
    price tokens (which are always float literals). *)
Lemma float_arguments :
  (forall p lines m,
     In p total_patterns -> search p true lines = Some m ->
     exists s, group m 1 = Some s /\
       forallb (fun c => is_digit c || Ascii.eqb c ".")
               (list_ascii_of_string (remove_commas s)) = true) /\
  (forall lines s,
     In s (findall price_pattern false lines) ->
     price_shape (list_ascii_of_string s)).
Proof.
  split.
  - intros p lines m Hp Hs. unfold search in Hs.
    pose proof (total_patterns_grp_ok true) as Hg.
    pose proof total_patterns_define as Hd.
    rewrite List.Forall_forall in Hg, Hd.
    destruct (search_from_group true amount_chars p 1 _ _ _
                (Hg p Hp) (Hd p Hp) Hs) as (w & Hw & Hq).
    exists (string_of_list_ascii w). unfold group. rewrite Hw. split;
      [reflexivity|apply remove_commas_chars; assumption].
  - intros lines s. unfold findall. rewrite in_map_iff. intros (o & <- & Ho).
    apply (findall_from_group false price_shape) in Ho
      as (w & -> & Hw); [|apply price_pattern_grp_ok|reflexivity].
    cbn [default from_option id]. rewrite list_ascii_of_string_of_list_ascii.
    assumption.
Qed.

(** ** The blocks of [parse_fields], one by one *)

Lemma search_defines r ic lines m i :
  defines i r = true -> search r ic lines = Some m -> is_Some (group m i).
Proof.
  unfold search, group. intros Hd H.
  apply search_from_sound in H as (p' & s' & H).
  destruct (matches_defines _ _ _ _ i H (or_introl Hd)) as [w ->].
  simpl. eauto.
Qed.

Lemma date_loop_frame ps lines f :
  start_time (date_loop ps lines f) = start_time f /\
  end_time (date_loop ps lines f) = end_time f /\
  total (date_loop ps lines f) = total f.
Proof.
  induction ps as [|q ps IH]; simpl; [auto|].
  destruct (search q true lines); [simpl; auto|assumption].
Qed.

Lemma date_loop_first ps lines f : forall i p m,
  ps !! i = Some p -> search p true lines = Some m ->
  (forall j q, j < i -> ps !! j = Some q -> search q true lines = None) ->
  date (date_loop ps lines f) = group m 1.
Proof.
  induction ps as [|q ps IH]; intros [|i] p m Hp Hm Hprev;
    simpl in Hp; try discriminate.
  - injection Hp as ->. simpl. rewrite Hm. reflexivity.
  - simpl. rewrite (Hprev 0 q) by (simpl; (lia || reflexivity)).
    apply (IH i p m Hp Hm). intros j q' Hj Hq.
    apply (Hprev (S j) q'); [lia|exact Hq].
Qed.

Lemma date_loop_none ps lines f :
  (forall q, In q ps -> search q true lines = None) ->
  date (date_loop ps lines f) = date f.
Proof.
  induction ps as [|q ps IH]; simpl; intros H; [reflexivity|].
  rewrite (H q) by auto. apply IH. auto.
Qed.

Lemma time_block_eq lines f :
  time_block lines f =
  inr (match findall time_pattern false lines with
       | [] => f
       | [a] => set_start_time (Some a) f
       | a :: b :: _ => set_end_time (Some b) (set_start_time (Some a) f)
       end).
Proof.
  unfold time_block.
  destruct (findall time_pattern false lines) as [|a [|b l]]; reflexivity.
Qed.

Lemma total_loop_step p ps lines f :
  defines 1 p = true ->
  total_loop (p :: ps) lines f =
  match accepts p lines with
  | Some t => inr (set_total (Some t) f)
  | None => total_loop ps lines f
  end.
Proof.
  intros Hd. unfold accepts. simpl.
  destruct (search p true lines) as [m|] eqn:Hs; [|reflexivity].
  destruct (search_defines _ _ _ _ _ Hd Hs) as [s ->]. simpl.
  destruct (py_float (remove_commas s)) as [e|x] eqn:Hf; [|reflexivity].
  rewrite (py_float_raises _ _ Hf). reflexivity.
Qed.

Lemma total_loop_first ps lines f :
  Forall (fun p => defines 1 p = true) ps ->
  forall i p t,
  ps !! i = Some p -> accepts p lines = Some t ->
  (forall j q, j < i -> ps !! j = Some q -> accepts q lines = None) ->
  total_loop ps lines f = inr (set_total (Some t) f).
Proof.
  induction 1 as [|q ps Hq Hps IH]; intros [|i] p t Hp Ha Hprev;
    simpl in Hp; try discriminate; rewrite total_loop_step by assumption.
  - injection Hp as ->. rewrite Ha. reflexivity.
  - rewrite (Hprev 0 q) by (simpl; (lia || reflexivity)).
    apply (IH i p t Hp Ha). intros j q' Hj Hq'.
    apply (Hprev (S j) q'); [lia|exact Hq'].
Qed.

Lemma total_loop_none ps lines f :
  Forall (fun p => defines 1 p = true) ps ->
  (forall q, In q ps -> accepts q lines = None) ->
  total_loop ps lines f = inr f.
Proof.
  induction 1 as [|q ps Hq Hps IH]; intros Hn; [reflexivity|].
  rewrite total_loop_step by assumption.
  rewrite (Hn q) by (simpl; auto). apply IH. intros; apply Hn; simpl; auto.
Qed.

(** The cascade either leaves the record alone, every pattern having
    failed, or sets the total to what the first successful pattern gives. *)
Lemma total_loop_cases ps lines f :
  Forall (fun p => defines 1 p = true) ps ->
  (total_loop ps lines f = inr f /\
   forall q, In q ps -> accepts q lines = None) \/
  (exists i p t, ps !! i = Some p /\ accepts p lines = Some t /\
     (forall j q, j < i -> ps !! j = Some q -> accepts q lines = None) /\
     total_loop ps lines f = inr (set_total (Some t) f)).
Proof.
  induction 1 as [|q ps Hq Hps IH].
  - left. split; [reflexivity|]. intros q [].
  - rewrite total_loop_step by assumption.
    destruct (accepts q lines) as [t|] eqn:Ha.
    + right. exists 0, q, t. repeat split; auto. intros j q' Hj. lia.
    + destruct IH as [[E Hn]|(i & p & t & Hp & Hpa & Hprev & E)].
      * left. split; [assumption|]. intros q' [<-|Hin]; auto.
      * right. exists (S i), p, t. repeat split; auto.
        intros [|j] q' Hj Hq'; simpl in Hq'.
        -- injection Hq' as <-. assumption.
        -- apply (Hprev j q'); [lia|assumption].
Qed.

Lemma accepts_truthy p lines t :
  accepts p lines = Some t -> truthy (Some t) = true.
Proof.
  unfold accepts. destruct (search p true lines) as [m|]; [|discriminate].
  destruct (group m 1) as [s|]; [|discriminate].
  destruct (py_float (remove_commas s)) as [e|x] eqn:Hf; [discriminate|].
  intros [= <-]. simpl.
  destruct (remove_commas s); [discriminate Hf|reflexivity].
Qed.

(** ** The fallback *)

Lemma findall_price_valid lines s :
  In s (findall price_pattern false lines) -> exists x, py_float s = inr x.
Proof.
  unfold findall. rewrite in_map_iff. intros (o & <- & Ho).
  apply (findall_from_group false price_shape) in Ho
    as (w & -> & Hw); [|apply price_pattern_grp_ok|reflexivity].
  simpl. apply price_shape_valid. assumption.
Qed.

Lemma positive_prices_eq prices :
  (forall s, In s prices -> exists x, py_float s = inr x) ->
  positive_prices prices =
  inr (filter (fun x => is_pos x = true) (omap token_value prices)).
Proof.
  induction prices as [|p prices IH]; intros Hv; [reflexivity|].
  destruct (Hv p) as [x Hx]; [simpl; auto|].
  simpl. unfold token_value at 1. rewrite Hx. simpl.
  rewrite IH by (intros; apply Hv; simpl; auto).
  rewrite filter_cons. destruct (is_pos x) eqn:Hp.
  - rewrite decide_True by reflexivity. reflexivity.
  - rewrite decide_False by discriminate. reflexivity.
Qed.

Lemma fold_bigger_spec l : forall a,
  In (fold_left bigger l a) (a :: l) /\
  forall y, In y (a :: l) -> ltb (fold_left bigger l a) y = false.
Proof.
  induction l as [|x l IH]; intros a; simpl.
  - split; [auto|]. intros y [<-|[]]. unfold ltb. apply Z.ltb_irrefl.
  - destruct (IH (bigger a x)) as [Hin Hmax]. split.
    + destruct Hin as [Hin|Hin]; [|auto].
      rewrite <- Hin. unfold bigger. destruct (ltb a x); auto.
    + intros y Hy.
      assert (Hb : ltb (fold_left bigger l (bigger a x)) (bigger a x) = false)
        by (apply Hmax; simpl; auto).
      destruct Hy as [<-|[<-|Hy]]; [| |apply Hmax; simpl; auto].
      * revert Hb. unfold bigger, ltb. destruct (key a <? key x)%Z eqn:E;
          rewrite ?Z.ltb_lt, ?Z.ltb_ge in *; lia.
      * revert Hb. unfold bigger, ltb. destruct (key a <? key x)%Z eqn:E;
          rewrite ?Z.ltb_lt, ?Z.ltb_ge in *; lia.
Qed.

Lemma fallback_block_eq lines f :
  truthy (total f) = false ->
  fallback_block lines f =
  inr (match price_values lines with
       | [] => f
       | a :: l => set_total (Some (py_str (fold_left bigger l a))) f
       end).
Proof.
  intros Ht. unfold fallback_block, price_values. rewrite Ht. simpl.
  pose proof (findall_price_valid lines) as Hv.
  destruct (findall price_pattern false lines) as [|p prices] eqn:E;
    [reflexivity|].
  rewrite positive_prices_eq by assumption.
  destruct (filter _ _) as [|a l]; reflexivity.
Qed.

Lemma fallback_block_skip lines f :
  truthy (total f) = true -> fallback_block lines f = inr f.
Proof. intros Ht. unfold fallback_block. rewrite Ht. reflexivity. Qed.

(** ** The whole function *)

Lemma fields_eta f :
  f = Fields (date f) (start_time f) (end_time f) (total f).
Proof. destruct f; reflexivity. Qed.

Lemma total_loop_eq ps lines f :
  Forall (fun p => defines 1 p = true) ps ->
  total_loop ps lines f =
  inr (match first_accepted ps lines with
       | Some t => set_total (Some t) f
       | None => f
       end).
Proof.
  induction 1 as [|q ps Hq Hps IH]; [reflexivity|].
  rewrite total_loop_step by assumption. simpl.
  destruct (accepts q lines); [reflexivity|assumption].
Qed.

Lemma first_accepted_truthy ps lines t :
  first_accepted ps lines = Some t -> truthy (Some t) = true.
Proof.
  induction ps as [|q ps IH]; simpl; [discriminate|].
  destruct (accepts q lines) as [t'|] eqn:Ha; [|assumption].
  intros [= <-]. eapply accepts_truthy; eauto.
Qed.

Lemma first_accepted_first ps lines : forall i p t,
  ps !! i = Some p -> accepts p lines = Some t ->
  (forall j q, j < i -> ps !! j = Some q -> accepts q lines = None) ->
  first_accepted ps lines = Some t.
Proof.
  induction ps as [|q ps IH]; intros [|i] p t Hp Ha Hprev;
    simpl in Hp; try discriminate; simpl.
  - injection Hp as ->. rewrite Ha. reflexivity.
  - rewrite (Hprev 0 q) by (simpl; (lia || reflexivity)).
    apply (IH i p t Hp Ha). intros j q' Hj Hq'.
    apply (Hprev (S j) q'); [lia|exact Hq'].
Qed.

Lemma first_accepted_none ps lines :
  (forall q, In q ps -> accepts q lines = None) ->
  first_accepted ps lines = None.
Proof.
  induction ps as [|q ps IH]; simpl; intros H; [reflexivity|].
  rewrite (H q) by auto. apply IH. auto.
Qed.

Lemma before_total_fields lines :
  before_total lines =
  Fields (date_of lines) (fst (times_of lines)) (snd (times_of lines)) None.
Proof.
  unfold before_total, range_block, times_of, generic_pairing, date_of.
  destruct (date_loop_frame date_patterns lines empty_fields) as (Hs & He & Ht).
  rewrite (fields_eta (date_loop date_patterns lines empty_fields)).
  rewrite Hs, He, Ht. simpl.
  destruct (search time_range_pattern true lines);
    destruct (findall time_pattern false lines) as [|a [|b l]]; reflexivity.
Qed.

(** [parse_fields] returns, and each field of its result is the reading of
    that field on its own. *)
Lemma parse_fields_eq lines :
  parse_fields lines =
  inr (Fields (date_of lines) (fst (times_of lines)) (snd (times_of lines))
              (total_of lines)).
Proof.
  unfold parse_fields. rewrite time_block_eq. cbn [bind].
  change (range_block lines _) with (before_total lines).
  rewrite total_loop_eq by apply total_patterns_define. cbn [bind].
  rewrite before_total_fields. unfold total_of.
  destruct (first_accepted total_patterns lines) as [t|] eqn:Hc.
  - rewrite fallback_block_skip; [reflexivity|].
    simpl. eapply first_accepted_truthy; eauto.
  - rewrite fallback_block_eq by reflexivity. unfold fallback_total.
    destruct (price_values lines); reflexivity.
Qed.

(** ** A total line in any surroundings *)

Lemma list_ascii_app (a b : string) :
  list_ascii_of_string (a ++ b) =
  (list_ascii_of_string a ++ list_ascii_of_string b)%list.
Proof. induction a as [|x a IH]; [reflexivity|]. simpl. rewrite IH. reflexivity. Qed.

Lemma aed_needs_A p x s :
  cmatch true (CLit "A") x = false ->
  match_here true aed_prefixed p (x :: s) = None.
Proof.
  intros H. unfold match_here, aed_prefixed.
  cbn [seqs foldr lit lit_chars list_ascii_of_string mre rest]. rewrite H.
  reflexivity.
Qed.

Lemma aed_needs_E p x y s :
  cmatch true (CLit "E") y = false ->
  match_here true aed_prefixed p (x :: y :: s) = None.
Proof.
  intros H. unfold match_here, aed_prefixed.
  cbn [seqs foldr lit lit_chars list_ascii_of_string mre rest].
  destruct (cmatch true (CLit "A") x); [|reflexivity].
  cbn [rest]. rewrite H. reflexivity.
Qed.

Lemma aed_search_skip pre : forall p s,
  forallb (fun c => negb (cmatch true (CLit "A") c)) pre = true ->
  search_from true aed_prefixed p (pre ++ "T"%char :: s) =
  search_from true aed_prefixed (after p pre) ("T"%char :: s).
Proof.
  induction pre as [|x pre IH]; intros p s H; [reflexivity|].
  cbn [forallb] in H. apply andb_true_iff in H as [Hx Hpre].
  apply negb_true_iff in Hx.
  cbn [app search_from]. rewrite (aed_needs_A _ _ _ Hx).
  apply IH. assumption.
Qed.

(** At the letters AED of the total line the pattern matches, and its group
    is 123.40 when no digit follows. *)
Lemma aed_match p tl :
  match tl with x :: _ => is_digit x = false | [] => True end ->
  match_here true aed_prefixed p
    (list_ascii_of_string "AED 123.40" ++ tl) =
  Some (MState (Some "0"%char) tl [(1, amount_text)]).
Proof.
  intros Htl. unfold match_here, aed_prefixed, amount.
  cbn [seqs foldr lit lit_chars list_ascii_of_string mre rest prev caps app
       star plus opt].
  change (cmatch true (CLit "A") "A") with true.
  change (cmatch true (CLit "E") "E") with true.
  change (cmatch true (CLit "D") "D") with true.
  cbv iota. cbn [rest prev caps].
  (* the blank *)
  apply (rep_run true CSpace [" "%char]); [reflexivity|reflexivity|cbn; lia|].
  cbn [after rest prev caps].
  (* 123 *)
  apply (rep_run true (COr CDigit (CLit ",")) (list_ascii_of_string "123"));
    [reflexivity|reflexivity|cbn; lia|].
  cbn [after list_ascii_of_string rest prev caps].
  (* the dot *)
  apply rep_opt_taken; [reflexivity|].
  cbn [rest prev caps].
  (* 40 *)
  apply (rep_run true CDigit (list_ascii_of_string "40"));
    [reflexivity|exact Htl|cbn; lia|].
  cbn [after list_ascii_of_string rest prev caps set_cap].
  change ("1"%char :: "2"%char :: "3"%char :: "."%char :: "4"%char :: "0"%char :: tl)
    with (amount_text ++ tl).
  rewrite (take_consumed amount_text tl). reflexivity.
Qed.

Lemma aed_search pre tl p :
  forallb (fun c => negb (cmatch true (CLit "A") c)) pre = true ->
  match tl with x :: _ => is_digit x = false | [] => True end ->
  search_from true aed_prefixed p
    (pre ++ list_ascii_of_string "TOTAL: AED 123.40" ++ tl) =
  Some (MState (Some "0"%char) tl [(1, amount_text)]).
Proof.
  intros Hpre Htl. cbn [list_ascii_of_string app].
  rewrite aed_search_skip by assumption.
  cbn [search_from].
  rewrite (aed_needs_A _ "T"%char) by reflexivity.
  rewrite (aed_needs_A _ "O"%char) by reflexivity.
  rewrite (aed_needs_A _ "T"%char) by reflexivity.
  rewrite (aed_needs_E _ "A"%char "L"%char) by reflexivity.
  rewrite (aed_needs_A _ "L"%char) by reflexivity.
  rewrite (aed_needs_A _ ":"%char) by reflexivity.
  rewrite (aed_needs_A _ " "%char) by reflexivity.
  rewrite (aed_match _ tl Htl). reflexivity.
Qed.

(** The total line gives 123.40 whatever comes before it, short of a letter
    A, and whatever comes after it, short of one more digit. *)
Lemma total_line_accepted pre post :
  no_letter_a pre -> no_leading_digit post ->
  accepts aed_prefixed (pre ++ "TOTAL: AED 123.40" ++ post) = Some "123.40".
Proof.
  intros Hpre Hpost. unfold accepts, search.
  rewrite !list_ascii_app, aed_search.
  - reflexivity.
  - exact Hpre.
  - destruct post; [exact I|exact Hpost].
Qed.

(** ** A range needs two times *)

Lemma lit2_shape ic a b st st' :
  is_digit a = false -> is_digit b = false ->
  matches ic (lit_chars [a; b]) st st' ->
  exists t, rest st = t ++ rest st' /\
            forallb (fun c => negb (is_digit c)) t = true.
Proof.
  intros Ha Hb. cbn [lit_chars matches].
  intros (m1 & (x & E1 & C1 & _ & _) & m2 & (y & E2 & C2 & _ & _) & ->).
  exists [x; y]. rewrite E1, E2. split; [reflexivity|].
  cbn [forallb]. rewrite (lit_not_digit _ _ _ Ha C1), (lit_not_digit _ _ _ Hb C2).
  reflexivity.
Qed.

(** What a time takes: the digits, then blanks and letters. *)
Lemma a_time_shape ic st st' :
  matches ic a_time st st' ->
  exists D DD trail,
    rest st = D ++ ":"%char :: DD ++ trail ++ rest st' /\
    forallb is_digit D = true /\ 1 <= length D <= 2 /\
    forallb is_digit DD = true /\ length DD = 2 /\
    forallb (fun c => negb (is_digit c)) trail = true.
Proof.
  unfold a_time, d12, d2, star, opt_re, lit.
  cbn [seqs foldr list_ascii_of_string].
  cbn [matches].
  intros (m1 & (w1 & E1 & F1 & L1 & H1 & _ & _) &
          m2 & (x & E2 & C2 & _ & _) &
          m3 & (w3 & E3 & F3 & L3 & H3 & _ & _) &
          m4 & (w4 & E4 & F4 & _ & _ & _ & _) &
          m5 & Hopt & ->).
  rewrite cmatch_colon in C2. apply Ascii.eqb_eq in C2. subst x.
  assert (Ht : exists t, rest m4 = t ++ rest m5 /\
                 forallb (fun c => negb (is_digit c)) t = true).
  { destruct Hopt as [[H|[H|[H|H]]]| ->];
      [eapply lit2_shape; [| |exact H]; reflexivity ..|].
    exists []. split; reflexivity. }
  destruct Ht as (t & E5 & F5).
  exists w1, w3, (w4 ++ t). rewrite E1, E2, E3, E4, E5.
  repeat split; auto.
  - rewrite <- !app_assoc. reflexivity.
  - specialize (H3 2 eq_refl). lia.
  - rewrite forallb_app, F5, andb_true_r.
    revert F4. apply forallb_weaken. intros c Hc.
    cbn [cmatch] in Hc. rewrite (space_not_digit _ Hc). reflexivity.
Qed.

(** Where a text starts with the digits of a time, the time pattern
    matches. *)
Lemma core_matches p s :
  core_start s -> is_Some (match_here false time_pattern p s).
Proof.
  intros (D & DD & tl & -> & FD & LD & FDD & LDD).
  apply (match_here_complete false time_pattern p _
           (set_cap 1 (D ++ ":"%char :: DD)
              (MState (after (Some ":"%char) DD) tl []))).
  unfold time_pattern, a_time, d12, d2, star, opt_re.
  cbn [seqs foldr matches rest prev caps].
  exists (MState (after (Some ":"%char) DD) tl []). split.
  - exists (MState (after p D) (":"%char :: DD ++ tl) []). split.
    { exists D. cbn [rest prev caps]. repeat split; auto; try lia.
      intros h [= <-]. lia. }
    exists (MState (Some ":"%char) (DD ++ tl) []). split.
    { exists ":"%char. cbn [rest prev caps]. repeat split; auto. }
    exists (MState (after (Some ":"%char) DD) tl []). split.
    { exists DD. cbn [rest prev caps]. repeat split; auto; try lia.
      intros h [= <-]. lia. }
    exists (MState (after (Some ":"%char) DD) tl []). split.
    { exists []. cbn [rest prev caps after]. repeat split; auto.
      intros h H. discriminate H. }
    exists (MState (after (Some ":"%char) DD) tl []). split; [|reflexivity].
    right. reflexivity.
  - cbn [rest]. f_equal.
    replace (D ++ ":"%char :: DD ++ tl) with ((D ++ ":"%char :: DD) ++ tl)
      by (rewrite <- app_assoc; reflexivity).
    rewrite take_consumed. reflexivity.
Qed.

Lemma core_start_digit s :
  core_start s -> exists x, s !! 0 = Some x /\ is_digit x = true.
Proof.
  intros (D & DD & tl & -> & FD & LD & _).
  destruct D as [|x D]; [cbn in LD; lia|].
  exists x. split; [reflexivity|].
  cbn [forallb] in FD. apply andb_true_iff in FD as [Hx _]. assumption.
Qed.

Lemma core_start_nil n : ~ core_start (drop n []).
Proof.
  rewrite drop_nil. intros (D & DD & tl & E & _).
  symmetry in E. apply app_eq_nil in E as [_ E]. discriminate E.
Qed.

(** What a match of the time pattern takes. *)
Lemma time_match_shape ic p s m :
  match_here ic time_pattern p s = Some m ->
  exists D DD trail,
    s = D ++ ":"%char :: DD ++ trail ++ rest m /\
    length D <= 2 /\ length DD = 2 /\
    forallb (fun c => negb (is_digit c)) trail = true.
Proof.
  intros H. apply match_here_sound in H. unfold time_pattern in H.
  cbn [matches] in H. destruct H as (mid & H & ->).
  apply a_time_shape in H as (D & DD & trail & E & _ & LD & _ & LDD & Ft).
  exists D, DD, trail. cbn [rest set_cap] in *. repeat split; auto. lia.
Qed.

(** Past its first five characters a match of the time pattern holds no
    digit. *)
Lemma time_match_tail D DD trail r k :
  length D <= 2 -> length DD = 2 ->
  forallb (fun c => negb (is_digit c)) trail = true ->
  5 <= k -> k < length (D ++ ":"%char :: DD ++ trail) ->
  exists x, (D ++ ":"%char :: DD ++ trail ++ r) !! k = Some x /\
            is_digit x = false.
Proof.
  intros LD LDD Ft Hk Hlt.
  replace (D ++ ":"%char :: DD ++ trail ++ r)
    with ((D ++ ":"%char :: DD) ++ trail ++ r)
    by (rewrite <- app_assoc; reflexivity).
  replace (D ++ ":"%char :: DD ++ trail)
    with ((D ++ ":"%char :: DD) ++ trail) in Hlt
    by (rewrite <- app_assoc; reflexivity).
  rewrite length_app in Hlt.
  assert (Hc : length (D ++ ":"%char :: DD) <= 5)
    by (rewrite length_app; cbn [length]; lia).
  rewrite lookup_app_r by lia.
  rewrite lookup_app_l by lia.
  destruct (lookup_lt_is_Some_2 trail (k - length (D ++ ":"%char :: DD)))
    as [x Hx]; [lia|].
  exists x. split; [assumption|].
  apply list_elem_of_lookup_2, list_elem_of_In in Hx.
  rewrite forallb_forall in Ft. apply negb_true_iff. auto.
Qed.

(** [re.findall] finds a time when one starts further on. *)
Lemma findall_time_nonempty s : forall p skip n,
  skip <= n -> core_start (drop n s) ->
  findall_from false time_pattern p s skip <> [].
Proof.
  induction s as [|c s IH]; intros p skip n Hle Hc.
  - destruct (core_start_nil _ Hc).
  - cbn [findall_from]. destruct skip as [|k].
    + destruct (match_here false time_pattern p (c :: s)) eqn:Hm;
        [discriminate|].
      destruct n as [|n].
      * cbn [drop] in Hc. destruct (core_matches p _ Hc) as [m Hm'].
        congruence.
      * apply (IH _ 0 n); [lia|exact Hc].
    + destruct n as [|n]; [lia|]. apply (IH _ k n); [lia|exact Hc].
Qed.

(** It finds two when two start at least five characters apart. *)
Lemma findall_two_times s : forall p i k,
  core_start (drop i s) -> core_start (drop k s) -> i + 5 <= k ->
  2 <= length (findall_from false time_pattern p s 0).
Proof.
  induction s as [|c s IH]; intros p i k Hi Hk Hik.
  - destruct (core_start_nil _ Hi).
  - cbn [findall_from].
    destruct (match_here false time_pattern p (c :: s)) as [m|] eqn:Hm.
    + set (later := findall_from false time_pattern (Some c) s
                      (length (c :: s) - length (rest m) - 1)).
      destruct (time_match_shape _ _ _ _ Hm)
        as (D & DD & trail & E & LD & LDD & Ft).
      assert (Htaken : length (D ++ ":"%char :: DD ++ trail) <= k).
      { destruct (le_lt_dec (length (D ++ ":"%char :: DD ++ trail)) k)
          as [|Hlt]; [assumption|].
        destruct (time_match_tail D DD trail (rest m) k LD LDD Ft)
          as (x & Hx & Hnd); [lia|assumption|].
        destruct (core_start_digit _ Hk) as (y & Hy & Hd).
        rewrite lookup_drop, Nat.add_0_r, E, Hx in Hy. congruence. }
      assert (Hlen : length (c :: s) =
                     length (D ++ ":"%char :: DD ++ trail) + length (rest m)).
      { rewrite E at 1. rewrite !length_app. cbn [length].
        rewrite !length_app. lia. }
      destruct k as [|k]; [lia|].
      pose proof (findall_time_nonempty s (Some c)
                    (length (c :: s) - length (rest m) - 1) k) as Hne.
      fold later in Hne. destruct later.
      * exfalso. apply Hne; [lia|exact Hk|reflexivity].
      * cbn [length]. lia.
    + destruct i as [|i].
      * cbn [drop] in Hi. destruct (core_matches p _ Hi) as [m Hm'].
        congruence.
      * destruct k as [|k]; [lia|]. apply (IH _ i k); [exact Hi|exact Hk|lia].
Qed.

(** What a match of the range pattern takes: two times, apart. *)
Lemma range_shape ic st st' :
  matches ic time_range_pattern st st' ->
  exists g, 5 <= g /\ core_start (rest st) /\ core_start (drop g (rest st)).
Proof.
  unfold time_range_pattern, star, plus.
  cbn [seqs foldr]. cbn [matches].
  intros (m1 & (mid1 & T1 & ->) &
          m2 & (w2 & E2 & _) &
          m3 & (w3 & E3 & _ & L3 & _) &
          m4 & (w4 & E4 & _) &
          m5 & (mid2 & T2 & ->) & ->).
  apply a_time_shape in T1 as (D1 & DD1 & t1 & E1 & F1 & L1 & FF1 & LL1 & _).
  apply a_time_shape in T2 as (D2 & DD2 & t2 & E5 & F2 & L2 & FF2 & LL2 & _).
  cbn [rest set_cap] in *.
  exists (length (D1 ++ ":"%char :: DD1 ++ t1 ++ w2 ++ w3 ++ w4)).
  split; [|split].
  - rewrite !length_app. cbn [length]. rewrite !length_app. lia.
  - exists D1, DD1, (t1 ++ rest mid1). repeat split; auto; lia.
  - exists D2, DD2, (t2 ++ rest mid2). repeat split; auto; try lia.
    rewrite E1, E2, E3, E4, E5.
    replace (D1 ++ ":"%char :: DD1 ++ t1 ++ w2 ++ w3 ++ w4 ++
             D2 ++ ":"%char :: DD2 ++ t2 ++ rest mid2)
      with ((D1 ++ ":"%char :: DD1 ++ t1 ++ w2 ++ w3 ++ w4) ++
            D2 ++ ":"%char :: DD2 ++ t2 ++ rest mid2).
    + apply drop_app_length.
    + rewrite <- !app_assoc. cbn [app]. rewrite <- !app_assoc. reflexivity.
Qed.

(** When the range pattern matches, [re.findall] finds two times or more. *)
Lemma range_needs_two_times lines m :
  search time_range_pattern true lines = Some m ->
  2 <= length (findall time_pattern false lines).
Proof.
  unfold search, findall. intros H. rewrite length_map.
  apply search_from_leftmost in H as (n & H & _).
  apply match_here_sound, range_shape in H as (g & Hg & H1 & H2).
  cbn [rest] in H1, H2. rewrite drop_drop in H2.
  apply (findall_two_times _ None n (n + g)); auto. lia.
Qed.

(** ** The claims about [parse_fields] *)

(** C1.  For every input string, empty or malformed as it may be,
    [parse_fields] returns a record with the four fields [date],
    [start_time], [end_time], [total], each a string or absent: it raises
    nothing.  Each field of the result is the reading of that field on its
    own ([date_of], [times_of], [total_of]), so that what one field finds,
    or fails to find, has no bearing on the others. *)
Theorem parse_fields_never_raises (lines : string) :
  exists f : fields,
    parse_fields lines = inr f /\
    date f = date_of lines /\
    (start_time f, end_time f) = times_of lines /\
    total f = total_of lines.
Proof.
  eexists. split; [apply parse_fields_eq|]. simpl.
  destruct (times_of lines). auto.
Qed.

(** C7.  The four date patterns are tried in their fixed order; the date is
    the group of the first pattern, in that order, that matches anywhere in
    the text, at the leftmost position where that pattern matches; when no
    pattern matches the date is absent.  The text found is kept as it is,
    real calendar date or not.  A text with both 2024-09-24 and
    24 September 2024 gives 2024-09-24. *)
Theorem date_cascade_priority :
  (forall lines i p m,
     date_patterns !! i = Some p ->
     search p true lines = Some m ->
     (forall j q, j < i -> date_patterns !! j = Some q ->
                  search q true lines = None) ->
     exists f, parse_fields lines = inr f /\ date f = group m 1 /\
       is_Some (date f) /\
       exists n, match_at p true lines n = Some m /\
                 forall k, k < n -> match_at p true lines k = None) /\
  (forall lines,
     (forall q, In q date_patterns -> search q true lines = None) ->
     exists f, parse_fields lines = inr f /\ date f = None) /\
  length date_patterns = 4 /\
  (exists f, parse_fields ("Invoice 2024-09-24" ++ newline ++
                           "Delivered 24 September 2024") = inr f /\
             date f = Some "2024-09-24") /\
  (exists f, parse_fields ("24 September 2024, ref 2024-09-24") = inr f /\
             date f = Some "2024-09-24") /\
  (exists f, parse_fields "Date: 99/99/9999" = inr f /\
             date f = Some "99/99/9999").
Proof.
  split; [|split; [|split; [reflexivity|]]].
  - intros lines i p m Hp Hm Hprev.
    eexists. split; [apply parse_fields_eq|]. simpl.
    assert (Hd : date_of lines = group m 1)
      by (eapply date_loop_first; eauto).
    rewrite Hd. split; [reflexivity|]. split.
    + apply (search_defines p true lines); [|assumption].
      apply list_elem_of_lookup_2, list_elem_of_In in Hp.
      unfold date_patterns in Hp. simpl in Hp.
      destruct Hp as [<-|[<-|[<-|[<-|[]]]]]; reflexivity.
    + apply search_leftmost. assumption.
  - intros lines Hn. eexists. split; [apply parse_fields_eq|]. simpl.
    unfold date_of. rewrite date_loop_none by assumption. reflexivity.
  - repeat split; eexists; (split; [vm_compute; reflexivity|reflexivity]).
Qed.

Lemma date_cascade_priority_witness :
  exists f, parse_fields "Paid 2024-09-24, 24 September 2024" = inr f /\
            date f = Some "2024-09-24".
Proof.
  edestruct (proj1 date_cascade_priority
               "Paid 2024-09-24, 24 September 2024" 1)
    as (f & Hf & Hd & _).
  - reflexivity.
  - vm_compute. reflexivity.
  - intros [|j] q Hj Hq; [|lia]. injection Hq as <-. vm_compute. reflexivity.
  - exists f. split; [exact Hf|]. rewrite Hd. vm_compute. reflexivity.
Defined.

(** Times, as the code pairs them.  With two matches or more of the time
    pattern, the first is the start and the second the end (later matches
    are dropped); with exactly one match it is the start and the end stays
    absent; and when the range pattern of the code matches as well, which
    takes two matches at least, its two groups replace what this pairing
    gave.  "Opened 9:00 AM to 5:00 PM, last sale 9:15 AM" gives 9:00 AM and
    5:00 PM. *)
Theorem time_extraction :
  (forall lines a b l,
     findall time_pattern false lines = a :: b :: l ->
     search time_range_pattern true lines = None ->
     exists f, parse_fields lines = inr f /\
       start_time f = Some a /\ end_time f = Some b) /\
  (forall lines a,
     findall time_pattern false lines = [a] ->
     exists f, parse_fields lines = inr f /\
       start_time f = Some a /\ end_time f = None) /\
  (forall lines,
     findall time_pattern false lines = [] ->
     exists f, parse_fields lines = inr f /\
       start_time f = None /\ end_time f = None) /\
  (forall lines range_match,
     search time_range_pattern true lines = Some range_match ->
     2 <= length (findall time_pattern false lines) /\
     exists f t1 t2, parse_fields lines = inr f /\
       group range_match 1 = Some t1 /\ group range_match 2 = Some t2 /\
       start_time f = Some t1 /\ end_time f = Some t2) /\
  (exists f,
     parse_fields "Opened 9:00 AM to 5:00 PM, last sale 9:15 AM" = inr f /\
     start_time f = Some "9:00 AM" /\ end_time f = Some "5:00 PM") /\
  (exists f, parse_fields "in 9:15 out 9:45 back 11:00" = inr f /\
     start_time f = Some "9:15 " /\ end_time f = Some "9:45 ") /\
  (exists f, parse_fields "call 10:30" = inr f /\
     start_time f = Some "10:30" /\ end_time f = None).
Proof.
  assert (Hnone : forall lines,
            length (findall time_pattern false lines) < 2 ->
            search time_range_pattern true lines = None).
  { intros lines Hlen.
    destruct (search time_range_pattern true lines) as [m|] eqn:Hs;
      [|reflexivity].
    apply range_needs_two_times in Hs. lia. }
  split; [|split; [|split; [|split]]].
  - intros lines a b l H Hr. eexists. split; [apply parse_fields_eq|]. simpl.
    unfold times_of, generic_pairing. rewrite Hr, H. auto.
  - intros lines a H. eexists. split; [apply parse_fields_eq|]. simpl.
    unfold times_of, generic_pairing.
    rewrite Hnone by (rewrite H; cbn; lia). rewrite H. auto.
  - intros lines H. eexists. split; [apply parse_fields_eq|]. simpl.
    unfold times_of, generic_pairing.
    rewrite Hnone by (rewrite H; cbn; lia). rewrite H. auto.
  - intros lines m H. split; [eapply range_needs_two_times; eassumption|].
    destruct (search_defines time_range_pattern true lines m 1 eq_refl H)
      as [t1 H1].
    destruct (search_defines time_range_pattern true lines m 2 eq_refl H)
      as [t2 H2].
    eexists; exists t1, t2. split; [apply parse_fields_eq|]. simpl.
    unfold times_of. rewrite H, H1, H2. auto.
  - repeat split; eexists;
      (split; [vm_compute; reflexivity|split; reflexivity]).
Qed.

Lemma time_extraction_witness :
  (exists f, parse_fields "in 9:15 out 9:45 back 11:00" = inr f /\
     start_time f = Some "9:15 " /\ end_time f = Some "9:45 ") /\
  (exists f, parse_fields "call 10:30" = inr f /\
     start_time f = Some "10:30" /\ end_time f = None) /\
  (exists f, parse_fields "no time here" = inr f /\
     start_time f = None /\ end_time f = None) /\
  (exists f, parse_fields "Open 9:00 - 17:30" = inr f /\
     start_time f = Some "9:00 " /\ end_time f = Some "17:30").
Proof.
  destruct time_extraction as (H2 & H1 & H0 & Hr & _).
  split; [|split; [|split]].
  - apply (H2 _ _ _ ["11:00"]); vm_compute; reflexivity.
  - apply H1. vm_compute. reflexivity.
  - apply H0. vm_compute. reflexivity.
  - edestruct (Hr "Open 9:00 - 17:30")
      as (_ & f & t1 & t2 & Hf & G1 & G2 & S1 & S2).
    + vm_compute. reflexivity.
    + exists f. split; [exact Hf|]. rewrite S1, S2, <- G1, <- G2.
      split; vm_compute; reflexivity.
Defined.

(** C6, on the code.  Between the two times of a range the code has the
    bracket expression "[-to]+", one or more of the characters dash, t and
    o in either case, where a dash or the word to is meant.
    In "7:00 9:00 T 5:00" no two times are joined by a dash or by the word
    to, and the first two times are 7:00 and 9:00; [parse_fields] takes
    "9:00 T 5:00" for a range and gives 9:00 and 5:00.
    In "7:00 t 8:00 and 9:00 to 5:00" the range is 9:00 to 5:00;
    [parse_fields] takes "7:00 t 8:00", which comes first, and gives 7:00
    and 8:00. *)
Theorem time_range_slip :
  findall time_pattern false "7:00 9:00 T 5:00" = ["7:00 "; "9:00 "; "5:00"] /\
  search worded_time_range_pattern true "7:00 9:00 T 5:00" = None /\
  (exists f, parse_fields "7:00 9:00 T 5:00" = inr f /\
     start_time f = Some "9:00 " /\ end_time f = Some "5:00") /\
  (exists m,
     search worded_time_range_pattern true "7:00 t 8:00 and 9:00 to 5:00"
       = Some m /\
     group m 1 = Some "9:00 " /\ group m 2 = Some "5:00") /\
  (exists f, parse_fields "7:00 t 8:00 and 9:00 to 5:00" = inr f /\
     start_time f = Some "7:00 " /\ end_time f = Some "8:00 ").
Proof.
  split; [vm_compute; reflexivity|].
  split; [vm_compute; reflexivity|].
  split; [eexists; split; [vm_compute; reflexivity|split; reflexivity]|].
  split.
  - eexists. split; [vm_compute; reflexivity|]. split; vm_compute; reflexivity.
  - eexists. split; [vm_compute; reflexivity|split; reflexivity].
Qed.

(** C5.  The seven total patterns are tried in their fixed order.  A
    pattern succeeds when the string it captures, commas removed, is a
    float literal ([accepts]); a capture that is not one counts as no
    match.  The total is what the first successful pattern gives.
    "TOTAL: AED 123.40" gives 123.40 whatever else the text holds before
    that line, short of a letter A, and after it, short of one more digit:
    a bare 500 elsewhere in the text changes nothing. *)
Theorem total_cascade_priority :
  (forall lines i p t,
     total_patterns !! i = Some p ->
     accepts p lines = Some t ->
     (forall j q, j < i -> total_patterns !! j = Some q ->
                  accepts q lines = None) ->
     exists f, parse_fields lines = inr f /\ total f = Some t) /\
  (forall p lines t,
     accepts p lines = Some t <->
     exists m s, search p true lines = Some m /\ group m 1 = Some s /\
                 t = remove_commas s /\ exists x, py_float t = inr x) /\
  length total_patterns = 7 /\
  (forall pre post,
     no_letter_a pre -> no_leading_digit post ->
     exists f, parse_fields (pre ++ "TOTAL: AED 123.40" ++ post) = inr f /\
               total f = Some "123.40") /\
  (exists f, parse_fields ("TOTAL: AED 123.40" ++ newline ++ "500") = inr f /\
             total f = Some "123.40") /\
  (exists f, parse_fields ("500" ++ newline ++ "TOTAL: AED 123.40") = inr f /\
             total f = Some "123.40") /\
  (exists f, parse_fields "Items 500 TOTAL: AED 1,123.40 thanks" = inr f /\
             total f = Some "1123.40") /\
  (exists m, search (seqs [lit "AED"; star CSpace; amount]) true
                    "AED , TOTAL: 5" = Some m /\
             group m 1 = Some "," /\
             exists f, parse_fields "AED , TOTAL: 5" = inr f /\
                       total f = Some "5").
Proof.
  split; [|split; [|split; [reflexivity|]]].
  - intros lines i p t Hp Ha Hprev.
    eexists. split; [apply parse_fields_eq|]. simpl. unfold total_of.
    rewrite (first_accepted_first _ _ i p t Hp Ha Hprev). reflexivity.
  - intros p lines t. unfold accepts. split.
    + destruct (search p true lines) as [m|]; [|discriminate].
      destruct (group m 1) as [s|] eqn:Hg; [|discriminate].
      destruct (py_float (remove_commas s)) as [e|x] eqn:Hf; [discriminate|].
      intros [= <-]. exists m, s. eauto.
    + intros (m & s & -> & -> & -> & x & ->). reflexivity.
  - split.
    { intros pre post Hpre Hpost.
      eexists. split; [apply parse_fields_eq|]. simpl. unfold total_of.
      rewrite (first_accepted_first total_patterns _ 0 aed_prefixed "123.40"
                 eq_refl (total_line_accepted pre post Hpre Hpost));
        [reflexivity|]. intros j q Hj. lia. }
    repeat split; try (eexists; split; [vm_compute; reflexivity|reflexivity]).
    eexists. split; [vm_compute; reflexivity|]. split; [reflexivity|].
    eexists; split; [vm_compute; reflexivity|reflexivity].
Qed.

Lemma total_cascade_priority_witness :
  (exists f, parse_fields "AED , TOTAL: 5" = inr f /\ total f = Some "5") /\
  (exists f, parse_fields ("500 items" ++ newline ++ "TOTAL: AED 123.40" ++
                           newline ++ "500") = inr f /\
             total f = Some "123.40").
Proof.
  split.
  - apply (proj1 total_cascade_priority "AED , TOTAL: 5" 3
             (seqs [lit "TOTAL"; plus colon_space; amount])).
    + reflexivity.
    + vm_compute. reflexivity.
    + intros [|[|[|j]]] q Hj Hq; try lia; injection Hq as <-;
        vm_compute; reflexivity.
  - apply (proj1 (proj2 (proj2 (proj2 total_cascade_priority)))
             ("500 items" ++ newline)%string (newline ++ "500")%string).
    + vm_compute. reflexivity.
    + vm_compute. reflexivity.
Defined.

(** C3, as the code has it.  When no pattern of the cascade succeeds, the
    total is the string form [str(x)] of the largest positive float [x]
    among the price tokens of the text (every token is a float literal),
    and stays absent when there is no positive token.  The string is the
    float's, not the token's: "4.50 3.25 1.00" gives "4.5". *)
Theorem total_fallback_largest :
  (forall lines,
     (forall q, In q total_patterns -> accepts q lines = None) ->
     exists f, parse_fields lines = inr f /\
       ((price_values lines = [] /\ total f = None) \/
        (exists mx, In mx (price_values lines) /\
           (forall y, In y (price_values lines) -> ltb mx y = false) /\
           total f = Some (py_str mx)))) /\
  (forall lines s, In s (findall price_pattern false lines) ->
     exists x, py_float s = inr x) /\
  (exists f, parse_fields "4.50 3.25 1.00" = inr f /\ total f = Some "4.5") /\
  (exists f, parse_fields "no numbers at all" = inr f /\ total f = None) /\
  (exists f, parse_fields "qty 0 0.00" = inr f /\ total f = None).
Proof.
  split; [|split; [exact findall_price_valid|]].
  - intros lines Hn. eexists. split; [apply parse_fields_eq|]. simpl.
    unfold total_of, fallback_total.
    rewrite (first_accepted_none _ _ Hn).
    destruct (price_values lines) as [|a l]; [left; auto|right].
    exists (fold_left bigger l a).
    destruct (fold_bigger_spec l a) as [Hin Hmax]. auto.
  - repeat split; eexists; (split; [vm_compute; reflexivity|reflexivity]).
Qed.

Lemma total_patterns_all (P : regex -> Prop) :
  Forall P total_patterns -> forall q, In q total_patterns -> P q.
Proof. intros H q Hq. rewrite List.Forall_forall in H. auto. Qed.

Lemma total_fallback_largest_witness :
  exists f, parse_fields "4.50 3.25 1.00" = inr f /\
    exists mx, In mx (price_values "4.50 3.25 1.00") /\
               total f = Some (py_str mx).
Proof.
  destruct (proj1 total_fallback_largest "4.50 3.25 1.00")
    as (f & Hf & [[He _]|(mx & Hin & _ & Ht)]).
  - apply total_patterns_all. repeat constructor.
  - vm_compute in He. discriminate He.
  - exists f. split; [exact Hf|]. exists mx. split; assumption.
Defined.

(** C3, as the claim words it, fails: the fallback does not give "4.50"
    for "4.50 3.25 1.00". *)
Lemma total_fallback_not_token_text :
  ~ (exists f, parse_fields "4.50 3.25 1.00" = inr f /\
               total f = Some "4.50").
Proof.
  intros (f & Hf & Ht). vm_compute in Hf. injection Hf as <-.
  discriminate Ht.
Qed.

End TextractHandlerFacts.

(* ===================================================================== *)
(** * Properties of [extract_data_from_json]                              *)
(* ===================================================================== *)

Module CsvGeneratorFacts.
Import CsvGenerator.
Local Open Scope list_scope.

Lemma summary_step_items ex field : items (summary_step ex field) = items ex.
Proof.
  unfold summary_step.
  repeat match goal with |- context [if ?b then _ else _] => destruct b end;
    reflexivity.
Qed.

Lemma summary_fold_items fields_ : forall ex,
  items (foldl summary_step ex fields_) = items ex.
Proof.
  induction fields_ as [|f l IH]; intros ex; simpl; [reflexivity|].
  rewrite IH. apply summary_step_items.
Qed.

Lemma line_item_step_items ex li :
  items (line_item_step ex li) =
  items ex ++ (if kept li then [as_item li] else []).
Proof.
  unfold line_item_step, kept, as_item. destruct (scan li) as [n p]. simpl.
  destruct (nonempty n || nonempty p); simpl; [reflexivity|].
  rewrite app_nil_r. reflexivity.
Qed.

Lemma line_items_fold_items l : forall ex,
  items (foldl line_item_step ex l) =
  items ex ++ map as_item (List.filter kept l).
Proof.
  induction l as [|li l IH]; intros ex; simpl.
  - rewrite app_nil_r. reflexivity.
  - rewrite IH, line_item_step_items.
    destruct (kept li); simpl; rewrite <- app_assoc; reflexivity.
Qed.

Lemma filter_flat_map {A B} (p : B -> bool) (f : A -> list B) (l : list A) :
  List.filter p (flat_map f l) = flat_map (fun a => List.filter p (f a)) l.
Proof.
  induction l as [|a l IH]; simpl; [reflexivity|].
  rewrite List.filter_app, IH. reflexivity.
Qed.

Lemma groups_fold_items gs : forall ex,
  items (foldl group_step ex gs) =
  items ex ++ map as_item (List.filter kept (flat_map group_line_items gs)).
Proof.
  induction gs as [|g gs IH]; intros ex; simpl.
  - rewrite app_nil_r. reflexivity.
  - rewrite IH. unfold group_step. rewrite line_items_fold_items.
    rewrite List.filter_app, map_app, app_assoc. reflexivity.
Qed.

Lemma documents_fold_items docs : forall ex,
  items (foldl document_step ex docs) =
  items ex ++ map as_item (List.filter kept (flat_map document_line_items docs)).
Proof.
  induction docs as [|d docs IH]; intros ex; simpl.
  - rewrite app_nil_r. reflexivity.
  - rewrite IH. unfold document_step.
    rewrite groups_fold_items, summary_fold_items.
    rewrite List.filter_app, map_app, app_assoc. reflexivity.
Qed.

Lemma nonempty_false s : nonempty s = false <-> s = "".
Proof.
  unfold nonempty. rewrite negb_false_iff. apply String.eqb_eq.
Qed.

(** C8.  The items of the flat record are the line items, in the order of
    the response, of which the scan of the ITEM and PRICE fields gives a
    name or a price that is not empty; so their number is the number of
    those line items.  A line item whose name and price are both empty after
    the scan of all its fields is left out.  Of three items, one with both
    fields empty, two are kept. *)
Theorem flattened_item_count :
  (forall name now data,
     length (items (extract_data_from_json name now data)) =
     length (List.filter kept (all_line_items data))) /\
  (forall name now data,
     items (extract_data_from_json name now data) =
     map as_item (List.filter kept (all_line_items data))) /\
  (forall li, kept li = false <-> fst (scan li) = "" /\ snd (scan li) = "") /\
  length (all_line_items three_items) = 3 /\
  items (extract_data_from_json "r1" "2024-01-15T10:30:00" three_items) =
    [Item "Coffee" "3.50"; Item "" "2.50"].
Proof.
  assert (H : forall name now data,
     items (extract_data_from_json name now data) =
     map as_item (List.filter kept (all_line_items data))).
  { intros. unfold extract_data_from_json, all_line_items.
    rewrite documents_fold_items. reflexivity. }
  split; [|split; [exact H|split; [|split; reflexivity]]].
  - intros. rewrite H, length_map. reflexivity.
  - intros li. unfold kept. rewrite orb_false_iff, !nonempty_false.
    reflexivity.
Qed.

Lemma flattened_item_count_witness :
  kept (LineItem (Some [field_of "ITEM" ""; field_of "PRICE" ""])) = false /\
  length (items (extract_data_from_json "r1" "2024-01-15T10:30:00" three_items)) = 2.
Proof.
  destruct flattened_item_count as (Hlen & _ & Hkept & _).
  split.
  - apply Hkept. split; reflexivity.
  - rewrite Hlen. reflexivity.
Defined.

End CsvGeneratorFacts.

(* ===================================================================== *)
(** * The csv reader reads back what the csv writer wrote                 *)
(* ===================================================================== *)

Module CsvFacts.
Import Csv.
Local Open Scope list_scope.

Local Abbreviation str := string_of_list_ascii.

(** ** Lines, and the text character by character *)

Lemma feed_app r a b :
  feed r (a ++ b) =
  match feed r a with
  | inl err => inl err
  | inr r' => feed r' b
  end.
Proof.
  revert r. induction a as [|e a IH]; intros r; simpl; [reflexivity|].
  destruct (process r e); [reflexivity|apply IH].
Qed.

Lemma emit_ext r f g : (forall r', f r' = g r') -> emit r f = emit r g.
Proof. intros H. unfold emit. rewrite !H. reflexivity. Qed.

Lemma reader_rows_stream text : forall cur r,
  reader_rows (split_lines cur text) r =
  match feed r (map Ch cur) with
  | inl err => inl err
  | inr r' => stream text r' (has_chars cur)
  end.
Proof.
  induction text as [|c t IH]; intros cur r.
  - destruct cur as [|x cur]; [reflexivity|].
    cbn [split_lines reader_rows]. rewrite feed_app.
    destruct (feed r (map Ch (x :: cur))) as [err|r1]; [reflexivity|].
    cbn [has_chars stream feed].
    destruct (process r1 EOL); reflexivity.
  - cbn [split_lines]. destruct (is_lf c) eqn:Hc.
    + cbn [reader_rows]. rewrite map_app, !feed_app.
      destruct (feed r (map Ch cur)) as [err|r1]; [reflexivity|].
      cbn [map feed stream]. rewrite Hc.
      destruct (process r1 (Ch c)) as [err|r1']; [reflexivity|].
      destruct (process r1' EOL) as [err|r2]; [reflexivity|].
      apply emit_ext. intros r'. rewrite IH. reflexivity.
    + rewrite IH, map_app, feed_app.
      destruct (feed r (map Ch cur)) as [err|r1]; [reflexivity|].
      cbn [map feed stream]. rewrite Hc.
      destruct (process r1 (Ch c)) as [err|r1']; [reflexivity|].
      destruct cur; reflexivity.
Qed.

(** Before a character the flag does not matter. *)
Lemma stream_cons_pending c t r p p' :
  stream (c :: t) r p = stream (c :: t) r p'.
Proof. reflexivity. Qed.

(** ** Characters *)

Lemma special_false c :
  special c = false ->
  is_comma c = false /\ is_dquote c = false /\ is_cr c = false /\ is_lf c = false.
Proof.
  unfold special. rewrite !orb_false_iff. tauto.
Qed.

Lemma is_dquote_eq c : is_dquote c = true -> c = dquote.
Proof. apply Ascii.eqb_eq. Qed.

(** ** The limit of a field *)

Ltac limit_arith :=
  unfold within_limit, field_limit in *;
  repeat rewrite length_app in *; cbn [length] in *; lia.

Lemma add_char_eq c r :
  within_limit (field r ++ [c]) ->
  add_char c r = inr (Reader (state r) (field r ++ [c]) (fields r)).
Proof.
  intros H. unfold add_char.
  destruct (field_limit <=? N.of_nat (length (field r)))%N eqn:E;
    [|reflexivity].
  apply N.leb_le in E. limit_arith.
Qed.

Lemma add_then_eq s c r :
  within_limit (field r ++ [c]) ->
  add_then s c r = inr (Reader s (field r ++ [c]) (fields r)).
Proof. intros H. unfold add_then. rewrite add_char_eq by assumption. reflexivity. Qed.

Lemma within_limit_app_l a b : within_limit (a ++ b) -> within_limit a.
Proof. intros H. limit_arith. Qed.

Lemma within_limit_cons x f : within_limit (x :: f) -> within_limit f.
Proof. intros H. limit_arith. Qed.

Lemma length_chars s : length (list_ascii_of_string s) = String.length s.
Proof. induction s as [|c s IH]; [reflexivity|]. cbn. rewrite IH. reflexivity. Qed.

Lemma within_limit_literal s :
  (N.of_nat (String.length s) <=? field_limit)%N = true ->
  within_limit (list_ascii_of_string s).
Proof.
  intros H. unfold within_limit. rewrite length_chars. apply N.leb_le.
  assumption.
Qed.

(** ** One field *)

Lemma stream_step c t r r1 p :
  process r (Ch c) = inr r1 -> is_lf c = false ->
  stream (c :: t) r p = stream t r1 true.
Proof. intros H Hl. cbn [stream]. rewrite H, Hl. reflexivity. Qed.

Lemma stream_step_lf c t r r1 r2 p :
  process r (Ch c) = inr r1 -> is_lf c = true -> process r1 EOL = inr r2 ->
  stream (c :: t) r p = emit r2 (fun r' => stream t r' false).
Proof. intros H Hl H2. cbn [stream]. rewrite H, Hl, H2. reflexivity. Qed.

Lemma stream_plain f : forall fld saved c t p,
  existsb special f = false -> within_limit (fld ++ f) ->
  stream (f ++ c :: t) (Reader IN_FIELD fld saved) p =
  stream (c :: t) (Reader IN_FIELD (fld ++ f) saved) p.
Proof.
  induction f as [|x f IH]; intros fld saved c t p Hs Hlim.
  - rewrite app_nil_r. reflexivity.
  - cbn [existsb] in Hs. apply orb_false_iff in Hs as [Hx Hf].
    destruct (special_false _ Hx) as (Hc & Hq & Hr & Hl).
    cbn [app].
    rewrite (stream_step x _ _ (Reader IN_FIELD (fld ++ [x]) saved) p);
      [|unfold process; cbn [state]; rewrite Hl, Hr, Hc;
        apply add_char_eq; cbn [field]; limit_arith|exact Hl].
    rewrite (IH _ _ _ _ true Hf), <- app_assoc; [reflexivity|].
    rewrite <- app_assoc. exact Hlim.
Qed.

Lemma stream_plain_start x f s saved c t p :
  s = START_FIELD \/ s = START_RECORD ->
  existsb special (x :: f) = false -> within_limit (x :: f) ->
  stream ((x :: f) ++ c :: t) (Reader s [] saved) p =
  stream (c :: t) (Reader IN_FIELD (x :: f) saved) p.
Proof.
  intros Hst Hs Hlim. cbn [existsb] in Hs. apply orb_false_iff in Hs as [Hx Hf].
  destruct (special_false _ Hx) as (Hc & Hq & Hr & Hl).
  assert (Hp : process (Reader s [] saved) (Ch x) =
               inr (Reader IN_FIELD [x] saved)).
  { destruct Hst as [-> | ->]; unfold process, start_field; cbn [state];
      rewrite Hl, Hr, Hq, Hc; cbn [orb]; reflexivity. }
  cbn [app]. rewrite (stream_step _ _ _ _ p Hp Hl).
  rewrite (stream_plain f [x] saved c t true Hf Hlim). reflexivity.
Qed.

Lemma stream_quoted f : forall fld saved c t p,
  within_limit (fld ++ f) ->
  stream (double_quotes f ++ dquote :: c :: t)
         (Reader IN_QUOTED_FIELD fld saved) p =
  stream (dquote :: c :: t) (Reader IN_QUOTED_FIELD (fld ++ f) saved) p.
Proof.
  induction f as [|x f IH]; intros fld saved c t p Hlim.
  - rewrite app_nil_r. reflexivity.
  - assert (Hlim1 : within_limit (fld ++ [x])) by limit_arith.
    assert (Hlim2 : within_limit ((fld ++ [x]) ++ f))
      by (rewrite <- app_assoc; exact Hlim).
    cbn [double_quotes]. destruct (is_dquote x) eqn:Hq.
    + apply is_dquote_eq in Hq as ->. cbn [app].
      rewrite (stream_step dquote _ (Reader IN_QUOTED_FIELD fld saved)
                 (Reader QUOTE_IN_QUOTED_FIELD fld saved) p eq_refl eq_refl).
      rewrite (stream_step dquote _ (Reader QUOTE_IN_QUOTED_FIELD fld saved)
                 (Reader IN_QUOTED_FIELD (fld ++ [dquote]) saved) true);
        [|unfold process; cbn [state is_dquote];
          change (Ascii.eqb dquote dquote) with true; cbn iota;
          apply add_then_eq; exact Hlim1|reflexivity].
      rewrite (IH _ _ _ _ true Hlim2), <- app_assoc. reflexivity.
    + assert (Hp : process (Reader IN_QUOTED_FIELD fld saved) (Ch x) =
                   inr (Reader IN_QUOTED_FIELD (fld ++ [x]) saved))
        by (unfold process; cbn [state]; rewrite Hq;
            apply add_char_eq; exact Hlim1).
      cbn [app]. destruct (is_lf x) eqn:Hl.
      * rewrite (stream_step_lf _ _ _ _ _ p Hp Hl eq_refl).
        unfold emit. cbn [state].
        rewrite bool_decide_eq_false_2 by discriminate.
        rewrite (IH _ _ _ _ false Hlim2), <- app_assoc. reflexivity.
      * rewrite (stream_step _ _ _ _ p Hp Hl).
        rewrite (IH _ _ _ _ true Hlim2), <- app_assoc. reflexivity.
Qed.

Lemma stream_close_comma fld saved t p :
  stream (dquote :: comma :: t) (Reader IN_QUOTED_FIELD fld saved) p =
  stream t (Reader START_FIELD [] (saved ++ [str fld])) true.
Proof. reflexivity. Qed.

Lemma stream_close_lf fld saved t p :
  stream (dquote :: lf :: t) (Reader IN_QUOTED_FIELD fld saved) p =
  cons_row (saved ++ [str fld]) (stream t fresh false).
Proof. reflexivity. Qed.

Lemma process_open_quote s saved :
  s = START_FIELD \/ s = START_RECORD ->
  process (Reader s [] saved) (Ch dquote) =
  inr (Reader IN_QUOTED_FIELD [] saved).
Proof. intros [-> | ->]; reflexivity. Qed.

Lemma stream_field_comma f s saved t p :
  s = START_FIELD \/ s = START_RECORD -> within_limit f ->
  stream (join_field f ++ comma :: t) (Reader s [] saved) p =
  stream t (Reader START_FIELD [] (saved ++ [str f])) true.
Proof.
  intros Hst Hlim. unfold join_field. destruct (existsb special f) eqn:Hs.
  - rewrite <- app_assoc. cbn [app].
    rewrite (stream_step _ _ _ _ p (process_open_quote _ _ Hst) eq_refl).
    rewrite stream_quoted by exact Hlim. apply stream_close_comma.
  - destruct f as [|x f].
    + destruct Hst as [-> | ->]; reflexivity.
    + rewrite (stream_plain_start _ _ _ _ _ _ _ Hst Hs Hlim). reflexivity.
Qed.

Lemma stream_field_lf f saved t p :
  within_limit f ->
  stream (join_field f ++ lf :: t) (Reader START_FIELD [] saved) p =
  cons_row (saved ++ [str f]) (stream t fresh false).
Proof.
  intros Hlim. unfold join_field. destruct (existsb special f) eqn:Hs.
  - rewrite <- app_assoc. cbn [app].
    rewrite (stream_step _ _ _ _ p
               (process_open_quote START_FIELD saved (or_introl eq_refl))
               eq_refl).
    rewrite stream_quoted by exact Hlim. apply stream_close_lf.
  - destruct f as [|x f].
    + reflexivity.
    + rewrite (stream_plain_start _ _ _ _ _ _ _ (or_introl eq_refl) Hs Hlim).
      reflexivity.
Qed.

(** ** One record *)

Lemma join_fields_cons f g fs :
  join_fields (f :: g :: fs) = join_field f ++ comma :: join_fields (g :: fs).
Proof. reflexivity. Qed.

Lemma stream_fields fs : forall saved t p,
  fs <> [] -> Forall within_limit fs ->
  stream (join_fields fs ++ lf :: t) (Reader START_FIELD [] saved) p =
  cons_row (saved ++ map str fs) (stream t fresh false).
Proof.
  induction fs as [|f fs IH]; intros saved t p Hne Hlim; [congruence|].
  apply Forall_cons_1 in Hlim as [Hf Hfs].
  destruct fs as [|g fs].
  - apply stream_field_lf. exact Hf.
  - rewrite join_fields_cons, <- app_assoc. cbn [app].
    rewrite stream_field_comma by auto.
    rewrite IH by (discriminate || assumption).
    cbn [map]. rewrite <- app_assoc. reflexivity.
Qed.

Lemma stream_row f g fs t p :
  Forall within_limit (f :: g :: fs) ->
  stream (join_fields (f :: g :: fs) ++ lf :: t) fresh p =
  cons_row (map str (f :: g :: fs)) (stream t fresh false).
Proof.
  intros Hlim. apply Forall_cons_1 in Hlim as [Hf Hfs].
  rewrite join_fields_cons, <- app_assoc. cbn [app]. unfold fresh at 1.
  rewrite stream_field_comma by auto.
  rewrite stream_fields by (discriminate || assumption). reflexivity.
Qed.

(** ** The text of a file *)

Lemma no_cr_app a b : no_cr (a ++ b) <-> no_cr a /\ no_cr b.
Proof. unfold no_cr. rewrite forallb_app. apply andb_true_iff. Qed.

Lemma no_cr_cons c a : no_cr (c :: a) <-> is_cr c = false /\ no_cr a.
Proof.
  unfold no_cr. cbn [forallb]. rewrite andb_true_iff, negb_true_iff.
  reflexivity.
Qed.

Lemma double_quotes_no_cr f : no_cr f -> no_cr (double_quotes f).
Proof.
  induction f as [|x f IH]; [auto|].
  rewrite no_cr_cons. intros [Hx Hf]. cbn [double_quotes].
  destruct (is_dquote x); rewrite ?no_cr_cons; auto.
Qed.

Lemma join_field_no_cr f : no_cr f -> no_cr (join_field f).
Proof.
  intros H. unfold join_field. destruct (existsb special f); [|assumption].
  rewrite no_cr_app, !no_cr_cons. repeat split; auto using double_quotes_no_cr.
Qed.

Lemma join_fields_no_cr fs : Forall no_cr fs -> no_cr (join_fields fs).
Proof.
  induction 1 as [|f fs Hf Hfs IH]; [reflexivity|].
  destruct fs as [|g fs]; [apply join_field_no_cr; assumption|].
  rewrite join_fields_cons, no_cr_app, no_cr_cons.
  auto using join_field_no_cr.
Qed.

(** CR LF after a text without CR is read as LF, the text as it is. *)
Lemma translate_no_cr a b :
  no_cr a -> translate (a ++ cr :: lf :: b) = a ++ lf :: translate b.
Proof.
  induction a as [|x a IH]; [reflexivity|].
  rewrite no_cr_cons. intros [Hx Ha]. cbn [app translate]. rewrite Hx, IH by assumption.
  reflexivity.
Qed.

Lemma writerow_two f g fs :
  writerow (f :: g :: fs) = join_fields (f :: g :: fs) ++ [cr; lf].
Proof.
  unfold writerow. rewrite join_fields_cons.
  destruct (join_field f ++ comma :: join_fields (g :: fs)) eqn:E;
    [|reflexivity].
  apply app_eq_nil in E as [_ E]. discriminate E.
Qed.

(** Records of two fields or more, without CR and within the limit of a
    field, are read back as written. *)
Lemma stream_rows rows :
  (forall fs, In fs rows ->
     2 <= length fs /\ Forall no_cr fs /\ Forall within_limit fs) ->
  stream (translate (flat_map writerow rows)) fresh false =
  inr (map (map str) rows).
Proof.
  induction rows as [|fs rows IH]; intros H; [reflexivity|].
  destruct (H fs (or_introl eq_refl)) as (Hlen & Hcr & Hlim).
  destruct fs as [|f [|g fs]]; cbn [length] in Hlen; try lia.
  cbn [flat_map]. rewrite writerow_two, <- app_assoc. cbn [app].
  rewrite translate_no_cr by (apply join_fields_no_cr; assumption).
  rewrite stream_row by assumption.
  rewrite IH by (intros; apply H; right; assumption).
  reflexivity.
Qed.

Lemma reader_rows_written rows :
  (forall fs, In fs rows ->
     2 <= length fs /\ Forall no_cr fs /\ Forall within_limit fs) ->
  reader_rows (split_lines [] (translate (flat_map writerow rows))) fresh =
  inr (map (map str) rows).
Proof.
  intros H. rewrite reader_rows_stream. cbn [map feed has_chars].
  apply stream_rows. assumption.
Qed.

End CsvFacts.

(* ===================================================================== *)
(** * Properties of [write_csv] and [read_csv]                            *)
(* ===================================================================== *)

Module CsvWriterFacts.
Import Csv CsvWriter.
Local Open Scope list_scope.

(** ** The stamping loop *)

Lemma row_of_insert_eq w l d fs' t ts :
  row_of (World fs' (<[l := d]> (heap w)) t ts) l = d.
Proof. unfold row_of. simpl. rewrite lookup_insert_eq. reflexivity. Qed.

Lemma row_of_insert_ne w l l' d fs' t ts :
  l <> l' -> row_of (World fs' (<[l := d]> (heap w)) t ts) l' = row_of w l'.
Proof.
  intros H. unfold row_of. simpl. rewrite lookup_insert_ne by assumption.
  reflexivity.
Qed.

Lemma stamp_row_frame w l :
  fs (stamp_row w l) = fs w /\ timestamps (stamp_row w l) = timestamps w /\
  ticks w <= ticks (stamp_row w l) <= S (ticks w).
Proof.
  unfold stamp_row. destruct (needs_stamp (row_of w l)); simpl; auto with lia.
Qed.

Lemma stamp_row_other w l l' :
  l <> l' -> heap (stamp_row w l) !! l' = heap w !! l'.
Proof.
  intros H. unfold stamp_row. destruct (needs_stamp (row_of w l)); simpl;
    [|reflexivity].
  apply lookup_insert_ne. assumption.
Qed.

Lemma stamp_row_keys w l l' key :
  key <> "processed_at" ->
  row_of (stamp_row w l) l' !! key = row_of w l' !! key.
Proof.
  intros Hk. unfold stamp_row.
  destruct (needs_stamp (row_of w l)) eqn:Hn; [|reflexivity].
  destruct (decide (l = l')) as [<-|Hne].
  - rewrite row_of_insert_eq. apply lookup_insert_ne. congruence.
  - rewrite row_of_insert_ne by assumption. reflexivity.
Qed.

Lemma stamp_row_stamped w l l' :
  needs_stamp (row_of w l') = false ->
  row_of (stamp_row w l) l' = row_of w l'.
Proof.
  intros Hn. unfold stamp_row.
  destruct (needs_stamp (row_of w l)) eqn:Hl; [|reflexivity].
  destruct (decide (l = l')) as [<-|Hne]; [congruence|].
  apply row_of_insert_ne. assumption.
Qed.

Lemma stamp_rows_frame rows_ : forall w,
  fs (stamp_rows rows_ w) = fs w /\
  timestamps (stamp_rows rows_ w) = timestamps w /\
  ticks w <= ticks (stamp_rows rows_ w).
Proof.
  induction rows_ as [|l rows_ IH]; intros w; simpl; [auto|].
  destruct (IH (stamp_row w l)) as (F & T & K).
  destruct (stamp_row_frame w l) as (F' & T' & K').
  rewrite F, T, F', T'. auto with lia.
Qed.

Lemma stamp_rows_keys rows_ : forall w l' key,
  key <> "processed_at" ->
  row_of (stamp_rows rows_ w) l' !! key = row_of w l' !! key.
Proof.
  induction rows_ as [|l rows_ IH]; intros w l' key Hk; simpl; [reflexivity|].
  rewrite IH by assumption. apply stamp_row_keys. assumption.
Qed.

Lemma stamp_rows_stamped rows_ : forall w l',
  needs_stamp (row_of w l') = false ->
  row_of (stamp_rows rows_ w) l' = row_of w l'.
Proof.
  induction rows_ as [|l rows_ IH]; intros w l' Hn; simpl; [reflexivity|].
  rewrite IH; rewrite stamp_row_stamped by assumption; auto.
Qed.

Lemma stamp_rows_other rows_ : forall w l',
  ~ In l' rows_ -> heap (stamp_rows rows_ w) !! l' = heap w !! l'.
Proof.
  induction rows_ as [|l rows_ IH]; intros w l' Hn; simpl; [reflexivity|].
  rewrite IH by (simpl in Hn; tauto).
  apply stamp_row_other. simpl in Hn. tauto.
Qed.

Lemma stamp_rows_stamps rows_ : forall w l',
  In l' rows_ -> needs_stamp (row_of w l') = true ->
  exists k, ticks w <= k < ticks (stamp_rows rows_ w) /\
    row_of (stamp_rows rows_ w) l' !! "processed_at" =
      Some (PyStr (timestamps w k)).
Proof.
  induction rows_ as [|l rows_ IH]; intros w l' Hin Hn; [destruct Hin|].
  simpl.
  destruct (stamp_row_frame w l) as (_ & T1 & K1).
  destruct (stamp_rows_frame rows_ (stamp_row w l)) as (_ & _ & K2).
  (* the row is stamped again later when the first stamp left it false *)
  assert (Hlater : In l' rows_ -> needs_stamp (row_of (stamp_row w l) l') = true ->
            exists k, ticks w <= k < ticks (stamp_rows rows_ (stamp_row w l)) /\
              row_of (stamp_rows rows_ (stamp_row w l)) l' !! "processed_at" =
                Some (PyStr (timestamps w k))).
  { intros Hin' Hn'. destruct (IH _ _ Hin' Hn') as (k & Hk & E).
    exists k. rewrite T1 in E. split; [lia|assumption]. }
  destruct (decide (l = l')) as [<-|Hne].
  - (* stamped now *)
    assert (Hnow : row_of (stamp_row w l) l !! "processed_at" =
                     Some (PyStr (timestamps w (ticks w))) /\
                   ticks (stamp_row w l) = S (ticks w)).
    { unfold stamp_row. rewrite Hn. rewrite row_of_insert_eq. simpl.
      rewrite lookup_insert_eq. auto. }
    destruct Hnow as [Hnow Ht].
    destruct (needs_stamp (row_of (stamp_row w l) l)) eqn:Hagain.
    + destruct (in_dec Nat.eq_dec l rows_) as [Hin'|Hout]; [auto|].
      exists (ticks w). split; [lia|].
      unfold row_of at 1. rewrite stamp_rows_other by assumption.
      exact Hnow.
    + exists (ticks w). split; [lia|].
      rewrite stamp_rows_stamped by assumption. exact Hnow.
  - destruct Hin as [E|Hin]; [congruence|].
    apply Hlater; [assumption|].
    unfold row_of. rewrite stamp_row_other by assumption. exact Hn.
Qed.

(** ** The file after a call *)

Lemma write_csv_heap rows_ path w :
  heap (write_csv rows_ path w) = heap (stamp_rows rows_ w) /\
  ticks (write_csv rows_ path w) = ticks (stamp_rows rows_ w) /\
  timestamps (write_csv rows_ path w) = timestamps w.
Proof.
  unfold write_csv, close_append, open_append.
  destruct (stamp_rows_frame rows_ w) as (_ & T & _).
  destruct (fs (stamp_rows rows_ w) !! path); cbn [heap ticks timestamps]; auto.
Qed.

Lemma row_of_heap w w' l : heap w = heap w' -> row_of w l = row_of w' l.
Proof. unfold row_of. intros ->. reflexivity. Qed.

Lemma written_heap b rows_ w w' :
  heap w = heap w' -> written b rows_ w = written b rows_ w'.
Proof.
  intros H. unfold written. f_equal. apply flat_map_ext. intros l.
  rewrite (row_of_heap _ _ l H). reflexivity.
Qed.

Lemma write_csv_new rows_ path w :
  fs w !! path = None ->
  fs (write_csv rows_ path w) =
  <[path := writeheader ++ rows_text rows_ (write_csv rows_ path w)]> (fs w).
Proof.
  intros Hnew.
  destruct (write_csv_heap rows_ path w) as (Hh & _ & _).
  unfold rows_text.
  rewrite (flat_map_ext _ (fun l => dict_writerow (clean_row (row_of (stamp_rows rows_ w) l))))
    by (intros l; rewrite (row_of_heap _ _ l Hh); reflexivity).
  destruct (stamp_rows_frame rows_ w) as (F & _ & _).
  unfold write_csv, exists_path.
  rewrite bool_decide_eq_false_2 by (intros [? ?]; congruence).
  unfold open_append. rewrite F, Hnew.
  unfold close_append. cbn [fs heap ticks timestamps].
  rewrite lookup_insert_eq, insert_insert_eq. reflexivity.
Qed.

Lemma write_csv_old rows_ path w old :
  fs w !! path = Some old ->
  fs (write_csv rows_ path w) =
  <[path := old ++ rows_text rows_ (write_csv rows_ path w)]> (fs w).
Proof.
  intros Hold.
  destruct (write_csv_heap rows_ path w) as (Hh & _ & _).
  unfold rows_text.
  rewrite (flat_map_ext _ (fun l => dict_writerow (clean_row (row_of (stamp_rows rows_ w) l))))
    by (intros l; rewrite (row_of_heap _ _ l Hh); reflexivity).
  destruct (stamp_rows_frame rows_ w) as (F & _ & _).
  unfold write_csv, exists_path.
  rewrite bool_decide_eq_true_2 by eauto.
  unfold open_append. rewrite F, Hold.
  unfold close_append. rewrite F, Hold. reflexivity.
Qed.

(** C10.  [write_csv] changes the dictionaries of its caller in place: a
    row passed with ['processed_at'] missing or false has it set, when the
    call returns, to a reading of the clock taken during the call; no other
    key of any row is added, removed or changed, a row that had a true
    ['processed_at'] is left as it was, and so is every dictionary that is
    not among the rows. *)
Theorem write_csv_stamps_in_place (rows_ : list nat) (path : string) (w : world) :
  let w' := write_csv rows_ path w in
  (forall l, In l rows_ -> needs_stamp (row_of w l) = true ->
     exists k, ticks w <= k < ticks w' /\
       row_of w' l !! "processed_at" = Some (PyStr (timestamps w k))) /\
  (forall l key, key <> "processed_at" ->
     row_of w' l !! key = row_of w l !! key) /\
  (forall l, needs_stamp (row_of w l) = false -> row_of w' l = row_of w l) /\
  (forall l, ~ In l rows_ -> heap w' !! l = heap w !! l).
Proof.
  intros w'. destruct (write_csv_heap rows_ path w) as (Hh & Ht & _).
  fold w' in Hh, Ht.
  assert (Hrow : forall l, row_of w' l = row_of (stamp_rows rows_ w) l)
    by (intros l; apply row_of_heap; assumption).
  repeat split.
  - intros l Hin Hn. rewrite Hrow, Ht. apply stamp_rows_stamps; assumption.
  - intros l key Hk. rewrite Hrow. apply stamp_rows_keys. assumption.
  - intros l Hn. rewrite Hrow. apply stamp_rows_stamped. assumption.
  - intros l Hn. rewrite Hh. apply stamp_rows_other. assumption.
Qed.

Lemma write_csv_stamps_in_place_witness :
  (exists k, 0 <= k < ticks (write_csv [0; 1] test_path test_world) /\
     row_of (write_csv [0; 1] test_path test_world) 1 !! "processed_at" =
       Some (PyStr (test_clock k))) /\
  row_of (write_csv [0; 1] test_path test_world) 1 !! "total" =
    Some (PyStr "89.75") /\
  heap (write_csv [0] test_path test_world) !! 1 = Some test_row_2.
Proof.
  split; [|split].
  - apply (proj1 (write_csv_stamps_in_place [0; 1] test_path test_world) 1).
    + simpl. auto.
    + vm_compute. reflexivity.
  - rewrite (proj1 (proj2 (write_csv_stamps_in_place [0; 1] test_path test_world)))
      by discriminate.
    vm_compute. reflexivity.
  - rewrite (proj2 (proj2 (proj2 (write_csv_stamps_in_place [0] test_path test_world))))
      by (simpl; intros [H|[]]; discriminate H).
    vm_compute. reflexivity.
Defined.

(** C4.  The header, the six column names, is written when the call finds
    no file at the path, and then it is the first thing in the file; a call
    that finds a file adds its rows after what is there and writes no
    header.  So a call on a new path followed by a second call on the same
    path, one row each, leaves the header once, then the two rows. *)
Theorem header_written_once :
  (forall rows_ path w,
     fs w !! path = None ->
     fs (write_csv rows_ path w) !! path =
       Some (writeheader ++ rows_text rows_ (write_csv rows_ path w))) /\
  (forall rows_ path w old,
     fs w !! path = Some old ->
     fs (write_csv rows_ path w) !! path =
       Some (old ++ rows_text rows_ (write_csv rows_ path w))) /\
  (forall r1 r2 path w,
     fs w !! path = None ->
     let w1 := write_csv [r1] path w in
     let w2 := write_csv [r2] path w1 in
     fs w2 !! path =
       Some (writeheader ++ dict_writerow (clean_row (row_of w1 r1))
                         ++ dict_writerow (clean_row (row_of w2 r2)))) /\
  string_of_list_ascii writeheader =
    String.append "date,start_time,end_time,total,source_file,processed_at"
      (string_of_list_ascii [cr; lf]) /\
  text_lines test_path
    (write_csv [1] test_path (write_csv [0] test_path test_world)) =
    ["date,start_time,end_time,total,source_file,processed_at";
     "2024-01-15,10:30 AM,11:15 AM,125.50,test_receipt.jpg,2024-01-17T09:00:00.000001";
     "2024-01-16,14:00,15:30,89.75,receipt2.jpg,2024-01-17T09:00:00.000002"].
Proof.
  assert (Hnew : forall rows_ path w,
     fs w !! path = None ->
     fs (write_csv rows_ path w) !! path =
       Some (writeheader ++ rows_text rows_ (write_csv rows_ path w))).
  { intros. rewrite write_csv_new by assumption. apply lookup_insert_eq. }
  assert (Hold : forall rows_ path w old,
     fs w !! path = Some old ->
     fs (write_csv rows_ path w) !! path =
       Some (old ++ rows_text rows_ (write_csv rows_ path w))).
  { intros. erewrite write_csv_old by eassumption. apply lookup_insert_eq. }
  split; [exact Hnew|split; [exact Hold|split; [|split]]].
  - intros r1 r2 path w Hn w1 w2.
    unfold w2. erewrite Hold by (apply Hnew; assumption).
    unfold rows_text. cbn [flat_map]. rewrite !app_nil_r, <- app_assoc.
    reflexivity.
  - vm_compute. reflexivity.
  - vm_compute. reflexivity.
Qed.

Lemma header_written_once_witness :
  fs (write_csv [1] test_path (write_csv [0] test_path test_world)) !! test_path =
    Some (writeheader
            ++ dict_writerow (clean_row (row_of (write_csv [0] test_path test_world) 0))
            ++ dict_writerow (clean_row
                 (row_of (write_csv [1] test_path
                            (write_csv [0] test_path test_world)) 1))).
Proof.
  apply (proj1 (proj2 (proj2 header_written_once)) 0 1 test_path test_world).
  vm_compute. reflexivity.
Defined.

(** ** Reading back *)

(** One goal for each of the six column names. *)
Ltac each_header H :=
  unfold headers in H; cbn [In] in H;
  destruct H as [<-|[<-|[<-|[<-|[<-|[<-|[]]]]]]].

(** A fact about the values of concrete rows, column by column: no
    carriage return, and not longer than a field may be. *)
Ltac by_columns :=
  let l := fresh "l" in
  let key := fresh "key" in
  let Hl := fresh "Hl" in
  let Hk := fresh "Hk" in
  intros l key Hl Hk; cbn [In] in Hl;
  repeat (destruct Hl as [<-|Hl]); [..|destruct Hl];
  each_header Hk;
  (split; [vm_compute; reflexivity|apply N.leb_le; vm_compute; reflexivity]).

Lemma clean_row_get row key :
  In key headers ->
  default (PyStr "") (clean_row row !! key) = default PyNone (row !! key).
Proof.
  intros Hk. unfold clean_row. unfold headers at 1. cbn [foldl].
  each_header Hk;
    repeat (rewrite lookup_insert_ne by discriminate);
    rewrite lookup_insert_eq; reflexivity.
Qed.

Lemma as_read_get row key :
  In key headers ->
  as_read row !! Some key =
  Some (RStr (string_of_list_ascii (field_text (default PyNone (row !! key))))).
Proof.
  intros Hk. unfold as_read, zip_dict. unfold headers at 1 2.
  cbn [map zip zip_with foldl fst snd].
  each_header Hk;
    repeat (rewrite lookup_insert_ne by discriminate);
    rewrite lookup_insert_eq; reflexivity.
Qed.

Lemma dict_writerow_clean row :
  dict_writerow (clean_row row) = writerow (row_fields row).
Proof.
  unfold dict_writerow, row_fields.
  rewrite (map_ext_in _ (fun key => field_text (default PyNone (row !! key))));
    [reflexivity|].
  intros key Hk. rewrite clean_row_get by assumption. reflexivity.
Qed.

Lemma rows_text_eq rows_ w :
  rows_text rows_ w = flat_map writerow (map (fun l => row_fields (row_of w l)) rows_).
Proof.
  unfold rows_text. induction rows_ as [|l rows_ IH]; [reflexivity|].
  cbn [flat_map map]. rewrite IH, dict_writerow_clean. reflexivity.
Qed.

Lemma filter_nonempty_rows (rows_ : list (list string)) :
  (forall row, In row rows_ -> row <> []) ->
  filter (fun row => row <> []) rows_ = rows_.
Proof.
  induction rows_ as [|row rows_ IH]; intros H; [reflexivity|].
  rewrite filter_cons, decide_True by (apply H; left; reflexivity).
  rewrite IH by (intros; apply H; right; assumption). reflexivity.
Qed.

(** A file made of the header and of records is read back record by
    record. *)
Lemma read_sink path w records :
  fs w !! path = Some (sink_text records) ->
  Forall plain_record records ->
  read_csv path w = inr (map record_as_read records).
Proof.
  intros Hf Hrec. unfold read_csv. rewrite Hf. unfold sink_text.
  change (writeheader ++ flat_map writerow records)
    with (flat_map writerow (map list_ascii_of_string headers :: records)).
  rewrite List.Forall_forall in Hrec.
  unfold dict_reader. rewrite CsvFacts.reader_rows_written.
  - cbn [map]. rewrite filter_nonempty_rows.
    + f_equal. rewrite map_map. apply map_ext_in. intros record Hin.
      destruct (Hrec record Hin) as [Hlen _].
      unfold dict_row, record_as_read.
      change (map string_of_list_ascii (map list_ascii_of_string headers))
        with headers.
      rewrite length_map, Hlen. reflexivity.
    + intros row Hrow. rewrite in_map_iff in Hrow.
      destruct Hrow as (record & <- & Hin).
      destruct (Hrec record Hin) as [Hlen _].
      destruct record; [discriminate Hlen|discriminate].
  - intros fs_ [<-|Hin].
    + split; [cbn; lia|]. split; [repeat constructor|].
      unfold headers. cbn [map].
      repeat constructor; apply N.leb_le; vm_compute; reflexivity.
    + destruct (Hrec fs_ Hin) as (Hlen & Hcr & Hlim).
      split; [lia|]. split; assumption.
Qed.

Lemma row_fields_plain row :
  (forall key, In key headers ->
     no_cr (field_text (default PyNone (row !! key))) /\
     within_limit (field_text (default PyNone (row !! key)))) ->
  plain_record (row_fields row).
Proof.
  intros H. split; [reflexivity|]. unfold row_fields.
  split; rewrite List.Forall_forall; intros x Hx;
    rewrite in_map_iff in Hx; destruct Hx as (key & <- & Hk);
    apply H; assumption.
Qed.

Lemma rows_plain rows_ w :
  (forall l key, In l rows_ -> In key headers ->
     no_cr (field_text (default PyNone (row_of w l !! key))) /\
     within_limit (field_text (default PyNone (row_of w l !! key)))) ->
  Forall plain_record (map (fun l => row_fields (row_of w l)) rows_).
Proof.
  intros H. rewrite List.Forall_forall. intros x Hx.
  rewrite in_map_iff in Hx. destruct Hx as (l & <- & Hl).
  apply row_fields_plain. auto.
Qed.

Lemma record_as_read_row row : record_as_read (row_fields row) = as_read row.
Proof.
  unfold record_as_read, row_fields, as_read. rewrite map_map. reflexivity.
Qed.

(** A new file, read back. *)
Lemma read_csv_new rows_ path w :
  fs w !! path = None ->
  (forall l key, In l rows_ -> In key headers ->
     no_cr (field_text (default PyNone (row_of (write_csv rows_ path w) l !! key))) /\
     within_limit
       (field_text (default PyNone (row_of (write_csv rows_ path w) l !! key)))) ->
  read_csv path (write_csv rows_ path w) =
  inr (map (fun l => as_read (row_of (write_csv rows_ path w) l)) rows_).
Proof.
  intros Hnew Hcr. set (w' := write_csv rows_ path w) in *.
  rewrite (read_sink path w' (map (fun l => row_fields (row_of w' l)) rows_)).
  - f_equal. rewrite map_map. apply map_ext. intros l.
    apply record_as_read_row.
  - unfold w' at 1. rewrite write_csv_new by assumption. fold w'.
    rewrite lookup_insert_eq, rows_text_eq. reflexivity.
  - apply rows_plain. assumption.
Qed.

(** A file that [write_csv] made, added to and read back. *)
Lemma read_csv_old rows_ path w records :
  fs w !! path = Some (sink_text records) ->
  Forall plain_record records ->
  (forall l key, In l rows_ -> In key headers ->
     no_cr (field_text (default PyNone (row_of (write_csv rows_ path w) l !! key))) /\
     within_limit
       (field_text (default PyNone (row_of (write_csv rows_ path w) l !! key)))) ->
  read_csv path (write_csv rows_ path w) =
  inr (map record_as_read records ++
       map (fun l => as_read (row_of (write_csv rows_ path w) l)) rows_).
Proof.
  intros Hold Hrec Hcr. set (w' := write_csv rows_ path w) in *.
  rewrite (read_sink path w'
             (records ++ map (fun l => row_fields (row_of w' l)) rows_)).
  - f_equal. rewrite map_app. f_equal. rewrite map_map. apply map_ext.
    intros l. apply record_as_read_row.
  - unfold w' at 1. erewrite write_csv_old by eassumption. fold w'.
    rewrite lookup_insert_eq, rows_text_eq. unfold sink_text.
    rewrite flat_map_app, app_assoc. reflexivity.
  - apply Forall_app. split; [assumption|]. apply rows_plain. assumption.
Qed.

(** A call that returns is [write_csv]; a call that [os.makedirs] or [open]
    stops writes nothing. *)
Lemma write_csv_returns os rows_ path w w' :
  write_csv_or_raise os rows_ path w = (w', None) ->
  w' = write_csv rows_ path w.
Proof.
  unfold write_csv_or_raise. destruct (os path); intros H; inversion H.
  reflexivity.
Qed.

Lemma write_csv_refused os rows_ path w w' e :
  write_csv_or_raise os rows_ path w = (w', Some e) -> fs w' = fs w.
Proof.
  unfold write_csv_or_raise. destruct (os path); intros H; inversion H.
  - reflexivity.
  - apply stamp_rows_frame.
Qed.

(** C9, as the code has it.  The call of [write_csv] returns: the
    operating system lets it make the directory and open the file.  At a
    path where there is no file yet, and for rows whose values hold no
    carriage return and are not longer than the reader lets a field be,
    reading the file back gives one dictionary per row, in order, which has
    under each of the six column names the text of the value written: the
    string itself for a string, the empty string for [None] or a missing
    key.  At a path where [write_csv] made the file before (the header,
    then records of six such fields), reading back gives the records that
    were there, then the rows written.  And [read_csv] returns the empty
    list when the file does not exist. *)
Theorem roundtrip_new_file :
  (forall os rows_ path w w',
     write_csv_or_raise os rows_ path w = (w', None) ->
     fs w !! path = None ->
     (forall l key, In l rows_ -> In key headers ->
        no_cr (field_text (default PyNone (row_of w' l !! key))) /\
        within_limit (field_text (default PyNone (row_of w' l !! key)))) ->
     read_csv path w' = inr (map (fun l => as_read (row_of w' l)) rows_)) /\
  (forall os rows_ path w w' records,
     write_csv_or_raise os rows_ path w = (w', None) ->
     fs w !! path = Some (sink_text records) ->
     Forall plain_record records ->
     (forall l key, In l rows_ -> In key headers ->
        no_cr (field_text (default PyNone (row_of w' l !! key))) /\
        within_limit (field_text (default PyNone (row_of w' l !! key)))) ->
     read_csv path w' =
       inr (map record_as_read records ++
            map (fun l => as_read (row_of w' l)) rows_)) /\
  (forall row key s,
     In key headers -> row !! key = Some (PyStr s) ->
     as_read row !! Some key = Some (RStr s)) /\
  (forall row key,
     In key headers -> row !! key = None \/ row !! key = Some PyNone ->
     as_read row !! Some key = Some (RStr "")) /\
  (forall path w, fs w !! path = None -> read_csv path w = inr []) /\
  read_csv test_path (write_csv [0; 1] test_path test_world) =
    inr [as_read (<["processed_at" := PyStr (test_clock 0)]> test_row_1);
         as_read (<["processed_at" := PyStr (test_clock 1)]> test_row_2)].
Proof.
  split; [|split; [|split; [|split; [|split]]]].
  - intros os rows_ path w w' Hw. apply write_csv_returns in Hw as ->.
    apply read_csv_new.
  - intros os rows_ path w w' records Hw. apply write_csv_returns in Hw as ->.
    apply read_csv_old.
  - intros row key s Hk Hs. rewrite as_read_get by assumption. rewrite Hs.
    cbn [default from_option id field_text].
    rewrite string_of_list_ascii_of_string. reflexivity.
  - intros row key Hk [Hs|Hs]; rewrite as_read_get by assumption;
      rewrite Hs; reflexivity.
  - intros path w H. unfold read_csv. rewrite H. reflexivity.
  - rewrite read_csv_new.
    + cbn [map].
      replace (row_of (write_csv [0; 1] test_path test_world) 0)
        with (<["processed_at" := PyStr (test_clock 0)]> test_row_1)
        by (vm_compute; reflexivity).
      replace (row_of (write_csv [0; 1] test_path test_world) 1)
        with (<["processed_at" := PyStr (test_clock 1)]> test_row_2)
        by (vm_compute; reflexivity).
      reflexivity.
    + reflexivity.
    + by_columns.
Qed.

Lemma roundtrip_new_file_witness :
  (exists d, read_csv test_path (write_csv [1] test_path test_world) = inr [d] /\
             d !! Some "total" = Some (RStr "89.75") /\
             d !! Some "source_file" = Some (RStr "receipt2.jpg")) /\
  (exists d1 d0,
     read_csv test_path
       (write_csv [0] test_path (write_csv [1] test_path test_world)) =
       inr [d1; d0] /\
     d0 !! Some "date" = Some (RStr "2024-01-15")).
Proof.
  split.
  2:{ set (w1 := write_csv [1] test_path test_world).
      exists (record_as_read (row_fields (row_of w1 1))),
             (as_read (row_of (write_csv [0] test_path w1) 0)).
      split.
      - apply (proj1 (proj2 roundtrip_new_file) (fun _ => Opens) [0]
                 test_path w1 (write_csv [0] test_path w1)
                 [row_fields (row_of w1 1)]).
        + reflexivity.
        + vm_compute. reflexivity.
        + repeat constructor; apply N.leb_le; vm_compute; reflexivity.
        + by_columns.
      - apply (proj1 (proj2 (proj2 roundtrip_new_file))); [cbn; tauto|].
        vm_compute. reflexivity. }
  exists (as_read (row_of (write_csv [1] test_path test_world) 1)).
  split; [|split].
  - apply (proj1 roundtrip_new_file (fun _ => Opens) [1] test_path test_world).
    + reflexivity.
    + reflexivity.
    + by_columns.
  - apply (proj1 (proj2 (proj2 roundtrip_new_file))); [cbn; tauto|].
    vm_compute. reflexivity.
  - apply (proj1 (proj2 (proj2 roundtrip_new_file))); [cbn; tauto|].
    vm_compute. reflexivity.
Defined.

(** C9, as the claim words it, fails: at a path where an empty file is
    already there, no header is written, the reader takes the row for the
    header, and nothing comes back of the row written. *)
Lemma roundtrip_fails_on_existing_file :
  row_of (write_csv [0] test_path stale_world) 0 !! "date" =
    Some (PyStr "2024-01-15") /\
  text_lines test_path (write_csv [0] test_path stale_world) =
    ["2024-01-15,10:30 AM,11:15 AM,125.50,test_receipt.jpg,2024-01-17T09:00:00.000001"] /\
  read_csv test_path (write_csv [0] test_path stale_world) = inr [] /\
  ~ (exists d rest,
       read_csv test_path (write_csv [0] test_path stale_world) = inr (d :: rest) /\
       d !! Some "date" = Some (RStr "2024-01-15")).
Proof.
  assert (H : read_csv test_path (write_csv [0] test_path stale_world) = inr [])
    by (vm_compute; reflexivity).
  split; [vm_compute; reflexivity|]. split; [vm_compute; reflexivity|].
  split; [exact H|].
  intros (d & rest & Hr & _). rewrite H in Hr. discriminate Hr.
Qed.

(** ** Callers that interleave *)

Lemma run_one_alone c s c' s' :
  step 0 c s = Some (c', s') -> run_one 0 ([c], s) = ([c'], s').
Proof. intros H. unfold run_one. cbn [fst snd]. cbn [lookup list_lookup]. rewrite H. reflexivity. Qed.

(** A caller alone runs [write_csv]. *)
Lemma run_alone rows_ path w :
  run [0; 0; 0; 0; 0; 0; 0] ([start_call rows_ path], Shared w ∅) =
  ([Call Finished rows_ path (exists_path path w)
         (written (exists_path path w) rows_
                  (open_append path (stamp_rows rows_ w)))],
   Shared (write_csv rows_ path w) ∅).
Proof.
  unfold run, start_call. cbn [foldl].
  erewrite run_one_alone by reflexivity. unfold at_. cbn [the_world locks rows out_path file_exists buffer].
  erewrite run_one_alone by reflexivity. unfold at_. cbn [the_world locks rows out_path file_exists buffer].
  erewrite run_one_alone by reflexivity. unfold at_. cbn [the_world locks rows out_path file_exists buffer].
  erewrite run_one_alone
    by (unfold step; cbn [at_pc locks out_path]; rewrite lookup_empty; reflexivity).
  unfold at_. cbn [the_world locks rows out_path file_exists buffer].
  erewrite run_one_alone by reflexivity. cbn [the_world locks rows out_path file_exists buffer].
  erewrite run_one_alone by reflexivity. unfold at_. cbn [the_world locks rows out_path file_exists buffer].
  erewrite run_one_alone by reflexivity. unfold at_. cbn [the_world locks rows out_path file_exists buffer].
  rewrite delete_insert_eq, delete_empty. reflexivity.
Qed.

(** C2, on the code.  Two callers, one row each, on the same new path: when
    both look for the file before either has opened it, both write the
    header, and the file has four lines, two of them headers (one caller
    after the other, it has the header and the two rows). *)
Theorem concurrent_writers_two_headers :
  text_lines test_path (the_world (snd (run serial_schedule two_callers))) =
    ["date,start_time,end_time,total,source_file,processed_at";
     "2024-01-15,10:30 AM,11:15 AM,125.50,test_receipt.jpg,2024-01-17T09:00:00.000001";
     "2024-01-16,14:00,15:30,89.75,receipt2.jpg,2024-01-17T09:00:00.000002"] /\
  all_finished (run racy_schedule two_callers) = true /\
  text_lines test_path (the_world (snd (run racy_schedule two_callers))) =
    ["date,start_time,end_time,total,source_file,processed_at";
     "2024-01-15,10:30 AM,11:15 AM,125.50,test_receipt.jpg,2024-01-17T09:00:00.000001";
     "date,start_time,end_time,total,source_file,processed_at";
     "2024-01-16,14:00,15:30,89.75,receipt2.jpg,2024-01-17T09:00:00.000002"] /\
  Nat.eqb (length (text_lines test_path
                     (the_world (snd (run racy_schedule two_callers)))))
          (2 + 1) = false.
Proof.
  assert (H : text_lines test_path (the_world (snd (run racy_schedule two_callers))) =
    ["date,start_time,end_time,total,source_file,processed_at";
     "2024-01-15,10:30 AM,11:15 AM,125.50,test_receipt.jpg,2024-01-17T09:00:00.000001";
     "date,start_time,end_time,total,source_file,processed_at";
     "2024-01-16,14:00,15:30,89.75,receipt2.jpg,2024-01-17T09:00:00.000002"])
    by (vm_compute; reflexivity).
  split; [vm_compute; reflexivity|].
  split; [vm_compute; reflexivity|]. split; [exact H|].
  rewrite H. reflexivity.
Qed.

End CsvWriterFacts.

(* ===================================================================== *)
(** * Texts without carriage return                                       *)
(* ===================================================================== *)

Module PlainFacts.
Import Re PyFloat TextractHandler PyText Csv Main.
Import CsvFacts TextractHandlerFacts.
Local Open Scope list_scope.

Lemma plain_app a b : plain a -> plain b -> plain (a ++ b)%string.
Proof.
  unfold plain. rewrite list_ascii_app, no_cr_app. auto.
Qed.

Lemma no_cr_sub (w text : list ascii) :
  (forall x, In x w -> In x text) -> no_cr text -> no_cr w.
Proof.
  unfold no_cr. rewrite !forallb_forall. auto.
Qed.

Lemma no_cr_piece w text : piece_of w text -> no_cr text -> no_cr w.
Proof.
  intros (a & b & ->). apply no_cr_sub. intros x Hx.
  apply in_or_app. right. apply in_or_app. left. assumption.
Qed.

Lemma no_cr_take k (l : list ascii) : no_cr l -> no_cr (take k l).
Proof.
  apply no_cr_sub. intros x Hx. rewrite <- (take_drop k l).
  apply in_or_app. left. assumption.
Qed.

Lemma no_cr_drop k (l : list ascii) : no_cr l -> no_cr (drop k l).
Proof.
  apply no_cr_sub. intros x Hx. rewrite <- (take_drop k l).
  apply in_or_app. right. assumption.
Qed.

Lemma plain_of_list l : no_cr l -> plain (string_of_list_ascii l).
Proof.
  unfold plain. rewrite list_ascii_of_string_of_list_ascii. auto.
Qed.

Lemma plain_substr_to k s : plain s -> plain (substr_to k s).
Proof. intros H. apply plain_of_list, no_cr_take, H. Qed.

Lemma plain_substr_from k s : plain s -> plain (substr_from k s).
Proof. intros H. apply plain_of_list, no_cr_drop, H. Qed.

Lemma plain_zeros k : plain (zeros k).
Proof.
  apply plain_of_list. unfold no_cr.
  induction (Z.to_nat k) as [|n IH]; [reflexivity|]. cbn. exact IH.
Qed.

Lemma plain_uint d : plain (DecimalString.NilEmpty.string_of_uint d).
Proof. unfold plain, no_cr. induction d; cbn; auto. Qed.

Lemma plain_uint_zero d : plain (DecimalString.NilZero.string_of_uint d).
Proof. destruct d; try apply plain_uint. reflexivity. Qed.

Lemma plain_Z_to_string z : plain (Z_to_string z).
Proof. apply plain_uint_zero. Qed.

Lemma plain_str_int z : plain (str_int z).
Proof.
  unfold str_int. destruct (Z.to_int z) as [d|d]; cbn.
  - apply plain_uint_zero.
  - apply (plain_app "-"); [reflexivity|apply plain_uint_zero].
Qed.

Lemma plain_str_nat n : plain (str_nat n).
Proof. apply plain_str_int. Qed.

Lemma plain_layout ds t : plain ds -> plain (layout ds t).
Proof.
  intros Hd. unfold layout.
  repeat match goal with
         | |- plain (if ?b then _ else _) => destruct b
         | |- plain (_ ++ _)%string => apply plain_app
         | |- plain (substr_to _ _) => apply plain_substr_to
         | |- plain (substr_from _ _) => apply plain_substr_from
         | |- plain (zeros _) => apply plain_zeros
         | |- plain (Z_to_string _) => apply plain_Z_to_string
         | |- plain ds => exact Hd
         | |- plain _ => reflexivity
         end.
Qed.

Lemma plain_py_str x : plain (py_str x).
Proof.
  destruct x as [m e|]; [|reflexivity]. unfold py_str.
  destruct (m =? 0)%Z; [reflexivity|].
  destruct (shortest _ _ _ _) as [[g p]|]; [|reflexivity].
  apply plain_layout, plain_Z_to_string.
Qed.

Lemma plain_remove_commas s : plain s -> plain (remove_commas s).
Proof.
  intros H. apply plain_of_list. revert H. apply no_cr_sub.
  intros x Hx. apply list_elem_of_In in Hx. apply list_elem_of_In.
  apply list_elem_of_filter in Hx. tauto.
Qed.

Lemma basename_from_chars p : forall cur x,
  In x (basename_from cur p) -> In x cur \/ In x p.
Proof.
  induction p as [|c p IH]; intros cur x Hx; cbn in Hx; [auto|].
  destruct (Ascii.eqb c slash).
  - destruct (IH _ _ Hx) as [[]|H]. right. right. assumption.
  - destruct (IH _ _ Hx) as [H|H]; [|right; right; assumption].
    apply in_app_or in H. destruct H as [H|[<-|[]]]; [auto|].
    right. left. reflexivity.
Qed.

Lemma plain_basename p : plain p -> plain (basename p).
Proof.
  intros H. apply plain_of_list. revert H. apply no_cr_sub.
  intros x Hx. destruct (basename_from_chars _ _ _ Hx) as [[]|Hp]. exact Hp.
Qed.

End PlainFacts.

(* ===================================================================== *)
(** * More on [parse_fields]                                              *)
(* ===================================================================== *)

Module ParseFieldsFacts.
Import Re PyFloat TextractHandler PyText ReFacts TextractHandlerFacts.
Local Open Scope list_scope.

(** ** What a match captures is a piece of the text *)

Lemma piece_of_nil text : piece_of [] text.
Proof. exists [], text. reflexivity. Qed.

Section Pieces.
Context (ic : bool).

Lemma matches_pieces r : forall st st' text,
  matches ic r st st' ->
  (exists a, text = a ++ rest st) ->
  Forall (fun iw => piece_of (snd iw) text) (caps st) ->
  (exists a, text = a ++ rest st') /\
  Forall (fun iw => piece_of (snd iw) text) (caps st').
Proof.
  induction r as [|c|c lo hi|r1 IH1 r2 IH2|r1 IH1 r2 IH2|i r1 IH1|];
    intros st st' text Hm [a Ha] Hc; cbn [matches] in Hm.
  - subst st'. eauto.
  - destruct Hm as (x & Hr & _ & _ & Hcaps). rewrite Hcaps.
    split; [|assumption].
    exists (a ++ [x]). rewrite Ha, Hr, <- app_assoc. reflexivity.
  - destruct Hm as (w & Hr & _ & _ & _ & _ & Hcaps). rewrite Hcaps.
    split; [|assumption].
    exists (a ++ w). rewrite Ha, Hr, app_assoc. reflexivity.
  - destruct Hm as (mid & H1 & H2).
    destruct (IH1 _ _ text H1 (ex_intro _ a Ha) Hc) as [Hs Hc'].
    exact (IH2 _ _ text H2 Hs Hc').
  - destruct Hm as [H|H]; [eapply IH1 | eapply IH2]; eauto.
  - destruct Hm as (mid & H1 & ->).
    destruct (IH1 _ _ text H1 (ex_intro _ a Ha) Hc) as [Hs Hc'].
    split; [exact Hs|]. cbn. constructor; [|assumption].
    cbn. exists a, (drop (length (rest st) - length (rest mid)) (rest st)).
    rewrite take_drop. assumption.
  - destruct Hm as [_ ->]. eauto.
Qed.

Lemma match_here_piece r pre p s m i w :
  match_here ic r p s = Some m -> lookup_cap i (caps m) = Some w ->
  piece_of w (pre ++ s).
Proof.
  intros Hm Hl. apply match_here_sound in Hm.
  destruct (matches_pieces r _ _ (pre ++ s) Hm) as [_ Hc].
  - exists pre. reflexivity.
  - constructor.
  - apply lookup_cap_In in Hl. rewrite List.Forall_forall in Hc.
    exact (Hc _ Hl).
Qed.

Lemma search_piece r lines m i w :
  search r ic lines = Some m -> lookup_cap i (caps m) = Some w ->
  piece_of w (chars lines).
Proof.
  unfold search, chars. intros Hs Hl.
  destruct (search_from_leftmost ic r _ _ _ Hs) as (n & Hm & _).
  rewrite <- (take_drop n (list_ascii_of_string lines)).
  exact (match_here_piece r _ _ _ m i w Hm Hl).
Qed.

Lemma findall_from_piece r s : forall pre p skip o w,
  In o (findall_from ic r p s skip) -> o = Some w -> piece_of w (pre ++ s).
Proof.
  induction s as [|c s IH]; intros pre p skip o w Hin Ho; [destruct Hin|].
  assert (Hrec : forall p' skip', In o (findall_from ic r p' s skip') ->
                 piece_of w (pre ++ c :: s)).
  { intros p' skip' H.
    replace (pre ++ c :: s) with ((pre ++ [c]) ++ s)
      by (rewrite <- app_assoc; reflexivity).
    exact (IH _ _ _ _ _ H Ho). }
  cbn [findall_from] in Hin. destruct skip as [|n]; [|eauto].
  destruct (match_here ic r p (c :: s)) as [m|] eqn:Hm; [|eauto].
  destruct Hin as [Heq|Hin]; [|eauto].
  rewrite <- Heq in Ho. exact (match_here_piece r pre _ _ m 1 w Hm Ho).
Qed.

Lemma findall_piece r lines t :
  In t (findall r ic lines) -> piece_of (chars t) (chars lines).
Proof.
  unfold findall, chars. intros Hin. apply in_map_iff in Hin.
  destruct Hin as (o & <- & Hin). rewrite list_ascii_of_string_of_list_ascii.
  destruct o as [w|]; [|apply piece_of_nil].
  exact (findall_from_piece r _ [] _ _ _ w Hin eq_refl).
Qed.

Lemma group_piece r lines m i t :
  search r ic lines = Some m -> group m i = Some t ->
  piece_of (chars t) (chars lines).
Proof.
  intros Hs Hg. unfold group in Hg.
  destruct (lookup_cap i (caps m)) as [w|] eqn:Hl; [|discriminate].
  injection Hg as <-. unfold chars at 1.
  rewrite list_ascii_of_string_of_list_ascii.
  exact (search_piece r lines m i w Hs Hl).
Qed.

(** ** A pattern that needs a digit finds nothing in a text without one *)

Lemma matches_takes_digit r : forall st st',
  matches ic r st st' -> needs_digit r = true ->
  existsb is_digit (rest st) = true.
Proof.
  induction r as [|c|c lo hi|r1 IH1 r2 IH2|r1 IH1 r2 IH2|i r1 IH1|];
    intros st st' Hm Hn; cbn [matches needs_digit] in *; try discriminate.
  - destruct Hm as (x & Hr & Hx & _). rewrite Hr.
    destruct c; try discriminate. cbn in *. rewrite Hx. reflexivity.
  - destruct Hm as (w & Hr & Hw & Hlo & _). rewrite Hr.
    apply andb_true_iff in Hn. destruct Hn as [Hc Hl].
    apply Nat.leb_le in Hl.
    destruct c; try discriminate.
    destruct w as [|x w]; [cbn in Hlo; lia|].
    cbn in *. apply andb_true_iff in Hw. destruct Hw as [-> _]. reflexivity.
  - destruct Hm as (mid & H1 & H2).
    apply orb_true_iff in Hn. destruct Hn as [Hn|Hn].
    + eauto.
    + destruct (matches_consumed ic r1 _ _ H1) as [w ->].
      rewrite existsb_app. rewrite (IH2 _ _ H2 Hn). apply orb_true_r.
  - apply andb_true_iff in Hn. destruct Hn as [Hn1 Hn2].
    destruct Hm as [H|H]; eauto.
  - destruct Hm as (mid & H1 & _). eauto.
Qed.

Lemma no_digit_here (s : list ascii) :
  forallb (fun c => negb (is_digit c)) s = true -> existsb is_digit s = false.
Proof.
  induction s as [|c s IH]; [reflexivity|]. cbn. intros H.
  apply andb_true_iff in H. destruct H as [Hc Hs].
  apply negb_true_iff in Hc. rewrite Hc, IH by assumption. reflexivity.
Qed.

Lemma match_here_no_digit r p s :
  needs_digit r = true ->
  forallb (fun c => negb (is_digit c)) s = true ->
  match_here ic r p s = None.
Proof.
  intros Hn Hs. destruct (match_here ic r p s) as [m|] eqn:Hm; [|reflexivity].
  apply match_here_sound in Hm.
  pose proof (matches_takes_digit r _ _ Hm Hn) as Hd. cbn in Hd.
  rewrite no_digit_here in Hd by assumption. discriminate.
Qed.

Lemma search_from_no_digit r s : forall p,
  needs_digit r = true ->
  forallb (fun c => negb (is_digit c)) s = true ->
  search_from ic r p s = None.
Proof.
  induction s as [|c s IH]; intros p Hn Hs; cbn [search_from];
    rewrite match_here_no_digit by assumption; [reflexivity|].
  cbn in Hs. apply andb_true_iff in Hs. destruct Hs as [_ Hs]. auto.
Qed.

Lemma findall_from_no_digit r s : forall p skip,
  needs_digit r = true ->
  forallb (fun c => negb (is_digit c)) s = true ->
  findall_from ic r p s skip = [].
Proof.
  induction s as [|c s IH]; intros p skip Hn Hs; [reflexivity|].
  cbn [findall_from].
  rewrite match_here_no_digit by assumption.
  cbn in Hs. apply andb_true_iff in Hs. destruct Hs as [_ Hs].
  destruct skip; auto.
Qed.

End Pieces.

Lemma search_no_digit r ic lines :
  needs_digit r = true -> no_digit lines -> search r ic lines = None.
Proof. intros Hn Hl. apply search_from_no_digit; assumption. Qed.

Lemma findall_no_digit r ic lines :
  needs_digit r = true -> no_digit lines -> findall r ic lines = [].
Proof.
  intros Hn Hl. unfold findall. rewrite findall_from_no_digit by assumption.
  reflexivity.
Qed.

(** A piece of a text without digits has none. *)
Lemma piece_no_digit w text :
  piece_of w text ->
  forallb (fun c => negb (is_digit c)) text = true ->
  forallb (fun c => negb (is_digit c)) w = true.
Proof.
  intros (a & b & ->) H. rewrite !forallb_app in H.
  apply andb_true_iff in H. destruct H as [_ H].
  apply andb_true_iff in H. tauto.
Qed.

Lemma split_dot_parts cs : forall ip fo x,
  split_dot cs = (ip, fo) -> In x (ip ++ default [] fo) -> In x cs.
Proof.
  induction cs as [|c cs IH]; intros ip fo x Hs Hin; cbn in Hs.
  - injection Hs as <- <-. destruct Hin.
  - destruct (Ascii.eqb c ".").
    + injection Hs as <- <-. right. exact Hin.
    + destruct (split_dot cs) as [a b]. injection Hs as <- <-.
      destruct Hin as [->|Hin]; [left; reflexivity|].
      right. eapply IH; eauto.
Qed.

Lemma all_digits_none (l cs : list ascii) :
  (forall x, In x l -> In x cs) ->
  forallb (fun c => negb (is_digit c)) cs = true ->
  forallb is_digit l = true -> l = [].
Proof.
  intros Hsub Hcs Hl. destruct l as [|x l]; [reflexivity|exfalso].
  cbn in Hl. apply andb_true_iff in Hl. destruct Hl as [Hx _].
  rewrite forallb_forall in Hcs.
  specialize (Hcs x (Hsub x (or_introl eq_refl))).
  rewrite Hx in Hcs. discriminate.
Qed.

Lemma py_float_no_digit s :
  forallb (fun c => negb (is_digit c)) (list_ascii_of_string s) = true ->
  py_float s = inl ValueError.
Proof.
  intros H. unfold py_float.
  destruct (split_dot (list_ascii_of_string s)) as [ip fo] eqn:Hs.
  destruct (forallb is_digit ip) eqn:Hip; [|reflexivity].
  destruct (forallb is_digit (default [] fo)) eqn:Hfp; [|reflexivity].
  assert (ip = []) as ->.
  { apply (all_digits_none _ (list_ascii_of_string s)); auto.
    intros x Hx. eapply split_dot_parts; eauto. apply in_or_app. auto. }
  assert (default [] fo = []) as ->.
  { apply (all_digits_none _ (list_ascii_of_string s)); auto.
    intros x Hx. eapply split_dot_parts; eauto. }
  reflexivity.
Qed.

Lemma remove_commas_no_digit s :
  forallb (fun c => negb (is_digit c)) (list_ascii_of_string s) = true ->
  forallb (fun c => negb (is_digit c))
          (list_ascii_of_string (remove_commas s)) = true.
Proof.
  intros H. unfold remove_commas. rewrite list_ascii_of_string_of_list_ascii.
  rewrite forallb_forall in *. intros x Hx.
  apply H. apply list_elem_of_In in Hx. apply list_elem_of_In.
  apply list_elem_of_filter in Hx. tauto.
Qed.

Lemma accepts_no_digit p lines :
  no_digit lines -> accepts p lines = None.
Proof.
  intros Hl. unfold accepts.
  destruct (search p true lines) as [m|] eqn:Hs; [|reflexivity].
  destruct (group m 1) as [s|] eqn:Hg; [|reflexivity].
  rewrite py_float_no_digit; [reflexivity|].
  apply remove_commas_no_digit.
  exact (piece_no_digit _ _ (group_piece true p lines m 1 s Hs Hg) Hl).
Qed.

(** ** Where the fields come from *)

Lemma date_loop_source ps lines f :
  date (date_loop ps lines f) = date f \/
  exists p m, In p ps /\ search p true lines = Some m /\
              date (date_loop ps lines f) = group m 1.
Proof.
  induction ps as [|p ps IH]; [left; reflexivity|]. cbn [date_loop].
  destruct (search p true lines) as [m|] eqn:Hs.
  - right. exists p, m. cbn. auto.
  - destruct IH as [IH|(q & m & Hq & Hm & IH)]; [left; assumption|].
    right. exists q, m. cbn. auto.
Qed.

Lemma first_accepted_source ps lines t :
  first_accepted ps lines = Some t ->
  exists p, In p ps /\ accepts p lines = Some t.
Proof.
  induction ps as [|p ps IH]; [discriminate|]. cbn [first_accepted].
  destruct (accepts p lines) as [t'|] eqn:Ha.
  - intros [= <-]. exists p. cbn. auto.
  - intros H. destruct (IH H) as (q & Hq & Hq'). exists q. cbn. auto.
Qed.

Lemma accepts_source p lines t :
  accepts p lines = Some t ->
  exists s, piece_of (chars s) (chars lines) /\ t = remove_commas s.
Proof.
  unfold accepts.
  destruct (search p true lines) as [m|] eqn:Hs; [|discriminate].
  destruct (group m 1) as [s|] eqn:Hg; [|discriminate].
  destruct (py_float (remove_commas s)); [discriminate|].
  intros [= <-]. exists s. split; [|reflexivity].
  exact (group_piece true p lines m 1 s Hs Hg).
Qed.

Lemma fallback_total_source lines t :
  fallback_total lines = Some t ->
  exists x, In x (price_values lines) /\ t = py_str x.
Proof.
  unfold fallback_total.
  destruct (price_values lines) as [|a l]; [discriminate|].
  intros [= <-]. exists (fold_left bigger l a). split; [|reflexivity].
  apply fold_bigger_spec.
Qed.

Lemma times_of_source lines t :
  fst (times_of lines) = Some t \/ snd (times_of lines) = Some t ->
  (exists m i, search time_range_pattern true lines = Some m /\
               group m i = Some t) \/
  In t (findall time_pattern false lines).
Proof.
  unfold times_of, generic_pairing.
  destruct (search time_range_pattern true lines) as [m|] eqn:Hs.
  - cbn. intros [H|H]; left; eauto.
  - destruct (findall time_pattern false lines) as [|a [|b l]]; cbn;
      intros [H|H]; try discriminate; injection H as ->; right; cbn; auto.
Qed.

(** ** The shape of a time *)

Lemma a_time_core ic st mid w :
  matches ic a_time st mid -> rest st = w ++ rest mid -> core_start w.
Proof.
  intros Hm Hr.
  destruct (a_time_shape ic _ _ Hm) as (D & DD & trail & Heq & HD & HlD & HDD & HlDD & _).
  rewrite Hr in Heq.
  replace (D ++ ":"%char :: DD ++ trail ++ rest mid)
    with ((D ++ ":"%char :: DD ++ trail) ++ rest mid) in Heq
    by (rewrite <- !app_assoc; cbn; rewrite <- !app_assoc; reflexivity).
  apply app_inv_tail in Heq. subst w.
  exists D, DD, trail. auto.
Qed.

Lemma time_pattern_grp_ok ic : grp_ok ic core_start time_pattern.
Proof.
  cbn. repeat split; auto. intros st mid w. apply a_time_core.
Qed.

Lemma time_range_pattern_grp_ok ic : grp_ok ic core_start time_range_pattern.
Proof.
  cbn. repeat split; auto; intros st mid w; apply a_time_core.
Qed.

Lemma findall_time_core lines t :
  In t (findall time_pattern false lines) -> core_start (chars t).
Proof.
  unfold findall. intros Hin. apply in_map_iff in Hin.
  destruct Hin as (o & <- & Hin).
  destruct (findall_from_group false core_start time_pattern _ _ _ o
              (time_pattern_grp_ok false) eq_refl Hin) as (w & -> & Hw).
  unfold chars. cbn. rewrite list_ascii_of_string_of_list_ascii. exact Hw.
Qed.

Lemma range_group_core lines m i t :
  search time_range_pattern true lines = Some m -> group m i = Some t ->
  core_start (chars t).
Proof.
  unfold search, group. intros Hs Hg.
  destruct (lookup_cap i (caps m)) as [w|] eqn:Hl; [|discriminate].
  injection Hg as <-. unfold chars.
  rewrite list_ascii_of_string_of_list_ascii.
  destruct (search_from_sound true _ _ _ _ Hs) as (p' & s' & Hm).
  pose proof (matches_caps_inv true core_start _ _ _
                (time_range_pattern_grp_ok true) Hm (List.Forall_nil _)) as Hc.
  apply lookup_cap_In in Hl. rewrite List.Forall_forall in Hc.
  exact (Hc _ Hl).
Qed.

Lemma parse_fields_sources (lines : string) (f : fields) :
  parse_fields lines = inr f ->
  (forall d, date f = Some d -> piece_of (chars d) (chars lines)) /\
  (forall t, start_time f = Some t -> piece_of (chars t) (chars lines)) /\
  (forall t, end_time f = Some t -> piece_of (chars t) (chars lines)) /\
  (forall t, total f = Some t ->
     (exists s, piece_of (chars s) (chars lines) /\ t = remove_commas s) \/
     (exists x, In x (price_values lines) /\ t = py_str x)).
Proof.
  rewrite parse_fields_eq. intros [= <-]. cbn [date start_time end_time total].
  assert (Ht : forall t,
            fst (times_of lines) = Some t \/ snd (times_of lines) = Some t ->
            piece_of (chars t) (chars lines)).
  { intros t H. destruct (times_of_source lines t H) as [(m & i & Hs & Hg)|Hin].
    - exact (group_piece true _ lines m i t Hs Hg).
    - exact (findall_piece false _ lines t Hin). }
  repeat split.
  - intros d Hd. unfold date_of in Hd.
    destruct (date_loop_source date_patterns lines empty_fields)
      as [H|(p & m & _ & Hs & H)]; rewrite H in Hd; [discriminate|].
    exact (group_piece true p lines m 1 d Hs Hd).
  - intros t H. apply Ht. auto.
  - intros t H. apply Ht. auto.
  - intros t. unfold total_of.
    destruct (first_accepted total_patterns lines) as [t'|] eqn:Hf.
    + intros [= <-]. left.
      destruct (first_accepted_source _ _ _ Hf) as (p & _ & Ha).
      exact (accepts_source p lines t' Ha).
    + intros H. right. exact (fallback_total_source lines t H).
Qed.

(** X1.  Whatever [parse_fields] puts in the date and in the two times is
    a piece of the text, character for character; a total is a piece of the
    text with its commas removed, or the [str] of the value of one of the
    price tokens of the text. *)
Theorem fields_come_from_text (lines : string) (f : fields) :
  parse_fields lines = inr f ->
  (forall d, date f = Some d -> piece_of (chars d) (chars lines)) /\
  (forall t, start_time f = Some t -> piece_of (chars t) (chars lines)) /\
  (forall t, end_time f = Some t -> piece_of (chars t) (chars lines)) /\
  (forall t, total f = Some t ->
     (exists s, piece_of (chars s) (chars lines) /\ t = remove_commas s) \/
     (exists x, In x (price_values lines) /\ t = py_str x)).
Proof. apply parse_fields_sources. Qed.

Lemma fields_come_from_text_witness :
  exists f, parse_fields "Paid 1,250.00 AED on 2024-09-24 at 9:15" = inr f /\
    (forall d, date f = Some d ->
       piece_of (chars d) (chars "Paid 1,250.00 AED on 2024-09-24 at 9:15")) /\
    total f = Some "1250.00".
Proof.
  eexists. split; [vm_compute; reflexivity|]. split.
  - apply (fields_come_from_text "Paid 1,250.00 AED on 2024-09-24 at 9:15").
    vm_compute. reflexivity.
  - reflexivity.
Defined.

(** X2.  A time that [parse_fields] returns starts with one or two digits,
    a colon and two digits; and there is no end time without a start
    time. *)
Theorem times_well_formed (lines : string) (f : fields) :
  parse_fields lines = inr f ->
  (forall t, start_time f = Some t \/ end_time f = Some t ->
     core_start (chars t)) /\
  (is_Some (end_time f) -> is_Some (start_time f)).
Proof.
  rewrite parse_fields_eq. intros [= <-]. cbn [start_time end_time]. split.
  - intros t H.
    destruct (times_of_source lines t H) as [(m & i & Hs & Hg)|Hin].
    + exact (range_group_core lines m i t Hs Hg).
    + exact (findall_time_core lines t Hin).
  - unfold times_of, generic_pairing.
    destruct (search time_range_pattern true lines) as [m|] eqn:Hs.
    + intros _. cbn. exact (search_defines time_range_pattern true lines m 1 eq_refl Hs).
    + destruct (findall time_pattern false lines) as [|a [|b l]]; cbn;
        intros [x Hx]; try discriminate; eauto.
Qed.

Lemma times_well_formed_witness :
  exists f, parse_fields "Open 9:00 - 17:30" = inr f /\
    is_Some (start_time f) /\
    (forall t, start_time f = Some t \/ end_time f = Some t ->
       core_start (chars t)).
Proof.
  eexists. split; [vm_compute; reflexivity|].
  pose proof (times_well_formed "Open 9:00 - 17:30" _
                ltac:(vm_compute; reflexivity)) as [Hshape Hstart].
  split; [|exact Hshape].
  apply Hstart. eexists. reflexivity.
Defined.

(** X3.  From a text without a single digit [parse_fields] extracts
    nothing: the four fields are [None], whatever words, separators or
    currency codes the text has. *)
Theorem no_digit_no_fields (lines : string) :
  no_digit lines -> parse_fields lines = inr empty_fields.
Proof.
  intros Hl. rewrite parse_fields_eq. f_equal.
  assert (Hd : date_of lines = None).
  { unfold date_of. rewrite date_loop_none; [reflexivity|].
    intros q Hq. apply search_no_digit; [|assumption].
    cbn in Hq. intuition (subst; reflexivity). }
  assert (Ht : times_of lines = (None, None)).
  { unfold times_of, generic_pairing.
    rewrite search_no_digit by (auto; reflexivity).
    rewrite findall_no_digit by (auto; reflexivity). reflexivity. }
  assert (Hp : total_of lines = None).
  { unfold total_of. rewrite first_accepted_none
      by (intros q _; apply accepts_no_digit; assumption).
    unfold fallback_total, price_values.
    rewrite findall_no_digit by (auto; reflexivity). reflexivity. }
  rewrite Hd, Ht, Hp. reflexivity.
Qed.

Lemma no_digit_no_fields_witness :
  parse_fields "TOTAL: AED , thank you - see you soon" = inr empty_fields.
Proof. apply no_digit_no_fields. vm_compute. reflexivity. Defined.

End ParseFieldsFacts.

(* ===================================================================== *)
(** * More on [write_csv]                                                 *)
(* ===================================================================== *)

Module CsvWriterMore.
Import Csv CsvWriter CsvWriterFacts.
Local Open Scope list_scope.

Lemma world_eq (w w' : world) :
  fs w = fs w' -> heap w = heap w' -> ticks w = ticks w' ->
  timestamps w = timestamps w' -> w = w'.
Proof. destruct w, w'. cbn. intros -> -> -> ->. reflexivity. Qed.

(** The stamping loop does not look at the files. *)
Lemma stamp_row_agree w w' l :
  heap w = heap w' -> ticks w = ticks w' -> timestamps w = timestamps w' ->
  heap (stamp_row w l) = heap (stamp_row w' l) /\
  ticks (stamp_row w l) = ticks (stamp_row w' l) /\
  timestamps (stamp_row w l) = timestamps (stamp_row w' l).
Proof.
  intros Hh Ht Hts. unfold stamp_row.
  rewrite (row_of_heap w w' l Hh).
  destruct (needs_stamp (row_of w' l)); cbn; rewrite ?Hh, ?Ht, ?Hts; auto.
Qed.

Lemma stamp_rows_agree rows_ : forall w w',
  heap w = heap w' -> ticks w = ticks w' -> timestamps w = timestamps w' ->
  heap (stamp_rows rows_ w) = heap (stamp_rows rows_ w') /\
  ticks (stamp_rows rows_ w) = ticks (stamp_rows rows_ w') /\
  timestamps (stamp_rows rows_ w) = timestamps (stamp_rows rows_ w').
Proof.
  induction rows_ as [|l rows_ IH]; intros w w' Hh Ht Hts; [auto|].
  change (stamp_rows (l :: rows_) w) with (stamp_rows rows_ (stamp_row w l)).
  change (stamp_rows (l :: rows_) w') with (stamp_rows rows_ (stamp_row w' l)).
  destruct (stamp_row_agree w w' l Hh Ht Hts) as (H1 & H2 & H3).
  apply IH; assumption.
Qed.

Lemma stamp_rows_app r1 r2 w :
  stamp_rows (r1 ++ r2) w = stamp_rows r2 (stamp_rows r1 w).
Proof. unfold stamp_rows. apply foldl_app. Qed.

(** With a clock that gives no empty text, a row that went through the
    loop has its stamp. *)
Lemma stamp_row_done w l :
  clock_ok w -> needs_stamp (row_of (stamp_row w l) l) = false.
Proof.
  intros Hc. unfold stamp_row.
  destruct (needs_stamp (row_of w l)) eqn:Hn; [|assumption].
  rewrite row_of_insert_eq. unfold needs_stamp.
  rewrite lookup_insert_eq. cbn.
  destruct (timestamps w (ticks w)) eqn:Ht; [|reflexivity].
  destruct (Hc _ Ht).
Qed.

Lemma stamp_row_clock w l : clock_ok w -> clock_ok (stamp_row w l).
Proof.
  intros Hc k. destruct (stamp_row_frame w l) as (_ & -> & _). apply Hc.
Qed.

Lemma stamp_rows_done rows_ : forall w l,
  clock_ok w -> In l rows_ ->
  needs_stamp (row_of (stamp_rows rows_ w) l) = false.
Proof.
  induction rows_ as [|l0 rows_ IH]; intros w l Hc Hin; [destruct Hin|].
  change (stamp_rows (l0 :: rows_) w) with (stamp_rows rows_ (stamp_row w l0)).
  destruct (in_dec Nat.eq_dec l rows_) as [Hl|Hl].
  - apply IH; [apply stamp_row_clock|]; assumption.
  - destruct Hin as [->|Hin]; [|contradiction].
    rewrite stamp_rows_stamped; apply stamp_row_done; assumption.
Qed.

Lemma rows_text_heap rows_ w w' :
  (forall l, In l rows_ -> row_of w l = row_of w' l) ->
  rows_text rows_ w = rows_text rows_ w'.
Proof.
  intros H. unfold rows_text. induction rows_ as [|l rows_ IH]; [reflexivity|].
  cbn. rewrite (H l) by (left; reflexivity). f_equal.
  apply IH. intros l' Hl'. apply H. right. assumption.
Qed.

Lemma rows_text_app r1 r2 w :
  rows_text (r1 ++ r2) w = rows_text r1 w ++ rows_text r2 w.
Proof. unfold rows_text. apply flat_map_app. Qed.

(** The file after a call: what was there, or the header, then the rows. *)
Lemma write_csv_fs rows_ path w :
  fs (write_csv rows_ path w) =
  <[path := default writeheader (fs w !! path)
            ++ rows_text rows_ (write_csv rows_ path w)]> (fs w).
Proof.
  destruct (fs w !! path) as [old|] eqn:Hp.
  - apply write_csv_old. assumption.
  - apply write_csv_new. assumption.
Qed.

(** X4.  Two calls of [write_csv] on the same path, one after the other,
    leave the files, the rows and the clock as one call with the two lists
    of rows joined does (the clock giving no empty text). *)
Theorem write_csv_twice (r1 r2 : list nat) (path : string) (w : world) :
  clock_ok w ->
  write_csv r2 path (write_csv r1 path w) = write_csv (r1 ++ r2) path w.
Proof.
  intros Hc.
  set (w1 := write_csv r1 path w).
  set (w2 := write_csv r2 path w1).
  set (w12 := write_csv (r1 ++ r2) path w).
  destruct (write_csv_heap r1 path w) as (Hh1 & Ht1 & Hts1).
  destruct (write_csv_heap r2 path w1) as (Hh2 & Ht2 & Hts2).
  destruct (write_csv_heap (r1 ++ r2) path w) as (Hh12 & Ht12 & Hts12).
  fold w1 in Hh1, Ht1, Hts1. fold w2 in Hh2, Ht2, Hts2.
  fold w12 in Hh12, Ht12, Hts12.
  rewrite stamp_rows_app in Hh12, Ht12.
  assert (Hts1' : timestamps w1 = timestamps (stamp_rows r1 w)).
  { rewrite Hts1. symmetry. apply stamp_rows_frame. }
  destruct (stamp_rows_agree r2 w1 (stamp_rows r1 w) Hh1 Ht1 Hts1')
    as (Ha & Hb & _).
  assert (Hheap : heap w2 = heap w12) by congruence.
  apply world_eq; [|assumption|congruence|congruence].
  unfold w2, w12. rewrite !write_csv_fs. fold w1 w2 w12.
  assert (Hfs1 : fs w1 = <[path := default writeheader (fs w !! path)
                                    ++ rows_text r1 w1]> (fs w))
    by apply write_csv_fs.
  rewrite Hfs1.
  rewrite lookup_insert_eq. cbn [default id]. rewrite insert_insert_eq.
  f_equal. rewrite <- app_assoc. f_equal.
  rewrite rows_text_app. f_equal.
  - apply rows_text_heap. intros l Hl.
    rewrite (row_of_heap w12 w2 l (eq_sym Hheap)).
    rewrite (row_of_heap w2 (stamp_rows r2 w1) l Hh2).
    symmetry. apply stamp_rows_stamped.
    rewrite (row_of_heap w1 (stamp_rows r1 w) l Hh1).
    apply stamp_rows_done; assumption.
  - apply rows_text_heap. intros l _. apply row_of_heap. assumption.
Qed.

Lemma test_clock_ok : clock_ok test_world.
Proof. intros [|[|k]]; discriminate. Qed.

Lemma write_csv_twice_witness :
  write_csv [1] test_path (write_csv [0] test_path test_world) =
  write_csv [0; 1] test_path test_world.
Proof. exact (write_csv_twice [0] [1] test_path test_world test_clock_ok). Defined.

(** X5.  A call of [write_csv] with no rows changes nothing when the file
    is there; when it is not, the call makes the file, with the header
    alone, and [read_csv] finds no row in it. *)
Theorem write_csv_no_rows :
  (forall path w, is_Some (fs w !! path) -> write_csv [] path w = w) /\
  (forall path w, fs w !! path = None ->
     fs (write_csv [] path w) = <[path := writeheader]> (fs w) /\
     read_csv path (write_csv [] path w) = inr []).
Proof.
  split.
  - intros path w [old Hold]. apply world_eq; try apply write_csv_heap.
    rewrite write_csv_fs, Hold. cbn. rewrite app_nil_r.
    apply insert_id. assumption.
  - intros path w Hnew. split.
    + rewrite write_csv_fs, Hnew. cbn. rewrite app_nil_r. reflexivity.
    + rewrite read_csv_new; [reflexivity|assumption|].
      intros l key [].
Qed.

(** ** The readings of the clock *)

Lemma unstamped_other w l rows_ :
  ~ In l rows_ -> unstamped (stamp_row w l) rows_ = unstamped w rows_.
Proof.
  intros Hl. unfold unstamped. apply filter_ext_in. intros l' Hl'.
  unfold row_of. rewrite stamp_row_other; [reflexivity|].
  intros ->. contradiction.
Qed.

Lemma stamp_row_ticks w l :
  ticks (stamp_row w l) = ticks w + length (unstamped w [l]).
Proof.
  unfold stamp_row, unstamped. cbn.
  destruct (needs_stamp (row_of w l)); cbn; lia.
Qed.

Lemma stamp_rows_ticks rows_ : forall w,
  NoDup rows_ ->
  ticks (stamp_rows rows_ w) = ticks w + length (unstamped w rows_).
Proof.
  induction rows_ as [|l rows_ IH]; intros w Hnd; [cbn; lia|].
  apply NoDup_cons in Hnd. destruct Hnd as [Hl Hnd].
  rewrite list_elem_of_In in Hl.
  change (stamp_rows (l :: rows_) w) with (stamp_rows rows_ (stamp_row w l)).
  rewrite IH by assumption. rewrite unstamped_other by assumption.
  rewrite stamp_row_ticks. unfold unstamped. cbn.
  destruct (needs_stamp (row_of w l)); cbn; lia.
Qed.

Lemma stamp_rows_nth rows_ : forall w i l,
  NoDup rows_ -> rows_ !! i = Some l -> needs_stamp (row_of w l) = true ->
  row_of (stamp_rows rows_ w) l !! "processed_at" =
  Some (PyStr (timestamps w (ticks w + length (unstamped w (take i rows_))))).
Proof.
  induction rows_ as [|l0 rows_ IH]; intros w i l Hnd Hi Hn; [discriminate|].
  apply NoDup_cons in Hnd. destruct Hnd as [Hl0 Hnd].
  rewrite list_elem_of_In in Hl0.
  change (stamp_rows (l0 :: rows_) w) with (stamp_rows rows_ (stamp_row w l0)).
  destruct i as [|i]; cbn in Hi.
  - injection Hi as ->. cbn. rewrite Nat.add_0_r.
    unfold row_of at 1. rewrite stamp_rows_other by assumption.
    unfold stamp_row. rewrite Hn. cbn. rewrite lookup_insert_eq. cbn.
    apply lookup_insert_eq.
  - assert (Hne : l0 <> l).
    { intros ->. apply Hl0. apply list_elem_of_In.
      eapply list_elem_of_lookup_2. eassumption. }
    rewrite (IH (stamp_row w l0) i l Hnd Hi).
    + destruct (stamp_row_frame w l0) as (_ & -> & _).
      rewrite unstamped_other.
      * rewrite stamp_row_ticks. cbn [take]. unfold unstamped. cbn.
        destruct (needs_stamp (row_of w l0)); cbn;
          do 3 f_equal; lia.
      * intros Hin. apply Hl0. rewrite <- (take_drop i rows_).
        apply in_or_app. left. assumption.
    + unfold row_of. rewrite stamp_row_other by assumption. exact Hn.
Qed.

(** X6.  When the rows of a call are different dictionaries, [write_csv]
    reads the clock once for each row that has no stamp, in the order of
    the rows: such a row at place [i] gets the reading that comes after as
    many readings as there are unstamped rows before it. *)
Theorem write_csv_stamps_in_order (rows_ : list nat) (path : string) (w : world) :
  NoDup rows_ ->
  ticks (write_csv rows_ path w) = ticks w + length (unstamped w rows_) /\
  (forall i l, rows_ !! i = Some l -> needs_stamp (row_of w l) = true ->
     row_of (write_csv rows_ path w) l !! "processed_at" =
     Some (PyStr (timestamps w
                    (ticks w + length (unstamped w (take i rows_)))))).
Proof.
  intros Hnd. destruct (write_csv_heap rows_ path w) as (Hh & Ht & _). split.
  - rewrite Ht. apply stamp_rows_ticks. assumption.
  - intros i l Hi Hn. rewrite (row_of_heap _ _ l Hh).
    apply stamp_rows_nth; assumption.
Qed.

Lemma write_csv_stamps_in_order_witness :
  ticks (write_csv [0; 1] test_path test_world) = 2 /\
  row_of (write_csv [0; 1] test_path test_world) 1 !! "processed_at" =
    Some (PyStr "2024-01-17T09:00:00.000002").
Proof.
  destruct (write_csv_stamps_in_order [0; 1] test_path test_world) as [Ht Hr].
  - repeat constructor; cbn; intros H; inversion H; subst;
      match goal with H' : _ ∈ [] |- _ => inversion H' end.
  - split; [exact Ht|]. exact (Hr 1 1 eq_refl eq_refl).
Defined.

End CsvWriterMore.

(* ===================================================================== *)
(** * Properties of [extract_blocks]                                      *)
(* ===================================================================== *)

Module ExtractBlocksFacts.
Import PyText CsvWriter CsvGenerator Io ExtractBlocks Samples.
Local Open Scope list_scope.

(** ** The loops over the response *)

Lemma field_lines_eq acc field : field_lines acc field = acc ++ value_text field.
Proof.
  unfold field_lines, value_text.
  destruct (ValueDetection field) as [vd|]; [|symmetry; apply app_nil_r].
  cbn. destruct (nonempty _); [reflexivity|symmetry; apply app_nil_r].
Qed.

Lemma fields_fold fields_ : forall acc,
  foldl field_lines acc fields_ = acc ++ flat_map value_text fields_.
Proof.
  induction fields_ as [|f fields_ IH]; intros acc; cbn.
  - symmetry. apply app_nil_r.
  - rewrite IH, field_lines_eq, <- app_assoc. reflexivity.
Qed.

Lemma items_fold lis : forall acc,
  foldl item_lines acc lis =
  acc ++ flat_map value_text (flat_map item_fields lis).
Proof.
  induction lis as [|li lis IH]; intros acc; cbn.
  - symmetry. apply app_nil_r.
  - rewrite IH. unfold item_lines at 1. rewrite fields_fold.
    rewrite flat_map_app, <- app_assoc. reflexivity.
Qed.

Lemma groups_fold gs : forall acc,
  foldl group_lines acc gs =
  acc ++ flat_map value_text
           (flat_map item_fields (flat_map group_line_items gs)).
Proof.
  induction gs as [|g gs IH]; intros acc; cbn.
  - symmetry. apply app_nil_r.
  - rewrite IH. unfold group_lines at 1. rewrite items_fold.
    rewrite !flat_map_app, <- app_assoc. reflexivity.
Qed.

Lemma document_lines_eq acc doc :
  document_lines acc doc = acc ++ flat_map value_text (document_fields doc).
Proof.
  unfold document_lines, document_fields, document_line_items.
  rewrite groups_fold, fields_fold, flat_map_app, <- app_assoc. reflexivity.
Qed.

Lemma documents_fold docs : forall acc,
  foldl document_lines acc docs =
  acc ++ flat_map value_text (flat_map document_fields docs).
Proof.
  induction docs as [|doc docs IH]; intros acc; cbn.
  - symmetry. apply app_nil_r.
  - rewrite IH, document_lines_eq, flat_map_app, <- app_assoc. reflexivity.
Qed.

Lemma among_In t l : among t l = true <-> In t l.
Proof.
  unfold among. rewrite existsb_exists. split.
  - intros (x & Hx & He). apply String.eqb_eq in He. subst. assumption.
  - intros H. exists t. split; [assumption|apply String.eqb_refl].
Qed.

Lemma among_false t l : among t l = false <-> ~ In t l.
Proof.
  rewrite <- among_In. destruct (among t l); split; intros; congruence.
Qed.

Lemma blocks_fold bs : forall acc,
  foldl block_lines acc bs = acc ++ fresh_texts acc (flat_map line_text bs).
Proof.
  induction bs as [|b bs IH]; intros acc; cbn.
  - symmetry. apply app_nil_r.
  - rewrite IH. unfold block_lines, line_text.
    destruct (bool_decide (BlockType b = Some "LINE")); [|reflexivity].
    cbn. destruct (nonempty (default "" (BlockText b))); [|reflexivity].
    cbn. destruct (among (default "" (BlockText b)) acc); cbn; [reflexivity|].
    rewrite <- app_assoc. reflexivity.
Qed.

Lemma all_text_lines_eq r :
  all_text_lines r =
  expense_texts r ++ fresh_texts (expense_texts r) (block_texts r).
Proof.
  unfold all_text_lines, expense_texts, block_texts.
  rewrite blocks_fold, documents_fold. reflexivity.
Qed.

(** ** The texts that the blocks add *)

Lemma fresh_texts_In texts : forall seen t,
  In t (fresh_texts seen texts) -> In t texts /\ ~ In t seen.
Proof.
  induction texts as [|x texts IH]; intros seen t Hin; [destruct Hin|].
  cbn in Hin. destruct (among x seen) eqn:Ha.
  - destruct (IH _ _ Hin). split; [right|]; assumption.
  - destruct Hin as [<-|Hin].
    + split; [left; reflexivity|]. apply among_false. assumption.
    + destruct (IH _ _ Hin) as [H1 H2]. split; [right; assumption|].
      intros H. apply H2. apply in_or_app. left. assumption.
Qed.

Lemma fresh_texts_all texts : forall seen t,
  In t texts -> In t seen \/ In t (fresh_texts seen texts).
Proof.
  induction texts as [|x texts IH]; intros seen t Hin; [destruct Hin|].
  cbn. destruct (among x seen) eqn:Ha.
  - destruct Hin as [<-|Hin]; [left; apply among_In; assumption|].
    apply IH. assumption.
  - destruct Hin as [<-|Hin]; [right; left; reflexivity|].
    destruct (IH (seen ++ [x]) t Hin) as [H|H]; [|right; right; assumption].
    apply in_app_or in H. destruct H as [H|[<-|[]]]; [left; assumption|].
    right. left. reflexivity.
Qed.

Lemma fresh_texts_NoDup texts : forall seen, NoDup (fresh_texts seen texts).
Proof.
  induction texts as [|x texts IH]; intros seen; cbn; [constructor|].
  destruct (among x seen); [apply IH|].
  constructor; [|apply IH].
  rewrite list_elem_of_In. intros H. apply fresh_texts_In in H.
  destruct H as [_ H]. apply H. apply in_or_app. right. left. reflexivity.
Qed.

Lemma value_text_nonempty field t : In t (value_text field) -> t <> "".
Proof.
  unfold value_text. destruct (ValueDetection field) as [vd|]; [|intros []].
  cbn. destruct (nonempty (default "" (Text vd))) eqn:Hn; [|intros []].
  intros [<-|[]] He. rewrite He in Hn. discriminate.
Qed.

Lemma line_text_nonempty b t : In t (line_text b) -> t <> "".
Proof.
  unfold line_text. destruct (bool_decide _); [|intros []].
  cbn. destruct (nonempty (default "" (BlockText b))) eqn:Hn; [|intros []].
  intros [<-|[]] He. rewrite He in Hn. discriminate.
Qed.

(** X7.  The lines that [extract_blocks] joins are the texts of the values
    of the expense documents, in the order of the loops and with their
    repetitions, followed by the text of each LINE block that is not among
    the lines before it.  No line is empty, no text of a value or of a LINE
    block is lost, and a block never adds a line that is already there. *)
Theorem all_text_lines_spec (r : textract_response) :
  all_text_lines r =
    expense_texts r ++ fresh_texts (expense_texts r) (block_texts r) /\
  (forall t, In t (all_text_lines r) <->
             In t (expense_texts r) \/ In t (block_texts r)) /\
  NoDup (fresh_texts (expense_texts r) (block_texts r)) /\
  (forall t, In t (fresh_texts (expense_texts r) (block_texts r)) ->
             ~ In t (expense_texts r)) /\
  ~ In "" (all_text_lines r).
Proof.
  assert (Hin : forall t, In t (all_text_lines r) <->
                In t (expense_texts r) \/ In t (block_texts r)).
  { intros t. rewrite all_text_lines_eq, in_app_iff. split.
    - intros [H|H]; [left; assumption|]. right.
      apply fresh_texts_In in H. tauto.
    - intros [H|H]; [left; assumption|].
      apply fresh_texts_all. assumption. }
  split; [apply all_text_lines_eq|]. split; [exact Hin|].
  split; [apply fresh_texts_NoDup|]. split.
  - intros t H. apply fresh_texts_In in H. tauto.
  - intros H. apply Hin in H. destruct H as [H|H].
    + unfold expense_texts in H. apply in_flat_map in H.
      destruct H as (f & _ & H). exact (value_text_nonempty f "" H eq_refl).
    + unfold block_texts in H. apply in_flat_map in H.
      destruct H as (b & _ & H). exact (line_text_nonempty b "" H eq_refl).
Qed.

(** ** The call as a whole *)

Lemma extract_blocks_eq sv path st :
  extract_blocks sv path st =
  match fs (world st) !! path with
  | None =>
      (inl (FileNotFoundError ("Image file not found: " ++ path)%string), st)
  | Some image_bytes =>
      (match boto3_client sv (region_of (environ st)) with
       | inl e =>
           inl (Exception
             ("Failed to create Textract client. Check AWS credentials: "
              ++ e)%string)
       | inr analyze_expense =>
           match analyze_expense (bytes_sent sv image_bytes) with
           | inl e => inl (Exception ("Textract API error: " ++ e)%string)
           | inr response =>
               inr (join TextractHandler.newline (all_text_lines response))
           end
       end,
       match preprocess sv image_bytes with
       | inr _ => st
       | inl e =>
           State (world st) (environ st)
                 (stdout st ++ [("Warning: Could not preprocess image: " ++ e)%string])
       end)
  end.
Proof.
  unfold extract_blocks, io_bind, path_exists, exists_path, read_bytes,
    prepare, bytes_sent, region_of, getenv.
  destruct (fs (world st) !! path) as [image_bytes|] eqn:Hp.
  - rewrite bool_decide_eq_true_2 by eauto. cbn. rewrite Hp.
    destruct (preprocess sv image_bytes) as [e|jpeg]; cbn;
      destruct (boto3_client sv _) as [e'|analyze_expense]; cbn;
      try reflexivity;
      destruct (analyze_expense _); reflexivity.
  - rewrite bool_decide_eq_false_2; [reflexivity|].
    intros [x Hx]. discriminate.
Qed.

(** X8.  When nothing is at the path, [extract_blocks] raises
    [FileNotFoundError] with its own text, whatever the services are.  When
    the file is there and is read, it raises in two cases only: with a text
    that starts with the words on the Textract client when the client
    cannot be made, and with a text that starts with the words on the
    Textract interface when the call fails; otherwise it returns.  In all
    these cases it leaves the files, the rows, the clock and the
    environment as they were. *)
Theorem extract_blocks_failures (sv : services) (path : string) (st : state) :
  (fs (world st) !! path = None ->
     extract_blocks sv path st =
     (inl (FileNotFoundError ("Image file not found: " ++ path)%string), st)) /\
  (forall image_bytes,
     fs (world st) !! path = Some image_bytes ->
     (forall e, value_of (extract_blocks sv path st) = inl e ->
        (exists why,
           boto3_client sv (region_of (environ st)) = inl why /\
           e = Exception
                 ("Failed to create Textract client. Check AWS credentials: "
                  ++ why)%string) \/
        (exists analyze_expense why,
           boto3_client sv (region_of (environ st)) = inr analyze_expense /\
           analyze_expense (bytes_sent sv image_bytes) = inl why /\
           e = Exception ("Textract API error: " ++ why)%string)) /\
     (forall analyze_expense response,
        boto3_client sv (region_of (environ st)) = inr analyze_expense ->
        analyze_expense (bytes_sent sv image_bytes) = inr response ->
        value_of (extract_blocks sv path st) =
          inr (join TextractHandler.newline (all_text_lines response))) /\
     world (state_of (extract_blocks sv path st)) = world st /\
     environ (state_of (extract_blocks sv path st)) = environ st).
Proof.
  rewrite extract_blocks_eq. split.
  - intros ->. reflexivity.
  - intros image_bytes ->. cbn [value_of state_of fst snd]. split; [|split].
    + intros e.
      destruct (boto3_client sv _) as [why|analyze_expense] eqn:Hc.
      * intros [= <-]. left. eauto.
      * destruct (analyze_expense _) as [why|] eqn:Ha; [|discriminate].
        intros [= <-]. right. eauto.
    + intros analyze_expense response -> ->. reflexivity.
    + destruct (preprocess sv image_bytes); auto.
Qed.

Lemma extract_blocks_failures_witness :
  value_of (extract_blocks cafe_services cafe_path blank_region_state) =
    inl (Exception
           "Failed to create Textract client. Check AWS credentials: You must specify a region.") /\
  value_of (extract_blocks cafe_services cafe_path cafe_state) = inr cafe_text /\
  value_of (extract_blocks cafe_services "receipts/none.jpg" cafe_state) =
    inl (FileNotFoundError "Image file not found: receipts/none.jpg").
Proof.
  destruct (extract_blocks_failures cafe_services cafe_path cafe_state)
    as [_ Hthere].
  destruct (Hthere cafe_bytes eq_refl) as (_ & Hret & _).
  destruct (extract_blocks_failures cafe_services "receipts/none.jpg"
              cafe_state) as [Hnone _].
  split; [reflexivity|]. split.
  - rewrite (Hret (fun _ => inr cafe_response) cafe_response eq_refl eq_refl).
    reflexivity.
  - rewrite Hnone by reflexivity. reflexivity.
Defined.

(** X9.  When Pillow fails on the image, [extract_blocks] goes on with the
    bytes of the file: it prints one warning, and gives what it would give
    if Pillow had handed back the bytes unchanged. *)
Theorem pillow_failure_not_fatal (sv : services) (path : string) (st : state)
    (image_bytes : list ascii) (e : string) :
  fs (world st) !! path = Some image_bytes ->
  preprocess sv image_bytes = inl e ->
  value_of (extract_blocks sv path st) =
    value_of (extract_blocks (pillow_idle sv) path st) /\
  state_of (extract_blocks sv path st) =
    State (world st) (environ st)
          (stdout st ++ [("Warning: Could not preprocess image: " ++ e)%string]).
Proof.
  intros Hp He. rewrite !extract_blocks_eq, Hp. cbn.
  unfold bytes_sent. cbn. rewrite He. auto.
Qed.

Lemma pillow_failure_not_fatal_witness :
  value_of (extract_blocks cafe_services cafe_path cafe_state) = inr cafe_text /\
  stdout (state_of (extract_blocks cafe_services cafe_path cafe_state)) =
    ["Warning: Could not preprocess image: cannot identify image file"].
Proof.
  destruct (pillow_failure_not_fatal cafe_services cafe_path cafe_state
              cafe_bytes "cannot identify image file" eq_refl eq_refl)
    as [Hv Hs].
  rewrite Hv, Hs. split; reflexivity.
Defined.

End ExtractBlocksFacts.

(* ===================================================================== *)
(** * Properties of [validate_environment] and [process_receipt]          *)
(* ===================================================================== *)

Module MainFacts.
Import PyText Csv CsvWriter Io ExtractBlocks Main Samples.
Import CsvFacts CsvWriterFacts CsvWriterMore ExtractBlocksFacts.
Import TextractHandlerFacts ParseFieldsFacts PlainFacts.
Local Open Scope list_scope.

Lemma say_nil st : say st [] = st.
Proof. destruct st. unfold say. cbn. rewrite app_nil_r. reflexivity. Qed.

Lemma report_eq e o st : report e o st = (inr tt, say st (report_lines e o)).
Proof.
  unfold report, report_lines.
  destruct (contains "Failed to create Textract client" (str e));
    [unfold say, print, io_bind; cbn; rewrite <- app_assoc; reflexivity|].
  destruct (contains "Textract API error" (str e)); [reflexivity|].
  destruct (contains "Permission" (str e)); [|reflexivity].
  unfold say, print, io_bind; cbn; rewrite <- app_assoc; reflexivity.
Qed.

Lemma call_parse_fields_eq text_content st :
  call_parse_fields text_content st = (inr (fields_of text_content), st).
Proof.
  unfold call_parse_fields, fields_of. rewrite parse_fields_eq. reflexivity.
Qed.

(** ** The call, case by case *)

Lemma process_receipt_missing sv i o v st :
  fs (world st) !! i = None ->
  process_receipt sv i o v st =
  (inr false, say st [("Error: Receipt file not found: " ++ i)%string]).
Proof.
  intros Hi. unfold process_receipt, io_try, process_receipt_body.
  unfold io_bind at 1. unfold path_exists at 1. cbn [fst snd].
  unfold exists_path. rewrite bool_decide_eq_false_2; [reflexivity|].
  rewrite Hi. intros [x Hx]. discriminate.
Qed.

Lemma body_eq sv i o v st image_bytes :
  fs (world st) !! i = Some image_bytes ->
  process_receipt_body sv i o v st =
  match answer sv i st with
  | Some (inr (inr response)) =>
      let text := join newline (all_text_lines response) in
      let w := world st in
      let w1 := with_row w (csv_row (fields_of text) i) in
      let lines :=
        intro_lines sv i v image_bytes ++
        (if v then verbose_lines text o (fields_of text) else []) in
      match output_access sv o with
      | Opens =>
          (inr true,
           State (write_csv [new_ref (heap w)] o w1) (environ st)
                 (stdout st ++ lines ++ [("Done. CSV saved to: " ++ o)%string]))
      | OpenRaises e =>
          (inl e,
           State (stamp_rows [new_ref (heap w)] w1) (environ st)
                 (stdout st ++ lines))
      | MakedirsRaises e =>
          (inl e, State w1 (environ st) (stdout st ++ lines))
      end
  | Some (inr (inl e)) =>
      (inl (Exception ("Textract API error: " ++ e)%string),
       say st (intro_lines sv i v image_bytes))
  | Some (inl e) =>
      (inl (Exception
         ("Failed to create Textract client. Check AWS credentials: "
          ++ e)%string),
       say st (intro_lines sv i v image_bytes))
  | None => (inr false, st)
  end.
Proof.
  intros Hi. unfold process_receipt_body, answer. rewrite Hi.
  unfold io_bind at 1. unfold path_exists at 1. cbn [fst snd].
  unfold exists_path. rewrite bool_decide_eq_true_2 by eauto. cbn [negb].
  unfold io_bind at 1. unfold print at 1.
  unfold io_bind at 1.
  replace (when v (print ("  Extracting text from: " ++ i)%string)
             (State (world st) (environ st)
                (stdout st ++ ["Processing with AWS Textract..."])))
    with (@inr error unit tt,
          say st ("Processing with AWS Textract..." ::
                  (if v then [("  Extracting text from: " ++ i)%string]
                   else [])))
    by (destruct v; unfold say, when, print, io_ret; cbn;
        rewrite <- ?app_assoc; reflexivity).
  unfold io_bind at 1. rewrite extract_blocks_eq.
  cbn [world environ say]. rewrite Hi.
  destruct (boto3_client sv (region_of (environ st))) as [e|analyze_expense].
  - unfold intro_lines, say. cbn [world environ stdout].
    destruct (preprocess sv image_bytes); cbn [world environ stdout];
      rewrite <- ?app_assoc; cbn [app]; try rewrite app_nil_r; reflexivity.
  - destruct (analyze_expense (bytes_sent sv image_bytes)) as [e|response].
    + unfold intro_lines, say. cbn [world environ stdout].
      destruct (preprocess sv image_bytes); cbn [world environ stdout];
        rewrite <- ?app_assoc; cbn [app]; try rewrite app_nil_r; reflexivity.
    + unfold intro_lines, verbose_lines, with_row. cbn zeta.
      destruct (preprocess sv image_bytes) eqn:Hpre; destruct v;
        unfold when, io_bind, print, say, io_ret;
        cbn [world environ stdout fst snd];
        rewrite call_parse_fields_eq;
        unfold new_dict, call_write_csv, write_csv_or_raise, io_ret, print;
        cbn [world environ stdout fst snd];
        destruct (output_access sv o);
        cbn [world environ stdout fst snd];
        repeat (rewrite <- app_assoc; cbn [app]); rewrite ?app_nil_r;
        reflexivity.
Qed.

Lemma process_receipt_eq sv i o v st image_bytes :
  fs (world st) !! i = Some image_bytes ->
  process_receipt sv i o v st =
  match answer sv i st with
  | Some (inr (inr response)) =>
      let text := join newline (all_text_lines response) in
      let w := world st in
      let w1 := with_row w (csv_row (fields_of text) i) in
      let lines :=
        intro_lines sv i v image_bytes ++
        (if v then verbose_lines text o (fields_of text) else []) in
      match output_access sv o with
      | Opens =>
          (inr true,
           State (write_csv [new_ref (heap w)] o w1) (environ st)
                 (stdout st ++ lines ++ [("Done. CSV saved to: " ++ o)%string]))
      | OpenRaises e =>
          (inr false,
           State (stamp_rows [new_ref (heap w)] w1) (environ st)
                 (stdout st ++ lines ++ handler_lines e o v))
      | MakedirsRaises e =>
          (inr false,
           State w1 (environ st) (stdout st ++ lines ++ handler_lines e o v))
      end
  | Some (inr (inl e)) =>
      failed st (intro_lines sv i v image_bytes)
        (Exception ("Textract API error: " ++ e)%string) o v
  | Some (inl e) =>
      failed st (intro_lines sv i v image_bytes)
        (Exception
           ("Failed to create Textract client. Check AWS credentials: "
            ++ e)%string) o v
  | None => (inr false, st)
  end.
Proof.
  intros Hi. unfold process_receipt, io_try.
  rewrite (body_eq sv i o v st image_bytes Hi).
  destruct (answer sv i st) as [[e|[e|response]]|]; try reflexivity.
  - unfold failed, io_bind; rewrite report_eq;
      destruct v; unfold when, print, io_ret, trace_lines, say;
      cbn [world environ stdout];
      rewrite <- ?app_assoc, ?app_nil_r; reflexivity.
  - unfold failed, io_bind; rewrite report_eq;
      destruct v; unfold when, print, io_ret, trace_lines, say;
      cbn [world environ stdout];
      rewrite <- ?app_assoc, ?app_nil_r; reflexivity.
  - cbn zeta. destruct (output_access sv o) as [e|e|]; [| |reflexivity];
      (destruct e as [msg|msg];
       [unfold io_bind, print, io_ret, handler_lines;
        cbn [world environ stdout]; rewrite <- ?app_assoc; reflexivity
       |unfold io_bind; rewrite report_eq;
        destruct v; unfold when, print, io_ret, handler_lines, trace_lines, say;
        cbn [world environ stdout];
        rewrite <- ?app_assoc, ?app_nil_r; reflexivity]).
Qed.

(** The call that goes through. *)
Lemma process_receipt_done sv i o v st text :
  text_of sv i st = Some text -> output_access sv o = Opens ->
  exists image_bytes,
    fs (world st) !! i = Some image_bytes /\
    process_receipt sv i o v st =
    (inr true,
     State (write_csv [new_ref (heap (world st))] o
              (with_row (world st) (csv_row (fields_of text) i)))
           (environ st)
           (stdout st ++
            (intro_lines sv i v image_bytes ++
             (if v then verbose_lines text o (fields_of text) else [])) ++
            [("Done. CSV saved to: " ++ o)%string])).
Proof.
  unfold text_of. intros Ht Ho.
  destruct (answer sv i st) as [[e|[e|response]]|] eqn:Ha; try discriminate.
  injection Ht as <-.
  assert (Hi : is_Some (fs (world st) !! i)).
  { unfold answer in Ha. destruct (fs (world st) !! i); [eauto|discriminate]. }
  destruct Hi as [image_bytes Hi]. exists image_bytes. split; [exact Hi|].
  rewrite (process_receipt_eq sv i o v st image_bytes Hi), Ha. cbn zeta.
  rewrite Ho. reflexivity.
Qed.

(** A call that returns [True] has the text of Textract and the file. *)
Lemma process_receipt_true sv i o v st :
  value_of (process_receipt sv i o v st) = inr true ->
  is_Some (text_of sv i st) /\ output_access sv o = Opens.
Proof.
  destruct (fs (world st) !! i) as [image_bytes|] eqn:Hi.
  - rewrite (process_receipt_eq sv i o v st image_bytes Hi). unfold text_of.
    destruct (answer sv i st) as [[e|[e|response]]|]; cbn;
      try discriminate.
    destruct (output_access sv o); cbn; try discriminate. eauto.
  - rewrite (process_receipt_missing sv i o v st Hi). discriminate.
Qed.

Lemma answer_exists sv i st :
  is_Some (answer sv i st) <-> is_Some (fs (world st) !! i).
Proof.
  unfold answer. destruct (fs (world st) !! i); split; intros [x H];
    try discriminate; eauto.
Qed.

(** ** The new dictionary *)

Lemma le_foldr_max (l : list nat) x : In x l -> x <= foldr Nat.max 0 l.
Proof.
  induction l as [|y l IH]; [intros []|]. cbn. intros [->|H]; [lia|].
  specialize (IH H). lia.
Qed.

Lemma new_ref_fresh (h : gmap nat (gmap string pyval)) : h !! new_ref h = None.
Proof.
  destruct (h !! new_ref h) as [d|] eqn:Hd; [exfalso|reflexivity].
  apply elem_of_map_to_list in Hd.
  assert (Hin : In (new_ref h) (map fst (map_to_list h))).
  { apply in_map_iff. exists (new_ref h, d). split; [reflexivity|].
    apply list_elem_of_In. assumption. }
  apply le_foldr_max in Hin. unfold new_ref in Hin at 1. lia.
Qed.

Lemma with_row_row w row : row_of (with_row w row) (new_ref (heap w)) = row.
Proof. unfold row_of, with_row. cbn. rewrite lookup_insert_eq. reflexivity. Qed.

(** The row of a receipt once [write_csv] has stamped it. *)
Lemma receipt_row w o f i :
  let l := new_ref (heap w) in
  row_of (write_csv [l] o (with_row w (csv_row f i))) l =
  <["processed_at" := PyStr (timestamps w (ticks w))]> (csv_row f i).
Proof.
  intros l. destruct (write_csv_heap [l] o (with_row w (csv_row f i)))
    as (Hh & _ & _).
  rewrite (row_of_heap _ _ l Hh).
  change (stamp_rows [l] (with_row w (csv_row f i)))
    with (stamp_row (with_row w (csv_row f i)) l).
  unfold stamp_row. subst l. rewrite with_row_row.
  replace (needs_stamp (csv_row f i)) with true by reflexivity.
  rewrite row_of_insert_eq. reflexivity.
Qed.

Lemma receipt_row_fields f i stamp text :
  fields_of text = f ->
  row_fields (<["processed_at" := PyStr stamp]> (csv_row f i)) =
  line_fields text i stamp.
Proof. intros <-. reflexivity. Qed.

Lemma receipt_heap w o f i l :
  is_Some (heap w !! l) ->
  heap (write_csv [new_ref (heap w)] o (with_row w (csv_row f i))) !! l =
  heap w !! l.
Proof.
  intros Hl.
  destruct (write_csv_heap [new_ref (heap w)] o (with_row w (csv_row f i)))
    as (-> & _ & _).
  assert (Hne : new_ref (heap w) <> l).
  { intros He. rewrite <- He, new_ref_fresh in Hl. destruct Hl. discriminate. }
  rewrite stamp_rows_other.
  - unfold with_row. cbn. apply lookup_insert_ne. assumption.
  - intros [H|[]]. contradiction.
Qed.

Lemma receipt_fs w o text i :
  fs (write_csv [new_ref (heap w)] o
        (with_row w (csv_row (fields_of text) i))) =
  <[o := default CsvWriter.writeheader (fs w !! o) ++
         writerow (line_fields text i (timestamps w (ticks w)))]> (fs w).
Proof.
  rewrite write_csv_fs. unfold rows_text. cbn [flat_map].
  rewrite app_nil_r, receipt_row, dict_writerow_clean.
  rewrite (receipt_row_fields _ i _ text eq_refl). reflexivity.
Qed.

Lemma receipt_ticks w o f i :
  ticks (write_csv [new_ref (heap w)] o (with_row w (csv_row f i))) =
  S (ticks w).
Proof.
  destruct (write_csv_heap [new_ref (heap w)] o (with_row w (csv_row f i)))
    as (_ & -> & _).
  change (stamp_rows [new_ref (heap w)] (with_row w (csv_row f i)))
    with (stamp_row (with_row w (csv_row f i)) (new_ref (heap w))).
  unfold stamp_row. rewrite with_row_row.
  replace (needs_stamp (csv_row f i)) with true by reflexivity. reflexivity.
Qed.

Lemma text_of_answer sv i st text :
  text_of sv i st = Some text ->
  exists image_bytes response,
    fs (world st) !! i = Some image_bytes /\
    answer sv i st = Some (inr (inr response)) /\
    text = join newline (all_text_lines response).
Proof.
  unfold text_of. destruct (answer sv i st) as [[e|[e|response]]|] eqn:Ha;
    try discriminate.
  intros [= <-].
  destruct (proj1 (answer_exists sv i st) (ex_intro _ _ Ha)) as [b Hb].
  eauto.
Qed.

(** ** The call that is refused *)






Lemma cafe_text_of : text_of cafe_services cafe_path cafe_state = Some cafe_text.
Proof. reflexivity. Qed.


Lemma receipt_effect sv i o v st text :
  text_of sv i st = Some text -> output_access sv o = Opens ->
  let w := world st in
  let w' := world (state_of (process_receipt sv i o v st)) in
  fs w' = <[o := default CsvWriter.writeheader (fs w !! o) ++
                 writerow (line_fields text i (timestamps w (ticks w)))]>
            (fs w) /\
  ticks w' = S (ticks w) /\
  timestamps w' = timestamps w /\
  environ (state_of (process_receipt sv i o v st)) = environ st /\
  (forall l, is_Some (heap w !! l) -> heap w' !! l = heap w !! l).
Proof.
  intros Ht Ho.
  destruct (process_receipt_done sv i o v st text Ht Ho)
    as (image_bytes & Hi & ->).
  cbn zeta. cbn [state_of snd world environ]. split; [apply receipt_fs|].
  split; [apply receipt_ticks|].
  split; [exact (proj2 (proj2 (write_csv_heap _ _ _)))|].
  split; [reflexivity|]. intros l. apply receipt_heap.
Qed.

(** X11.  When [process_receipt] returns [True], Textract has given a text
    and the CSV file is what it was, or the header when there was none,
    followed by one line: the four fields that [parse_fields] finds in the
    text, the base name of the receipt and the reading of the clock.  No
    other file is touched, the clock is read once, and the row dictionaries
    that were there are left as they were. *)
Theorem process_receipt_appends (sv : services) (i o : string) (v : bool)
    (st : state) :
  value_of (process_receipt sv i o v st) = inr true ->
  let w := world st in
  let w' := world (state_of (process_receipt sv i o v st)) in
  exists text,
    text_of sv i st = Some text /\
    fs w' = <[o := default CsvWriter.writeheader (fs w !! o) ++
                   writerow (line_fields text i (timestamps w (ticks w)))]>
              (fs w) /\
    ticks w' = S (ticks w) /\
    (forall l, is_Some (heap w !! l) -> heap w' !! l = heap w !! l).
Proof.
  intros Hv. destruct (process_receipt_true sv i o v st Hv) as [[text Ht] Ho].
  cbn zeta. exists text. split; [exact Ht|].
  destruct (receipt_effect sv i o v st text Ht Ho) as (H1 & H2 & _ & _ & H3).
  auto.
Qed.

Lemma process_receipt_appends_witness :
  fs (world (state_of
        (process_receipt cafe_services cafe_path receipt_data false cafe_state)))
    !! receipt_data =
  Some (list_ascii_of_string
          ("date,start_time,end_time,total,source_file,processed_at"
           ++ string_of_list_ascii [cr; lf]
           ++ "24/09/2024,9:15,,42.50,cafe.jpg,2024-01-17T09:00:00.000001"
           ++ string_of_list_ascii [cr; lf])%string).
Proof.
  destruct (process_receipt_appends cafe_services cafe_path receipt_data false
              cafe_state eq_refl) as (text & Ht & -> & _ & _).
  rewrite cafe_text_of in Ht. injection Ht as <-.
  rewrite lookup_insert_eq. vm_compute. reflexivity.
Defined.

(** ** The same receipt again *)

Lemma text_of_same sv i st st' :
  fs (world st') !! i = fs (world st) !! i -> environ st' = environ st ->
  text_of sv i st' = text_of sv i st.
Proof. intros Hf He. unfold text_of, answer. rewrite Hf, He. reflexivity. Qed.

(** X23.  [process_receipt] keeps no trace of the receipts it has seen:
    when two calls for the same receipt and the same CSV file, which was not
    there at first, both return [True], the file holds the header followed
    by two lines, alike but for their stamps, which are two successive
    readings of the clock. *)
Theorem same_receipt_twice (sv : services) (i o : string) (v v' : bool)
    (st : state) (text : string) :
  text_of sv i st = Some text ->
  fs (world st) !! o = None ->
  let w := world st in
  let st1 := state_of (process_receipt sv i o v st) in
  value_of (process_receipt sv i o v st) = inr true ->
  value_of (process_receipt sv i o v' st1) = inr true ->
  fs (world (state_of (process_receipt sv i o v' st1))) !! o =
    Some (CsvWriter.writeheader ++
          writerow (line_fields text i (timestamps w (ticks w))) ++
          writerow (line_fields text i (timestamps w (S (ticks w))))).
Proof.
  intros Ht Ho. cbn zeta. intros Hv1 Hv2.
  destruct (process_receipt_true sv i o v st Hv1) as [_ Hopen].
  destruct (receipt_effect sv i o v st text Ht Hopen)
    as (Hfs & Htk & Hts & Henv & _).
  set (st1 := state_of (process_receipt sv i o v st)) in *.
  assert (Hio : i <> o).
  { intros <-. destruct (text_of_answer sv i st text Ht) as (b & _ & Hi & _).
    congruence. }
  assert (Ht1 : text_of sv i st1 = Some text).
  { rewrite <- Ht. apply text_of_same; [|exact Henv].
    rewrite Hfs. apply lookup_insert_ne. congruence. }
  destruct (receipt_effect sv i o v' st1 text Ht1 Hopen) as (Hfs' & _).
  rewrite Hfs', lookup_insert_eq. rewrite Hfs, lookup_insert_eq, Ho, Htk, Hts.
  cbn [default from_option id]. rewrite <- app_assoc. reflexivity.
Qed.

Lemma same_receipt_twice_witness :
  text_lines receipt_data
    (world (state_of
       (process_receipt cafe_services cafe_path receipt_data false
          (state_of (process_receipt cafe_services cafe_path receipt_data
                       false cafe_state))))) =
  ["date,start_time,end_time,total,source_file,processed_at";
   "24/09/2024,9:15,,42.50,cafe.jpg,2024-01-17T09:00:00.000001";
   "24/09/2024,9:15,,42.50,cafe.jpg,2024-01-17T09:00:00.000002"].
Proof.
  pose proof (same_receipt_twice cafe_services cafe_path receipt_data false
                false cafe_state cafe_text eq_refl eq_refl eq_refl eq_refl)
    as Hfs.
  unfold text_lines. rewrite Hfs. vm_compute. reflexivity.
Defined.

(** ** Reading the line back *)

Lemma fields_plain text f :
  TextractHandler.parse_fields text = inr f -> plain text ->
  (forall s, TextractHandler.date f = Some s -> plain s) /\
  (forall s, TextractHandler.start_time f = Some s -> plain s) /\
  (forall s, TextractHandler.end_time f = Some s -> plain s) /\
  (forall s, TextractHandler.total f = Some s -> plain s).
Proof.
  intros Hf Hp.
  destruct (parse_fields_sources text f Hf) as (Hd & Hs & He & Ht).
  repeat split; intros s H.
  - exact (no_cr_piece _ _ (Hd s H) Hp).
  - exact (no_cr_piece _ _ (Hs s H) Hp).
  - exact (no_cr_piece _ _ (He s H) Hp).
  - destruct (Ht s H) as [(c & Hc & ->)|(x & _ & ->)].
    + apply plain_remove_commas. exact (no_cr_piece _ _ Hc Hp).
    + apply plain_py_str.
Qed.

Lemma as_value_plain v :
  (forall s, v = Some s -> plain s) -> no_cr (field_text (as_value v)).
Proof. destruct v as [s|]; [|reflexivity]. intros H. exact (H s eq_refl). Qed.

Lemma as_value_text v :
  string_of_list_ascii (field_text (as_value v)) = default "" v.
Proof.
  destruct v as [s|]; [|reflexivity]. cbn.
  apply string_of_list_ascii_of_string.
Qed.

Lemma stamped_row_get f i stamp :
  let row := <["processed_at" := PyStr stamp]> (csv_row f i) in
  row !! "date" = Some (as_value (TextractHandler.date f)) /\
  row !! "start_time" = Some (as_value (TextractHandler.start_time f)) /\
  row !! "end_time" = Some (as_value (TextractHandler.end_time f)) /\
  row !! "total" = Some (as_value (TextractHandler.total f)) /\
  row !! "source_file" = Some (PyStr (basename i)) /\
  row !! "processed_at" = Some (PyStr stamp).
Proof. repeat split; reflexivity. Qed.

(** X12.  After a call of [process_receipt] that returns [True] on a path
    where there was no CSV file, [read_csv] gives one row: under each of
    the four field names what [parse_fields] found in the text, the empty
    string standing for [None]; under [source_file] the base name of the
    receipt; under [processed_at] the reading of the clock (the text, the
    path and the reading having no carriage return, and none of the six
    fields written being longer than the reader lets a field be). *)
Theorem receipt_reads_back (sv : services) (i o : string) (v : bool)
    (st : state) (text : string) (f : TextractHandler.fields) :
  value_of (process_receipt sv i o v st) = inr true ->
  text_of sv i st = Some text ->
  TextractHandler.parse_fields text = inr f ->
  fs (world st) !! o = None ->
  plain text -> plain i ->
  plain (timestamps (world st) (ticks (world st))) ->
  Forall within_limit
    (line_fields text i (timestamps (world st) (ticks (world st)))) ->
  exists d,
    read_csv o (world (state_of (process_receipt sv i o v st))) = inr [d] /\
    d !! Some "date" = Some (RStr (default "" (TextractHandler.date f))) /\
    d !! Some "start_time" =
      Some (RStr (default "" (TextractHandler.start_time f))) /\
    d !! Some "end_time" =
      Some (RStr (default "" (TextractHandler.end_time f))) /\
    d !! Some "total" = Some (RStr (default "" (TextractHandler.total f))) /\
    d !! Some "source_file" = Some (RStr (basename i)) /\
    d !! Some "processed_at" =
      Some (RStr (timestamps (world st) (ticks (world st)))).
Proof.
  intros Hv Ht Hf Ho Hpt Hpi Hps Hlim.
  destruct (process_receipt_true sv i o v st Hv) as [_ Hopen].
  destruct (process_receipt_done sv i o v st text Ht Hopen)
    as (image_bytes & Hi & ->).
  cbn [state_of snd world].
  assert (Hfo : fields_of text = f)
    by (unfold fields_of; rewrite Hf; reflexivity).
  rewrite Hfo.
  destruct (fields_plain _ f Hf Hpt) as (Hd & Hs & He & Htot).
  set (w := world st) in *.
  set (row := <["processed_at" := PyStr (timestamps w (ticks w))]>
                (csv_row f i)).
  assert (Hrow : row_of (write_csv [new_ref (heap w)] o
                           (with_row w (csv_row f i))) (new_ref (heap w)) = row)
    by apply receipt_row.
  assert (Hall : Forall within_limit (row_fields row))
    by (unfold row; rewrite (receipt_row_fields f i _ text Hfo); exact Hlim).
  exists (as_read row). split.
  - rewrite read_csv_new.
    + cbn [map]. rewrite Hrow. reflexivity.
    + exact Ho.
    + intros l key [<-|[]] Hk. rewrite Hrow. split.
      * each_header Hk;
          [ apply (as_value_plain _ Hd) | apply (as_value_plain _ Hs)
          | apply (as_value_plain _ He) | apply (as_value_plain _ Htot)
          | apply plain_basename; exact Hpi | exact Hps ].
      * rewrite List.Forall_forall in Hall. apply Hall.
        unfold row_fields. apply in_map_iff. exists key. auto.
  - destruct (stamped_row_get f i (timestamps w (ticks w)))
      as (H1 & H2 & H3 & H4 & H5 & H6).
    fold row in H1, H2, H3, H4, H5, H6.
    repeat split; rewrite as_read_get by (cbn; tauto);
      rewrite ?H1, ?H2, ?H3, ?H4, ?H5, ?H6; cbn [default from_option id];
      rewrite ?as_value_text; try reflexivity;
      cbn [field_text]; rewrite string_of_list_ascii_of_string; reflexivity.
Qed.

Lemma receipt_reads_back_witness :
  exists d,
    read_csv receipt_data
      (world (state_of
         (process_receipt cafe_services cafe_path receipt_data true cafe_state)))
      = inr [d] /\
    d !! Some "date" = Some (RStr "24/09/2024") /\
    d !! Some "end_time" = Some (RStr "") /\
    d !! Some "total" = Some (RStr "42.50") /\
    d !! Some "source_file" = Some (RStr "cafe.jpg").
Proof.
  assert (Hlim : Forall within_limit
            (line_fields cafe_text cafe_path
               (timestamps (world cafe_state) (ticks (world cafe_state)))))
    by (repeat constructor; apply N.leb_le; vm_compute; reflexivity).
  destruct (receipt_reads_back cafe_services cafe_path receipt_data true
              cafe_state cafe_text
              (TextractHandler.Fields (Some "24/09/2024") (Some "9:15") None
                 (Some "42.50"))
              eq_refl eq_refl eq_refl eq_refl eq_refl eq_refl eq_refl Hlim)
    as (d & Hr & Hd & _ & He & Ht & Hs & _).
  exists d. auto.
Defined.

(** ** What is printed *)

Lemma client_failure_lines e o :
  report_lines
    (Exception ("Failed to create Textract client. Check AWS credentials: "
                ++ e)%string) o =
  ["Error: AWS credentials not configured. Please check your .env file";
   ("Details: Failed to create Textract client. Check AWS credentials: "
    ++ e)%string].
Proof. reflexivity. Qed.

Lemma api_failure_lines e o :
  report_lines (Exception ("Textract API error: " ++ e)%string) o =
  if contains "Failed to create Textract client" e then
    ["Error: AWS credentials not configured. Please check your .env file";
     ("Details: Textract API error: " ++ e)%string]
  else
    [("Error: Failed to process image with Textract: Textract API error: "
      ++ e)%string].
Proof.
  unfold report_lines.
  replace (contains "Failed to create Textract client"
             (str (Exception ("Textract API error: " ++ e)%string)))
    with (contains "Failed to create Textract client" e) by reflexivity.
  destruct (contains "Failed to create Textract client" e); reflexivity.
Qed.

(** X13.  How [process_receipt] reports a failure, after the lines printed
    before the call of Textract: a missing file by one line that names it;
    a client that cannot be made as a problem of credentials; a failure of
    the call of Textract as such, unless its text has the words on the
    client in it, in which case it is reported as a problem of credentials
    too. *)
Theorem failure_reports (sv : services) (i o : string) (v : bool) (st : state) :
  (fs (world st) !! i = None ->
     stdout (state_of (process_receipt sv i o v st)) =
     stdout st ++ [("Error: Receipt file not found: " ++ i)%string]) /\
  (forall image_bytes e,
     fs (world st) !! i = Some image_bytes ->
     answer sv i st = Some (inl e) ->
     stdout (state_of (process_receipt sv i o v st)) =
     stdout st ++ intro_lines sv i v image_bytes ++
     ["Error: AWS credentials not configured. Please check your .env file";
      ("Details: Failed to create Textract client. Check AWS credentials: "
       ++ e)%string] ++ trace_lines v) /\
  (forall image_bytes e,
     fs (world st) !! i = Some image_bytes ->
     answer sv i st = Some (inr (inl e)) ->
     contains "Failed to create Textract client" e = false ->
     stdout (state_of (process_receipt sv i o v st)) =
     stdout st ++ intro_lines sv i v image_bytes ++
     [("Error: Failed to process image with Textract: Textract API error: "
       ++ e)%string] ++ trace_lines v) /\
  (forall image_bytes e,
     fs (world st) !! i = Some image_bytes ->
     answer sv i st = Some (inr (inl e)) ->
     contains "Failed to create Textract client" e = true ->
     stdout (state_of (process_receipt sv i o v st)) =
     stdout st ++ intro_lines sv i v image_bytes ++
     ["Error: AWS credentials not configured. Please check your .env file";
      ("Details: Textract API error: " ++ e)%string] ++ trace_lines v).
Proof.
  split; [|split; [|split]].
  - intros Hi. rewrite (process_receipt_missing sv i o v st Hi). reflexivity.
  - intros image_bytes e Hi Ha.
    rewrite (process_receipt_eq sv i o v st image_bytes Hi), Ha.
    unfold failed. rewrite client_failure_lines. reflexivity.
  - intros image_bytes e Hi Ha Hc.
    rewrite (process_receipt_eq sv i o v st image_bytes Hi), Ha.
    unfold failed. rewrite api_failure_lines, Hc. reflexivity.
  - intros image_bytes e Hi Ha Hc.
    rewrite (process_receipt_eq sv i o v st image_bytes Hi), Ha.
    unfold failed. rewrite api_failure_lines, Hc. reflexivity.
Qed.

(** X14.  The verbose mode only prints more: with and without it
    [process_receipt] returns the same value and leaves the same files,
    rows, clock and environment, and the lines printed without it are
    among the lines printed with it, in the same order. *)
Theorem verbose_only_prints (sv : services) (i o : string) (st : state) :
  let quiet := process_receipt sv i o false st in
  let loud := process_receipt sv i o true st in
  value_of loud = value_of quiet /\
  world (state_of loud) = world (state_of quiet) /\
  environ (state_of loud) = environ (state_of quiet) /\
  sublist (stdout (state_of quiet)) (stdout (state_of loud)).
Proof.
  cbn zeta. destruct (fs (world st) !! i) as [image_bytes|] eqn:Hi.
  - rewrite !(process_receipt_eq sv i o _ st image_bytes Hi).
    assert (Hintro : sublist (intro_lines sv i false image_bytes)
                             (intro_lines sv i true image_bytes)).
    { unfold intro_lines. apply sublist_skip. cbn [app].
      apply sublist_cons. reflexivity. }
    assert (Hhandler : forall e,
              sublist (handler_lines e o false) (handler_lines e o true)).
    { intros [msg|msg]; [reflexivity|]. unfold handler_lines.
      apply sublist_app; [reflexivity|]. apply sublist_nil_l. }
    destruct (answer sv i st) as [[e|[e|response]]|]; unfold failed;
      cbn zeta; try destruct (output_access sv o) as [e|e|];
      cbn [value_of state_of fst snd world environ stdout say];
      repeat split; try reflexivity.
    + apply sublist_app; [reflexivity|]. apply sublist_app; [exact Hintro|].
      apply sublist_app; [reflexivity|]. apply sublist_nil_l.
    + apply sublist_app; [reflexivity|]. apply sublist_app; [exact Hintro|].
      apply sublist_app; [reflexivity|]. apply sublist_nil_l.
    + apply sublist_app; [reflexivity|]. apply sublist_app; [|apply Hhandler].
      apply sublist_app; [exact Hintro|apply sublist_nil_l].
    + apply sublist_app; [reflexivity|]. apply sublist_app; [|apply Hhandler].
      apply sublist_app; [exact Hintro|apply sublist_nil_l].
    + apply sublist_app; [reflexivity|]. apply sublist_app; [|reflexivity].
      apply sublist_app; [exact Hintro|apply sublist_nil_l].
  - rewrite !(process_receipt_missing sv i o _ st Hi).
    repeat split; reflexivity.
Qed.

(** ** [validate_environment] *)

Lemma validate_environment_eq st :
  validate_environment st =
  if has_credentials (environ st) then
    (inr true,
     say st (if has_region (environ st) then [] else [region_warning]))
  else
    (inr false,
     say st
       [("Error: Missing required environment variables: " ++
         join ", " (List.filter (fun var => negb (truthy (environ st !! var)))
                                required_vars))%string;
        "Please configure your AWS credentials in a .env file or environment variables.";
        "See .env.example for the required format."]).
Proof.
  unfold validate_environment, has_credentials, has_region, required_vars.
  unfold io_bind at 1. cbn [collect_missing List.filter].
  unfold io_bind at 1. unfold getenv at 1. cbn [fst snd].
  unfold io_bind at 1. unfold getenv at 1. cbn [fst snd].
  destruct (truthy (environ st !! "AWS_ACCESS_KEY_ID"));
    destruct (truthy (environ st !! "AWS_SECRET_ACCESS_KEY"));
    cbn [negb andb app io_ret];
    try (unfold io_bind, print, io_ret, say; cbn [world environ stdout];
         repeat (rewrite <- app_assoc; cbn [app]); reflexivity).
  unfold io_bind, getenv, when, print, io_ret, say, region_warning.
  cbn [fst snd].
  destruct (truthy (environ st !! "AWS_REGION")
            || truthy (environ st !! "AWS_DEFAULT_REGION"));
    cbn [negb world environ stdout]; [|reflexivity].
  destruct st. cbn. rewrite app_nil_r. reflexivity.
Qed.

(** X15.  [validate_environment] returns [True] exactly when the two
    credentials are set to something that is not empty; a variable set to
    the empty string counts as missing.  It then warns when no region is
    configured; otherwise its first line names the missing variables, in
    the order in which they are required.  It changes neither the files
    nor the environment. *)
Theorem validate_environment_spec (st : state) :
  value_of (validate_environment st) = inr (has_credentials (environ st)) /\
  world (state_of (validate_environment st)) = world st /\
  environ (state_of (validate_environment st)) = environ st /\
  (has_credentials (environ st) = true ->
     stdout (state_of (validate_environment st)) =
     stdout st ++
     (if has_region (environ st) then [] else [region_warning])) /\
  (has_credentials (environ st) = false ->
     stdout (state_of (validate_environment st)) =
     stdout st ++
     [("Error: Missing required environment variables: " ++
       join ", " (List.filter (fun var => negb (truthy (environ st !! var)))
                              required_vars))%string;
      "Please configure your AWS credentials in a .env file or environment variables.";
      "See .env.example for the required format."]).
Proof.
  rewrite validate_environment_eq.
  destruct (has_credentials (environ st)); cbn;
    repeat split; try reflexivity; discriminate.
Qed.

(** X16.  What [extract_blocks] gives depends on the client through one
    region only: [AWS_REGION] when it is set and not empty, else
    [AWS_DEFAULT_REGION] as it is set, else us-east-1.  So, when
    [validate_environment] warns that it falls back on us-east-1, the
    region asked for is us-east-1, unless [AWS_DEFAULT_REGION] is set to
    the empty string: then the region asked for is the empty string. *)
Theorem region_used :
  (forall sv sv' path st,
     preprocess sv = preprocess sv' ->
     boto3_client sv (region_of (environ st)) =
       boto3_client sv' (region_of (environ st)) ->
     extract_blocks sv path st = extract_blocks sv' path st) /\
  (forall env r,
     env !! "AWS_REGION" = Some r -> r <> "" -> region_of env = r) /\
  (forall env,
     has_region env = false ->
     (env !! "AWS_DEFAULT_REGION" = None /\ region_of env = "us-east-1") \/
     (env !! "AWS_DEFAULT_REGION" = Some "" /\ region_of env = "")) /\
  stdout (state_of (validate_environment blank_region_state)) =
    [region_warning] /\
  value_of (extract_blocks cafe_services cafe_path blank_region_state) =
    inl (Exception
           "Failed to create Textract client. Check AWS credentials: You must specify a region.").
Proof.
  split; [|split; [|split; [|split]]].
  - intros sv sv' path st Hp Hc. rewrite !extract_blocks_eq.
    unfold bytes_sent. rewrite Hp, Hc. reflexivity.
  - intros env r Hr Hne. unfold region_of. rewrite Hr. cbn.
    destruct (String.eqb_spec r ""); [contradiction|reflexivity].
  - intros env Hr. unfold has_region in Hr. apply orb_false_iff in Hr.
    destruct Hr as [H1 H2]. unfold region_of. rewrite H1.
    destruct (env !! "AWS_DEFAULT_REGION") as [r|]; [right|left; auto].
    cbn in H2. apply negb_false_iff, String.eqb_eq in H2. subst. auto.
  - reflexivity.
  - reflexivity.
Qed.

End MainFacts.

(* ===================================================================== *)
(** * Properties of the two CSV reports                                   *)
(* ===================================================================== *)

Module CsvReportsFacts.
Import PyText Csv CsvWriter Io CsvGenerator CsvReports Samples.
Import CsvFacts CsvWriterFacts CsvGeneratorFacts.
Import Main.
Local Open Scope list_scope.

(** ** States *)

Lemma reported_reported st path c1 n1 l1 c2 n2 l2 :
  reported (reported st path c1 n1 l1) path c2 n2 l2 =
  reported st path c2 (n2 + n1) (l1 ++ l2).
Proof.
  unfold reported. cbn. rewrite insert_insert_eq, app_assoc, Nat.add_assoc.
  reflexivity.
Qed.

Lemma reported_idle st path content :
  fs (world st) !! path = Some content -> reported st path content 0 [] = st.
Proof.
  destruct st as [[f h t ts] env out]. cbn. intros H. unfold reported. cbn.
  rewrite insert_id by assumption. rewrite app_nil_r. reflexivity.
Qed.

Lemma reported_file st path text n lines :
  fs (world (reported st path text n lines)) !! path = Some text.
Proof. unfold reported. cbn. apply lookup_insert_eq. Qed.

Lemma open_write_eq path st :
  open_write path st = (inr tt, reported st path [] 0 []).
Proof. unfold open_write, reported. cbn. rewrite app_nil_r. reflexivity. Qed.

Lemma write_text_eq path text st content :
  fs (world st) !! path = Some content ->
  write_text path text st = (inr tt, reported st path (content ++ text) 0 []).
Proof.
  intros H. unfold write_text, reported. rewrite H. cbn.
  rewrite app_nil_r. reflexivity.
Qed.

Lemma print_eq line path st content :
  fs (world st) !! path = Some content ->
  print line st = (inr tt, reported st path content 0 [line]).
Proof.
  intros H. unfold print, reported. cbn. rewrite insert_id by assumption.
  destruct st as [[f h t ts] env out]. reflexivity.
Qed.

Lemma extract_eq js json_file st :
  CsvReports.extract_data_from_json js json_file st =
  match load js json_file with
  | inl e => (inl (Exception e), st)
  | inr data =>
      let w := world st in
      (inr (CsvGenerator.extract_data_from_json
              (filename_of json_file) (timestamps w (ticks w)) data),
       State (World (fs w) (heap w) (S (ticks w)) (timestamps w))
             (environ st) (stdout st))
  end.
Proof.
  unfold CsvReports.extract_data_from_json.
  destruct (load js json_file); reflexivity.
Qed.

Lemma tick_eq st path content :
  fs (world st) !! path = Some content ->
  State (World (fs (world st)) (heap (world st)) (S (ticks (world st)))
               (timestamps (world st)))
        (environ st) (stdout st) =
  reported st path content 1 [].
Proof.
  intros H. unfold reported. cbn. rewrite insert_id by assumption.
  rewrite app_nil_r. reflexivity.
Qed.

(** ** The loop over the files *)

Lemma report_loop js path turn render :
  turn_ok js path turn render ->
  forall json_files st content,
    fs (world st) !! path = Some content ->
    for_each json_files turn st =
    (inr tt,
     let docs := loaded js (timestamps (world st)) (ticks (world st))
                   json_files in
     reported st path (content ++ flat_map render docs) (length docs)
       (load_errors js json_files)).
Proof.
  intros Hturn json_files.
  induction json_files as [|json_file json_files IH]; intros st content Hc.
  - cbn. rewrite app_nil_r, reported_idle by assumption. reflexivity.
  - cbn [for_each]. unfold io_bind. rewrite (Hturn _ _ _ Hc).
    cbn [loaded load_errors flat_map].
    destruct (load js json_file) as [e|data].
    + rewrite (IH _ content) by apply reported_file.
      cbn zeta. rewrite reported_reported. cbn [reported world ticks timestamps].
      rewrite Nat.add_0_r. reflexivity.
    + rewrite (IH _ _ (reported_file _ _ _ _ _)).
      cbn zeta. rewrite reported_reported.
      cbn [reported world ticks timestamps Nat.add flat_map length app].
      rewrite <- app_assoc, Nat.add_1_r. reflexivity.
Qed.

Lemma for_each_write {A} path (f : A -> list ascii) (l : list A) :
  forall st content,
    fs (world st) !! path = Some content ->
    for_each l (fun x => write_text path (f x)) st =
    (inr tt, reported st path (content ++ flat_map f l) 0 []).
Proof.
  induction l as [|x l IH]; intros st content Hc.
  - cbn. rewrite app_nil_r, reported_idle by assumption. reflexivity.
  - cbn [for_each]. unfold io_bind. rewrite (write_text_eq _ _ _ _ Hc).
    rewrite (IH _ _ (reported_file _ _ _ _ _)), reported_reported.
    cbn [flat_map]. rewrite <- app_assoc. reflexivity.
Qed.

Lemma flat_map_map {A B C} (g : B -> list C) (h : A -> B) (l : list A) :
  flat_map g (map h l) = flat_map (fun x => g (h x)) l.
Proof.
  induction l as [|x l IH]; [reflexivity|]. cbn. rewrite IH. reflexivity.
Qed.

Lemma summary_row_text data :
  dict_writerow summary_fieldnames (summary_row data) =
  writerow (map list_ascii_of_string (summary_fields data)).
Proof. reflexivity. Qed.

Lemma detailed_row_text data name price :
  dict_writerow detailed_fieldnames (detailed_row data name price) =
  writerow (map list_ascii_of_string
              [filename data; vendor_name data; total data; date data;
               name; price; processed_at data]).
Proof. reflexivity. Qed.

Lemma summary_turn_ok js path :
  turn_ok js path (summary_turn js path)
    (fun data => writerow (map list_ascii_of_string (summary_fields data))).
Proof.
  intros json_file st content Hc. unfold summary_turn, io_try, io_bind.
  rewrite extract_eq. destruct (load js json_file) as [e|data].
  - cbn [str]. apply (print_eq _ path). assumption.
  - cbn zeta. rewrite (tick_eq st path content Hc).
    rewrite (write_text_eq _ _ _ _ (reported_file _ _ _ _ _)).
    rewrite reported_reported, summary_row_text. reflexivity.
Qed.

Lemma detailed_turn_ok js path :
  turn_ok js path (detailed_turn js path)
    (fun data =>
       flat_map (fun record => writerow (map list_ascii_of_string record))
                (detailed_fields data)).
Proof.
  intros json_file st content Hc. unfold detailed_turn, io_try, io_bind.
  rewrite extract_eq. destruct (load js json_file) as [e|data].
  - cbn [str]. apply (print_eq _ path). assumption.
  - cbn zeta. rewrite (tick_eq st path content Hc).
    set (d := CsvGenerator.extract_data_from_json _ _ data).
    unfold detailed_fields. destruct (items d) as [|item its] eqn:Hits.
    + rewrite (write_text_eq _ _ _ _ (reported_file _ _ _ _ _)).
      rewrite reported_reported, detailed_row_text.
      cbn [flat_map Nat.add app]. rewrite !app_nil_r. reflexivity.
    + rewrite (for_each_write path _ _ _ _ (reported_file _ _ _ _ _)).
      rewrite reported_reported. cbn [Nat.add app]. do 3 f_equal.
      rewrite flat_map_map.
      apply flat_map_ext. intros it. apply detailed_row_text.
Qed.

(** ** The two reports *)

Lemma header_then_loop js path turn render json_files header lines st :
  turn_ok js path turn render ->
  (do! _ := open_write path in
   do! _ := write_text path header in
   do! _ := for_each json_files turn in
   do! _ := print lines in
   io_ret (Some path)) st =
  (inr (Some path),
   let docs := loaded js (timestamps (world st)) (ticks (world st))
                 json_files in
   reported st path (header ++ flat_map render docs) (length docs)
     (load_errors js json_files ++ [lines])).
Proof.
  intros Hturn. unfold io_bind. rewrite open_write_eq.
  rewrite (write_text_eq _ _ _ _ (reported_file _ _ _ _ _)).
  rewrite reported_reported. cbn [app Nat.add].
  rewrite (report_loop js path turn render Hturn _ _ _
             (reported_file _ _ _ _ _)).
  cbn zeta. rewrite reported_reported.
  rewrite (print_eq _ path _ _ (reported_file _ _ _ _ _)).
  rewrite reported_reported. unfold io_ret.
  cbn [reported world ticks timestamps app Nat.add].
  rewrite !Nat.add_0_r. reflexivity.
Qed.

Lemma generate_summary_csv_none js output_dir st :
  glob js (raw_responses output_dir) = [] ->
  generate_summary_csv js output_dir st =
  (inr None, say st ["No JSON files found to process"]).
Proof.
  intros Hg. unfold generate_summary_csv. fold (raw_responses output_dir).
  rewrite Hg. reflexivity.
Qed.

Lemma generate_summary_csv_files js output_dir st :
  glob js (raw_responses output_dir) <> [] ->
  generate_summary_csv js output_dir st =
  (inr (Some (path_join output_dir "receipt_summary.csv")),
   let docs := loaded js (timestamps (world st)) (ticks (world st))
                 (glob js (raw_responses output_dir)) in
   reported st (path_join output_dir "receipt_summary.csv")
     (summary_text docs) (length docs)
     (load_errors js (glob js (raw_responses output_dir)) ++
      [("Summary CSV generated: "
        ++ path_join output_dir "receipt_summary.csv")%string])).
Proof.
  intros Hg. unfold generate_summary_csv. fold (raw_responses output_dir).
  destruct (glob js (raw_responses output_dir)) as [|f fl] eqn:Hfiles;
    [contradiction|].
  apply header_then_loop, summary_turn_ok.
Qed.

Lemma generate_detailed_csv_none js output_dir st :
  glob js (raw_responses output_dir) = [] ->
  generate_detailed_csv js output_dir st =
  (inr None, say st ["No JSON files found to process"]).
Proof.
  intros Hg. unfold generate_detailed_csv. fold (raw_responses output_dir).
  rewrite Hg. reflexivity.
Qed.

Lemma generate_detailed_csv_files js output_dir st :
  glob js (raw_responses output_dir) <> [] ->
  generate_detailed_csv js output_dir st =
  (inr (Some (path_join output_dir "receipt_details.csv")),
   let docs := loaded js (timestamps (world st)) (ticks (world st))
                 (glob js (raw_responses output_dir)) in
   reported st (path_join output_dir "receipt_details.csv")
     (detailed_text docs) (length docs)
     (load_errors js (glob js (raw_responses output_dir)) ++
      [("Detailed CSV generated: "
        ++ path_join output_dir "receipt_details.csv")%string])).
Proof.
  intros Hg. unfold generate_detailed_csv. fold (raw_responses output_dir).
  destruct (glob js (raw_responses output_dir)) as [|f fl] eqn:Hfiles;
    [contradiction|].
  apply header_then_loop, detailed_turn_ok.
Qed.

Lemma loaded_count js clock json_files : forall tick,
  length (loaded js clock tick json_files) + length (load_errors js json_files)
  = length json_files.
Proof.
  induction json_files as [|f fl IH]; intros tick; [reflexivity|].
  cbn [loaded load_errors flat_map]. fold (load_errors js fl).
  destruct (load js f); cbn [length app].
  - specialize (IH tick). lia.
  - specialize (IH (S tick)). lia.
Qed.

(** X17.  [generate_summary_csv] writes nothing when no raw response is
    found.  Otherwise the summary is the header followed by one line for
    each document that loads, in the order of [glob], whatever the file
    held before; a document that does not load costs one printed line and
    nothing else, and the clock is read once for each document that
    loads. *)
Theorem summary_report (js : json_store) (output_dir : string) (st : state) :
  let json_files := glob js (raw_responses output_dir) in
  let path := path_join output_dir "receipt_summary.csv" in
  let docs := loaded js (timestamps (world st)) (ticks (world st)) json_files in
  let after := state_of (generate_summary_csv js output_dir st) in
  (json_files = [] ->
     generate_summary_csv js output_dir st =
     (inr None, say st ["No JSON files found to process"])) /\
  (json_files <> [] ->
     value_of (generate_summary_csv js output_dir st) = inr (Some path) /\
     fs (world after) = <[path := summary_text docs]> (fs (world st)) /\
     ticks (world after) = length docs + ticks (world st) /\
     stdout after =
       stdout st ++ load_errors js json_files ++
       [("Summary CSV generated: " ++ path)%string]) /\
  length docs + length (load_errors js json_files) = length json_files.
Proof.
  cbn zeta. split; [apply generate_summary_csv_none|].
  split; [|apply loaded_count].
  intros Hg. rewrite (generate_summary_csv_files js output_dir st Hg).
  repeat split.
Qed.

Lemma summary_report_witness :
  text_lines "output/receipt_summary.csv"
    (world (state_of (generate_summary_csv sample_store "output" report_state)))
  = ["filename,vendor_name,total,date,item_count,processed_at";
     "r1,Cafe,6.00,,2,2024-01-17T09:00:00.000001";
     "r2,Kiosk 24,12.00,,0,2024-01-17T09:00:00.000002"] /\
  stdout (state_of (generate_summary_csv sample_store "output" report_state))
  = ["Error processing output/broken-raw-response.json: Expecting value: line 1 column 1 (char 0)";
     "Summary CSV generated: output/receipt_summary.csv"].
Proof.
  destruct (summary_report sample_store "output" report_state)
    as (_ & H & _).
  destruct H as (_ & Hfs & _ & Hout); [discriminate|].
  unfold text_lines. rewrite Hfs, Hout, lookup_insert_eq.
  split; vm_compute; reflexivity.
Defined.

Lemma detailed_fields_count data :
  length (detailed_fields data) = Nat.max 1 (length (items data)).
Proof.
  unfold detailed_fields. destruct (items data) as [|it its]; [reflexivity|].
  rewrite length_map. reflexivity.
Qed.

(** X18.  [generate_detailed_csv] writes, after the header, the lines of
    each document that loads: one line for each of its items, and one line
    with an empty name and an empty price when it has none, so that every
    such document has at least one line; each line repeats the file name,
    the vendor, the total, the date and the stamp of its document. *)
Theorem detailed_report (js : json_store) (output_dir : string) (st : state) :
  let json_files := glob js (raw_responses output_dir) in
  let path := path_join output_dir "receipt_details.csv" in
  let docs := loaded js (timestamps (world st)) (ticks (world st)) json_files in
  let after := state_of (generate_detailed_csv js output_dir st) in
  (json_files = [] ->
     generate_detailed_csv js output_dir st =
     (inr None, say st ["No JSON files found to process"])) /\
  (json_files <> [] ->
     value_of (generate_detailed_csv js output_dir st) = inr (Some path) /\
     fs (world after) = <[path := detailed_text docs]> (fs (world st)) /\
     ticks (world after) = length docs + ticks (world st)) /\
  (forall data,
     length (detailed_fields data) = Nat.max 1 (length (items data)) /\
     forall record, In record (detailed_fields data) ->
       take 4 record =
         [filename data; vendor_name data; total data; date data] /\
       drop 6 record = [processed_at data]) /\
  length (flat_map detailed_fields docs) =
    total_of_counts (map (fun data => Nat.max 1 (length (items data))) docs).
Proof.
  cbn zeta. split; [apply generate_detailed_csv_none|].
  split; [|split].
  - intros Hg. rewrite (generate_detailed_csv_files js output_dir st Hg).
    repeat split.
  - intros data. split; [apply detailed_fields_count|].
    intros record. unfold detailed_fields.
    destruct (items data) as [|it its].
    + intros [<-|[]]. split; reflexivity.
    + intros Hin. apply in_map_iff in Hin. destruct Hin as (x & <- & _).
      split; reflexivity.
  - induction (loaded js _ _ _) as [|d docs IH]; [reflexivity|].
    cbn [flat_map map total_of_counts foldr].
    rewrite length_app, detailed_fields_count. f_equal. exact IH.
Qed.

Lemma detailed_report_witness :
  text_lines "output/receipt_details.csv"
    (world (state_of (generate_detailed_csv sample_store "output" report_state)))
  = ["filename,vendor_name,receipt_total,receipt_date,item_name,item_price,processed_at";
     "r1,Cafe,6.00,,Coffee,3.50,2024-01-17T09:00:00.000001";
     "r1,Cafe,6.00,,,2.50,2024-01-17T09:00:00.000001";
     "r2,Kiosk 24,12.00,,,,2024-01-17T09:00:00.000002"].
Proof.
  destruct (detailed_report sample_store "output" report_state)
    as (_ & H & _).
  destruct H as (_ & Hfs & _); [discriminate|].
  unfold text_lines. rewrite Hfs, lookup_insert_eq.
  vm_compute. reflexivity.
Defined.

(** ** Reading a report back *)

Lemma names_back (names : list string) :
  map string_of_list_ascii (map list_ascii_of_string names) = names.
Proof.
  rewrite map_map. rewrite <- (map_id names) at 2. apply map_ext.
  intros s. apply string_of_list_ascii_of_string.
Qed.

Lemma rows_back (rows_ : list (list string)) :
  map (map string_of_list_ascii) (map (map list_ascii_of_string) rows_) = rows_.
Proof.
  rewrite map_map. rewrite <- (map_id rows_) at 2. apply map_ext.
  intros r. apply names_back.
Qed.

Lemma fits_within_limit s : fits s -> within_limit (list_ascii_of_string s).
Proof.
  unfold fits, field_size_limit, within_limit, field_limit.
  rewrite length_chars. lia.
Qed.

Lemma read_table path w names records :
  fs w !! path =
    Some (writerow (map list_ascii_of_string names) ++
          flat_map (fun r => writerow (map list_ascii_of_string r)) records) ->
  2 <= length names -> Forall plain names -> Forall fits names ->
  (forall r, In r records ->
     length r = length names /\ Forall plain r /\ Forall fits r) ->
  read_csv path w = inr (map (row_as_read names) records).
Proof.
  intros Hf Hlen Hnames Hfnames Hrec. unfold read_csv. rewrite Hf.
  replace (writerow (map list_ascii_of_string names) ++
           flat_map (fun r => writerow (map list_ascii_of_string r)) records)
    with (flat_map writerow
            (map (map list_ascii_of_string) (names :: records)))
    by (cbn [map flat_map]; rewrite flat_map_map; reflexivity).
  unfold dict_reader. rewrite reader_rows_written.
  - rewrite rows_back. rewrite filter_nonempty_rows.
    + f_equal. apply map_ext_in.
      intros r Hr. unfold dict_row, row_as_read.
      destruct (Hrec r Hr) as [-> _]. rewrite Nat.ltb_irrefl. reflexivity.
    + intros r Hr.
      destruct (Hrec r Hr) as [Hl _]. destruct r; [cbn in Hl; lia|discriminate].
  - intros fs_ Hin. apply in_map_iff in Hin. destruct Hin as (r & <- & Hr).
    rewrite length_map.
    assert (Hr' : length r = length names /\ Forall plain r /\ Forall fits r).
    { destruct Hr as [<-|Hr]; [auto|apply Hrec; assumption]. }
    destruct Hr' as (Hl & Hp & Hfit). split; [lia|].
    split; rewrite List.Forall_forall in *; intros x Hx;
      apply in_map_iff in Hx; destruct Hx as (s & <- & Hs).
    + exact (Hp s Hs).
    + apply fits_within_limit. exact (Hfit s Hs).
Qed.

(** X19.  [read_csv] reads a summary back, one dictionary for each
    document that loaded, with the fields as written (none of them holding a
    carriage return or being longer than the field size limit of the
    reader); in it [item_count] is the decimal text of the number
    of items of the document, which is the number of its line items that
    have a name or a price. *)
Theorem summary_reads_back (js : json_store) (output_dir : string) (st : state) :
  let json_files := glob js (raw_responses output_dir) in
  let path := path_join output_dir "receipt_summary.csv" in
  let docs := loaded js (timestamps (world st)) (ticks (world st)) json_files in
  json_files <> [] ->
  (forall data, In data docs -> Forall plain (summary_fields data)) ->
  (forall data, In data docs -> Forall fits (summary_fields data)) ->
  read_csv path (world (state_of (generate_summary_csv js output_dir st))) =
    inr (map (fun data => row_as_read summary_fieldnames (summary_fields data))
             docs) /\
  (forall data,
     row_as_read summary_fieldnames (summary_fields data) !! Some "item_count"
     = Some (RStr (str_nat (length (items data))))) /\
  (forall name now data,
     length (items (CsvGenerator.extract_data_from_json name now data)) =
     length (List.filter kept (all_line_items data))).
Proof.
  cbn zeta. intros Hg Hplain Hfits.
  rewrite (generate_summary_csv_files js output_dir st Hg).
  cbn [state_of snd]. split; [|split].
  - set (docs := loaded js _ _ _) in *.
    rewrite (read_table _ _ summary_fieldnames (map summary_fields docs)).
    + rewrite map_map. reflexivity.
    + unfold reported. cbn [world fs]. rewrite lookup_insert_eq.
      unfold summary_text. rewrite flat_map_map. reflexivity.
    + cbn. lia.
    + repeat constructor.
    + repeat constructor; unfold fits; apply Z.leb_le; vm_compute; reflexivity.
    + intros r Hr. apply in_map_iff in Hr. destruct Hr as (d & <- & Hd).
      split; [reflexivity|]. split; [apply Hplain|apply Hfits]; assumption.
  - intros data. reflexivity.
  - intros name now data. unfold CsvGenerator.extract_data_from_json.
    rewrite documents_fold_items. cbn [items app]. rewrite length_map.
    reflexivity.
Qed.

Lemma summary_reads_back_witness :
  exists d1 d2,
    read_csv "output/receipt_summary.csv"
      (world (state_of (generate_summary_csv sample_store "output" report_state)))
    = inr [d1; d2] /\
    d1 !! Some "item_count" = Some (RStr "2") /\
    d2 !! Some "vendor_name" = Some (RStr "Kiosk 24").
Proof.
  destruct (summary_reads_back sample_store "output" report_state)
    as (Hr & _ & _).
  - discriminate.
  - intros data Hin. vm_compute in Hin.
    destruct Hin as [<-|[<-|[]]]; repeat constructor.
  - intros data Hin. vm_compute in Hin.
    destruct Hin as [<-|[<-|[]]]; repeat constructor;
      unfold fits; apply Z.leb_le; vm_compute; reflexivity.
  - do 2 eexists. split; [exact Hr|]. split; reflexivity.
Defined.

(** ** The summary fields *)

(** The values that the summary fields give to a tag. *)
Lemma tagged_eq tag data :
  tagged tag data =
  flat_map (fun doc =>
              map (fun field => get_text (ValueDetection field))
                (List.filter
                   (fun field => String.eqb (get_text (Type_ field)) tag)
                   (default [] (SummaryFields doc))))
           (default [] (ExpenseDocuments data)).
Proof.
  unfold tagged. induction (default [] (ExpenseDocuments data)) as [|d ds IH];
    [reflexivity|].
  cbn [flat_map]. rewrite List.filter_app, map_app, IH. reflexivity.
Qed.

Lemma last_default {A} (v : A) (l1 l2 : list A) :
  default (default v (last l1)) (last l2) = default v (last (l1 ++ l2)).
Proof. rewrite last_app. destruct (last l2); reflexivity. Qed.

Lemma summary_step_slots ex field :
  let pick tag :=
    map (fun field => get_text (ValueDetection field))
      (List.filter (fun field => String.eqb (get_text (Type_ field)) tag)
                   [field]) in
  vendor_name (summary_step ex field) =
    default (vendor_name ex) (last (pick "VENDOR_NAME")) /\
  total (summary_step ex field) = default (total ex) (last (pick "TOTAL")) /\
  date (summary_step ex field) =
    default (date ex) (last (pick "INVOICE_RECEIPT_DATE")) /\
  filename (summary_step ex field) = filename ex /\
  processed_at (summary_step ex field) = processed_at ex.
Proof.
  cbn zeta. unfold summary_step. cbn [List.filter].
  destruct (String.eqb_spec (get_text (Type_ field)) "VENDOR_NAME") as [E|H1];
    [rewrite ?E; repeat split; reflexivity|].
  destruct (String.eqb_spec (get_text (Type_ field)) "TOTAL") as [E|H2];
    [rewrite ?E; repeat split; reflexivity|].
  destruct (String.eqb_spec (get_text (Type_ field)) "INVOICE_RECEIPT_DATE")
    as [E|H3]; repeat split; reflexivity.
Qed.

Lemma summary_fold_slots fields_ : forall ex,
  let pick tag :=
    map (fun field => get_text (ValueDetection field))
      (List.filter (fun field => String.eqb (get_text (Type_ field)) tag)
                   fields_) in
  vendor_name (foldl summary_step ex fields_) =
    default (vendor_name ex) (last (pick "VENDOR_NAME")) /\
  total (foldl summary_step ex fields_) =
    default (total ex) (last (pick "TOTAL")) /\
  date (foldl summary_step ex fields_) =
    default (date ex) (last (pick "INVOICE_RECEIPT_DATE")) /\
  filename (foldl summary_step ex fields_) = filename ex /\
  processed_at (foldl summary_step ex fields_) = processed_at ex.
Proof.
  induction fields_ as [|field fields_ IH]; intros ex; cbn zeta.
  - repeat split; reflexivity.
  - cbn [foldl].
    destruct (IH (summary_step ex field)) as (H1 & H2 & H3 & H4 & H5).
    destruct (summary_step_slots ex field) as (S1 & S2 & S3 & S4 & S5).
    rewrite H1, H2, H3, H4, H5, S1, S2, S3, S4, S5.
    change (field :: fields_) with ([field] ++ fields_).
    rewrite !List.filter_app, !map_app, <- !last_default.
    repeat split; reflexivity.
Qed.

Lemma line_item_step_slots ex li :
  vendor_name (line_item_step ex li) = vendor_name ex /\
  total (line_item_step ex li) = total ex /\
  date (line_item_step ex li) = date ex /\
  filename (line_item_step ex li) = filename ex /\
  processed_at (line_item_step ex li) = processed_at ex.
Proof.
  unfold line_item_step. destruct (scan li) as [n p].
  destruct (nonempty n || nonempty p); repeat split; reflexivity.
Qed.

Lemma line_items_fold_slots l : forall ex,
  vendor_name (foldl line_item_step ex l) = vendor_name ex /\
  total (foldl line_item_step ex l) = total ex /\
  date (foldl line_item_step ex l) = date ex /\
  filename (foldl line_item_step ex l) = filename ex /\
  processed_at (foldl line_item_step ex l) = processed_at ex.
Proof.
  induction l as [|li l IH]; intros ex; [repeat split; reflexivity|].
  cbn [foldl]. destruct (IH (line_item_step ex li)) as (H1 & H2 & H3 & H4 & H5).
  destruct (line_item_step_slots ex li) as (S1 & S2 & S3 & S4 & S5).
  rewrite H1, H2, H3, H4, H5. auto.
Qed.

Lemma groups_fold_slots gs : forall ex,
  vendor_name (foldl group_step ex gs) = vendor_name ex /\
  total (foldl group_step ex gs) = total ex /\
  date (foldl group_step ex gs) = date ex /\
  filename (foldl group_step ex gs) = filename ex /\
  processed_at (foldl group_step ex gs) = processed_at ex.
Proof.
  induction gs as [|g gs IH]; intros ex; [repeat split; reflexivity|].
  cbn [foldl]. destruct (IH (group_step ex g)) as (H1 & H2 & H3 & H4 & H5).
  destruct (line_items_fold_slots (default [] (LineItems g)) ex)
    as (S1 & S2 & S3 & S4 & S5).
  unfold group_step in *. rewrite H1, H2, H3, H4, H5. auto.
Qed.

Lemma documents_fold_slots docs : forall ex,
  let pick tag :=
    flat_map (fun doc =>
                map (fun field => get_text (ValueDetection field))
                  (List.filter
                     (fun field => String.eqb (get_text (Type_ field)) tag)
                     (default [] (SummaryFields doc))))
             docs in
  vendor_name (foldl document_step ex docs) =
    default (vendor_name ex) (last (pick "VENDOR_NAME")) /\
  total (foldl document_step ex docs) =
    default (total ex) (last (pick "TOTAL")) /\
  date (foldl document_step ex docs) =
    default (date ex) (last (pick "INVOICE_RECEIPT_DATE")) /\
  filename (foldl document_step ex docs) = filename ex /\
  processed_at (foldl document_step ex docs) = processed_at ex.
Proof.
  induction docs as [|doc docs IH]; intros ex; cbn zeta.
  - repeat split; reflexivity.
  - cbn [foldl flat_map].
    destruct (IH (document_step ex doc)) as (H1 & H2 & H3 & H4 & H5).
    unfold document_step in H1, H2, H3, H4, H5 |- *.
    destruct (groups_fold_slots (default [] (LineItemGroups doc))
                (foldl summary_step ex (default [] (SummaryFields doc))))
      as (G1 & G2 & G3 & G4 & G5).
    destruct (summary_fold_slots (default [] (SummaryFields doc)) ex)
      as (S1 & S2 & S3 & S4 & S5).
    rewrite H1, H2, H3, H4, H5, G1, G2, G3, G4, G5, S1, S2, S3, S4, S5.
    rewrite <- !last_default. repeat split; reflexivity.
Qed.

Lemma extract_slots name now data :
  let ex := CsvGenerator.extract_data_from_json name now data in
  vendor_name ex = default "" (last (tagged "VENDOR_NAME" data)) /\
  total ex = default "" (last (tagged "TOTAL" data)) /\
  date ex = default "" (last (tagged "INVOICE_RECEIPT_DATE" data)) /\
  filename ex = name /\
  processed_at ex = now.
Proof.
  cbn zeta. unfold CsvGenerator.extract_data_from_json.
  rewrite !tagged_eq. apply documents_fold_slots.
Qed.

(** X20.  In the record that [extract_data_from_json] builds, the vendor,
    the total and the date are the values of the last summary field, over
    all the documents of the response, that carries the tag VENDOR_NAME,
    TOTAL, INVOICE_RECEIPT_DATE; each is empty when no field carries its
    tag, or when the last one that does has no text.  The file name and the
    stamp are those given at the start. *)
Theorem summary_last_wins (name now : string) (data : response) :
  let ex := CsvGenerator.extract_data_from_json name now data in
  vendor_name ex = default "" (last (tagged "VENDOR_NAME" data)) /\
  total ex = default "" (last (tagged "TOTAL" data)) /\
  date ex = default "" (last (tagged "INVOICE_RECEIPT_DATE" data)) /\
  filename ex = name /\
  processed_at ex = now.
Proof. apply extract_slots. Qed.

(** ** The two reports, one after the other *)

Lemma loaded_stamps js clock json_files : forall tick k data,
  loaded js clock tick json_files !! k = Some data ->
  processed_at data = clock (tick + k).
Proof.
  induction json_files as [|f fl IH]; intros tick k data Hk; [discriminate|].
  cbn [loaded] in Hk. destruct (load js f) as [e|doc].
  - eauto.
  - destruct k as [|k]; cbn in Hk.
    + injection Hk as <-. rewrite Nat.add_0_r. apply extract_slots.
    + rewrite (IH _ _ _ Hk). f_equal. lia.
Qed.

Lemma loaded_names js clock clock' json_files : forall tick tick',
  map filename (loaded js clock tick json_files) =
  map filename (loaded js clock' tick' json_files).
Proof.
  induction json_files as [|f fl IH]; intros tick tick'; [reflexivity|].
  cbn [loaded]. destruct (load js f) as [e|doc]; [apply IH|].
  cbn [map]. f_equal; [|apply IH].
  destruct (extract_slots (filename_of f) (clock tick) doc) as (_ & _ & _ & -> & _).
  destruct (extract_slots (filename_of f) (clock' tick') doc) as (_ & _ & _ & -> & _).
  reflexivity.
Qed.

Lemma main_world js st :
  glob js (raw_responses "output") <> [] ->
  let json_files := glob js (raw_responses "output") in
  let w := world st in
  let summary := loaded js (timestamps w) (ticks w) json_files in
  let details :=
    loaded js (timestamps w) (length summary + ticks w) json_files in
  exists out,
    main js st =
    (inr tt,
     State
       (World (<["output/receipt_details.csv" := detailed_text details]>
                 (<["output/receipt_summary.csv" := summary_text summary]>
                    (fs w)))
              (heap w) (length details + (length summary + ticks w))
              (timestamps w))
       (environ st) out).
Proof.
  intros Hg. cbn zeta. unfold main.
  unfold io_bind at 1. unfold print at 1.
  unfold io_bind at 1. unfold print at 1.
  unfold io_bind at 1.
  rewrite (generate_summary_csv_files js "output" _ Hg).
  unfold io_bind at 1.
  rewrite (generate_detailed_csv_files js "output" _ Hg).
  change (Io.truthy (Some (path_join "output" "receipt_summary.csv")))
    with true.
  change (Io.truthy (Some (path_join "output" "receipt_details.csv")))
    with true.
  change (path_join "output" "receipt_summary.csv")
    with "output/receipt_summary.csv".
  change (path_join "output" "receipt_details.csv")
    with "output/receipt_details.csv".
  unfold io_bind, when, print, io_ret.
  cbn [fst snd reported world environ stdout fs heap ticks timestamps].
  eexists. reflexivity.
Qed.

(** X21.  [main] makes the two reports from the same raw responses, the
    summary first.  Each report loads the documents anew and reads the
    clock for each: the two reports name the same files, but a document
    that is the [k]-th to load is stamped in the details with the reading
    that comes as many readings after its stamp in the summary as there are
    documents that load. *)
Theorem both_reports (js : json_store) (st : state) :
  let json_files := glob js (raw_responses "output") in
  let w := world st in
  let summary := loaded js (timestamps w) (ticks w) json_files in
  let details :=
    loaded js (timestamps w) (length summary + ticks w) json_files in
  json_files <> [] ->
  fs (world (state_of (main js st))) =
    <["output/receipt_details.csv" := detailed_text details]>
      (<["output/receipt_summary.csv" := summary_text summary]> (fs w)) /\
  map filename details = map filename summary /\
  (forall k data data',
     summary !! k = Some data -> details !! k = Some data' ->
     processed_at data = timestamps w (ticks w + k) /\
     processed_at data' = timestamps w (length summary + ticks w + k)).
Proof.
  cbn zeta. intros Hg. destruct (main_world js st Hg) as [out ->].
  cbn [state_of snd world fs]. split; [reflexivity|].
  split; [apply loaded_names|].
  intros k data data' Hs Hd.
  rewrite (loaded_stamps _ _ _ _ _ _ Hs), (loaded_stamps _ _ _ _ _ _ Hd).
  auto.
Qed.

Lemma both_reports_witness :
  text_lines "output/receipt_summary.csv"
    (world (state_of (main sample_store report_state)))
  = ["filename,vendor_name,total,date,item_count,processed_at";
     "r1,Cafe,6.00,,2,2024-01-17T09:00:00.000001";
     "r2,Kiosk 24,12.00,,0,2024-01-17T09:00:00.000002"] /\
  text_lines "output/receipt_details.csv"
    (world (state_of (main sample_store report_state)))
  = ["filename,vendor_name,receipt_total,receipt_date,item_name,item_price,processed_at";
     "r1,Cafe,6.00,,Coffee,3.50,2024-01-17T09:00:00.000003";
     "r1,Cafe,6.00,,,2.50,2024-01-17T09:00:00.000003";
     "r2,Kiosk 24,12.00,,,,2024-01-17T09:00:00.000004"].
Proof.
  destruct (both_reports sample_store report_state) as (Hfs & _ & _);
    [discriminate|].
  unfold text_lines. rewrite Hfs.
  split; vm_compute; reflexivity.
Defined.

End CsvReportsFacts.

(* ===================================================================== *)
(** * File names of the raw responses                                     *)
(* ===================================================================== *)

Module FileNameFacts.
Import PyText Io CsvReports.
Local Open Scope list_scope.

Lemma starts_with_refl p s : starts_with p (p ++ s) = true.
Proof.
  induction p as [|a p IH]; [reflexivity|]. cbn.
  rewrite Ascii.eqb_refl. exact IH.
Qed.

Lemma starts_with_long p : forall t r,
  length p <= length t -> starts_with p (t ++ r) = starts_with p t.
Proof.
  induction p as [|a p IH]; intros t r Hl; [reflexivity|].
  destruct t as [|b t]; [cbn in Hl; lia|]. cbn.
  rewrite IH by (cbn in Hl; lia). reflexivity.
Qed.

Lemma starts_with_short p : forall t r,
  starts_with p (t ++ r) = true -> length t <= length p ->
  t = take (length t) p.
Proof.
  induction p as [|a p IH]; intros t r Hs Hl.
  - destruct t; [reflexivity|cbn in Hl; lia].
  - destruct t as [|b t]; [reflexivity|]. cbn in Hs.
    apply andb_true_iff in Hs. destruct Hs as [Hab Hs].
    apply Ascii.eqb_eq in Hab. subst b. cbn. f_equal.
    apply (IH t r Hs). cbn in Hl. lia.
Qed.

Lemma border_free_at pat k :
  border_free pat -> 1 <= k < length pat ->
  starts_with pat (take k pat ++ pat) = false.
Proof.
  unfold border_free. rewrite forallb_forall. intros H Hk.
  apply negb_true_iff. apply H. apply in_seq. lia.
Qed.

(** When [pat] is not in [base], it does not start inside [base] in
    [base ++ pat] either. *)
Lemma none_within_app pat base :
  border_free pat -> pat <> [] ->
  contains_from pat base = false ->
  none_within pat (base ++ pat) (length base) = true.
Proof.
  intros Hb Hne. induction base as [|c base IH]; [intros _; reflexivity|].
  cbn [contains_from]. intros Hc. apply orb_false_iff in Hc.
  destruct Hc as [Hhere Hrest].
  cbn [length app none_within]. fold (app base pat).
  rewrite (IH Hrest), andb_true_r. apply negb_true_iff.
  destruct (le_lt_dec (length pat) (length (c :: base))) as [Hl|Hl].
  - change (c :: base ++ pat) with ((c :: base) ++ pat).
    rewrite starts_with_long by assumption. exact Hhere.
  - destruct (starts_with pat (c :: base ++ pat)) eqn:Hs; [exfalso|reflexivity].
    change (c :: base ++ pat) with ((c :: base) ++ pat) in Hs.
    pose proof (starts_with_short pat _ _ Hs (Nat.lt_le_incl _ _ Hl)) as Ht.
    rewrite Ht in Hs.
    rewrite border_free_at in Hs; [discriminate|assumption|].
    cbn [length] in *. lia.
Qed.

Lemma replace_from_skip old new s : replace_from old new s (length s) = [].
Proof. induction s as [|c s IH]; [reflexivity|]. exact IH. Qed.

Lemma replace_from_clean pat base :
  pat <> [] ->
  none_within pat (base ++ pat) (length base) = true ->
  replace_from pat [] (base ++ pat) 0 = base.
Proof.
  intros Hne. induction base as [|c base IH]; intros Hn.
  - destruct pat as [|a pat]; [contradiction|].
    cbn [app replace_from].
    rewrite (starts_with_refl (a :: pat) []) || idtac.
    replace (starts_with (a :: pat) (a :: pat)) with true
      by (symmetry; rewrite <- (app_nil_r (a :: pat)) at 2;
          apply starts_with_refl).
    cbn [app length Nat.sub]. rewrite Nat.sub_0_r. apply replace_from_skip.
  - cbn [length app none_within] in Hn. fold (app base pat) in Hn.
    apply andb_true_iff in Hn. destruct Hn as [Hhere Hn].
    apply negb_true_iff in Hhere.
    cbn [app replace_from]. fold (app base pat). rewrite Hhere.
    f_equal. apply IH. exact Hn.
Qed.

(** ** Base names *)

Lemma basename_plain b : forall cur,
  forallb (fun c => negb (Ascii.eqb c slash)) b = true ->
  basename_from cur b = cur ++ b.
Proof.
  induction b as [|c b IH]; intros cur Hb; cbn.
  - symmetry. apply app_nil_r.
  - cbn in Hb. apply andb_true_iff in Hb. destruct Hb as [Hc Hb].
    apply negb_true_iff in Hc. rewrite Hc, IH by assumption.
    rewrite <- app_assoc. reflexivity.
Qed.

Lemma basename_after_slash a : forall cur b,
  forallb (fun c => negb (Ascii.eqb c slash)) b = true ->
  basename_from cur (a ++ slash :: b) = b.
Proof.
  induction a as [|c a IH]; intros cur b Hb.
  - cbn. apply (basename_plain b []). assumption.
  - cbn [app basename_from]. destruct (Ascii.eqb c slash); apply IH; assumption.
Qed.

Lemma ends_with_slash_split a :
  ends_with_slash a = true -> exists a', a = a' ++ [slash].
Proof.
  unfold ends_with_slash. destruct (last a) as [c|] eqn:Hl; [|discriminate].
  intros Hc. apply Ascii.eqb_eq in Hc. subst c.
  apply last_Some in Hl. exact Hl.
Qed.

Lemma basename_join a b :
  no_slash b -> b <> "" -> basename (path_join a b) = b.
Proof.
  unfold no_slash, basename, path_join. intros Hb Hne.
  destruct b as [|c b]; [contradiction|].
  cbn [list_ascii_of_string starts_with] in *.
  cbn in Hb. apply andb_true_iff in Hb. destruct Hb as [Hc Hb].
  assert (Hcs : Ascii.eqb slash c = false).
  { rewrite Ascii.eqb_sym. apply negb_true_iff. exact Hc. }
  rewrite Hcs. cbn [andb].
  assert (Hplain : forallb (fun x => negb (Ascii.eqb x slash))
                     (c :: list_ascii_of_string b) = true)
    by (cbn; rewrite Hc, Hb; reflexivity).
  assert (Hback : string_of_list_ascii (c :: list_ascii_of_string b)
                  = String c b)
    by (cbn; rewrite string_of_list_ascii_of_string; reflexivity).
  destruct (Nat.eqb (length (list_ascii_of_string a)) 0) eqn:Hlen.
  - apply Nat.eqb_eq in Hlen. destruct a; [|discriminate]. cbn [orb].
    rewrite TextractHandlerFacts.list_ascii_app.
    cbn [app list_ascii_of_string].
    rewrite (basename_plain _ [] Hplain). exact Hback.
  - cbn [orb]. destruct (ends_with_slash (list_ascii_of_string a)) eqn:He.
    + destruct (ends_with_slash_split _ He) as [a' Ha'].
      rewrite TextractHandlerFacts.list_ascii_app, Ha', <- app_assoc.
      cbn [app list_ascii_of_string].
      rewrite (basename_after_slash a' [] _ Hplain). exact Hback.
    + rewrite !TextractHandlerFacts.list_ascii_app.
      cbn [app list_ascii_of_string].
      rewrite (basename_after_slash _ [] _ Hplain). exact Hback.
Qed.

Lemma raw_suffix_border_free : border_free (list_ascii_of_string raw_suffix).
Proof. vm_compute. reflexivity. Qed.

(** X22.  The file name that [extract_data_from_json] gives to the raw
    response that the receipt processor saved for a receipt is the
    [base_name] from which the processor made the path, whatever the
    directory, when that name has no slash and does not hold the ending of
    the raw responses itself.  (The ending is removed wherever it occurs,
    not only at the end.) *)
Theorem filename_round_trip :
  (forall output_dir base_name,
     no_slash base_name -> contains raw_suffix base_name = false ->
     filename_of (raw_response_path output_dir base_name) = base_name) /\
  filename_of "output/a-raw-response.json.v2-raw-response.json" = "a.v2".
Proof.
  split; [|reflexivity].
  intros output_dir base_name Hs Hc.
  unfold filename_of, raw_response_path.
  rewrite basename_join.
  - unfold replace. change (list_ascii_of_string "") with (@nil ascii).
    change (list_ascii_of_string "-raw-response.json")
      with (list_ascii_of_string raw_suffix).
    rewrite TextractHandlerFacts.list_ascii_app.
    rewrite replace_from_clean.
    + apply string_of_list_ascii_of_string.
    + discriminate.
    + apply none_within_app;
        [apply raw_suffix_border_free|discriminate|exact Hc].
  - unfold no_slash in *. rewrite TextractHandlerFacts.list_ascii_app, forallb_app, Hs.
    reflexivity.
  - destruct base_name; discriminate.
Qed.

Lemma filename_round_trip_witness :
  filename_of (raw_response_path "output" "receipt-01") = "receipt-01" /\
  filename_of (raw_response_path "scans/" "a.b") = "a.b".
Proof.
  destruct filename_round_trip as [H _].
  split; apply H; vm_compute; reflexivity.
Defined.

End FileNameFacts.

(* ===================================================================== *)
(** * The text of a total                                                 *)
(* ===================================================================== *)

Module TotalFacts.
Import Re PyFloat TextractHandler PyText.
Import TextractHandlerFacts ParseFieldsFacts.
Local Open Scope list_scope.

(** ** The characters of [str] of a float *)

Section Alphabet.
Context (P : ascii -> bool).
Context (HP : forallb P float_alphabet = true).

Local Abbreviation within := (all_within P).

Lemma within_literal s :
  forallb (fun c => existsb (Ascii.eqb c) float_alphabet)
          (list_ascii_of_string s) = true ->
  within s.
Proof.
  unfold all_within. rewrite !forallb_forall. intros H x Hx.
  specialize (H x Hx). apply existsb_exists in H.
  destruct H as (y & Hy & Hxy). apply Ascii.eqb_eq in Hxy. subst y.
  rewrite forallb_forall in HP. apply HP. assumption.
Qed.

Lemma within_app a b : within a -> within b -> within (a ++ b)%string.
Proof.
  unfold all_within. rewrite list_ascii_app, forallb_app. intros -> ->. reflexivity.
Qed.

Lemma within_list l :
  forallb P l = true -> within (string_of_list_ascii l).
Proof. unfold all_within. rewrite list_ascii_of_string_of_list_ascii. auto. Qed.

Lemma within_substr_to k s : within s -> within (substr_to k s).
Proof.
  intros H. apply within_list. unfold all_within in H.
  rewrite forallb_forall in *. intros x Hx. apply H.
  rewrite <- (take_drop k (list_ascii_of_string s)).
  apply in_or_app. left. assumption.
Qed.

Lemma within_substr_from k s : within s -> within (substr_from k s).
Proof.
  intros H. apply within_list. unfold all_within in H.
  rewrite forallb_forall in *. intros x Hx. apply H.
  rewrite <- (take_drop k (list_ascii_of_string s)).
  apply in_or_app. right. assumption.
Qed.

Lemma within_zeros k : within (zeros k).
Proof.
  apply within_list. assert (H0 : P "0" = true).
  { rewrite forallb_forall in HP. apply HP. left. reflexivity. }
  induction (Z.to_nat k) as [|n IH]; [reflexivity|]. cbn.
  rewrite H0. exact IH.
Qed.

Lemma within_uint d : within (DecimalString.NilEmpty.string_of_uint d).
Proof.
  unfold all_within. rewrite forallb_forall in HP.
  induction d; cbn; [reflexivity|..]; rewrite IHd, andb_true_r; apply HP;
    cbn; tauto.
Qed.

Lemma within_Z_to_string z : within (Z_to_string z).
Proof.
  unfold Z_to_string, DecimalString.NilZero.string_of_uint.
  destruct (N.to_uint (Z.to_N z)); try apply within_uint.
  apply within_literal. reflexivity.
Qed.

Lemma within_layout ds t : within ds -> within (layout ds t).
Proof.
  intros Hd. unfold layout.
  repeat match goal with
         | |- within (if ?b then _ else _) => destruct b
         | |- within (_ ++ _)%string => apply within_app
         | |- within (substr_to _ _) => apply within_substr_to
         | |- within (substr_from _ _) => apply within_substr_from
         | |- within (zeros _) => apply within_zeros
         | |- within (Z_to_string _) => apply within_Z_to_string
         | |- within ds => exact Hd
         | |- within _ => apply within_literal; reflexivity
         end.
Qed.

Lemma within_py_str x : forallb P (list_ascii_of_string (py_str x)) = true.
Proof.
  change (within (py_str x)).
  destruct x as [m e|]; [|apply within_literal; reflexivity]. unfold py_str.
  destruct (m =? 0)%Z; [apply within_literal; reflexivity|].
  destruct (shortest _ _ _ _) as [[g p]|];
    [|apply within_literal; reflexivity].
  apply within_layout, within_Z_to_string.
Qed.

End Alphabet.

(** ** [str] of a float is not empty *)

Lemma append_empty (a b : string) : (a ++ b)%string = "" -> a = "" /\ b = "".
Proof. destruct a; cbn; [auto|discriminate]. Qed.

Lemma layout_nonempty ds t : layout ds t <> "".
Proof.
  unfold layout. intros H.
  repeat match type of H with
         | (if ?b then _ else _) = _ => destruct b
         end;
    repeat match goal with
           | H : (_ ++ _)%string = "" |- _ =>
               apply append_empty in H; destruct H
           end;
    discriminate.
Qed.

Lemma py_str_nonempty x : py_str x <> "".
Proof.
  destruct x as [m e|]; [|discriminate]. unfold py_str.
  destruct (m =? 0)%Z; [discriminate|].
  destruct (shortest _ _ _ _) as [[g p]|]; [|discriminate].
  apply layout_nonempty.
Qed.

Lemma remove_commas_clean s : no_comma (remove_commas s).
Proof.
  unfold no_comma, remove_commas.
  rewrite list_ascii_of_string_of_list_ascii, forallb_forall.
  intros x Hx. apply list_elem_of_In, list_elem_of_filter in Hx.
  destruct Hx as [Hx _]. apply negb_true_iff.
  destruct (Ascii.eqb_spec x ","); [contradiction|reflexivity].
Qed.

(** X24.  A total that [parse_fields] returns is never the empty string
    and never holds a comma: the thousands separators of the text are
    removed, and [str] of a float has none. *)
Theorem total_is_clean (lines : string) (f : fields) (t : string) :
  parse_fields lines = inr f -> total f = Some t ->
  t <> "" /\ no_comma t.
Proof.
  rewrite parse_fields_eq. intros [= <-]. cbn [total]. unfold total_of.
  destruct (first_accepted total_patterns lines) as [t'|] eqn:Hf.
  - intros [= <-]. split.
    + pose proof (first_accepted_truthy _ _ _ Hf) as Ht. cbn in Ht.
      intros ->. discriminate.
    + destruct (first_accepted_source _ _ _ Hf) as (p & _ & Ha).
      destruct (accepts_source p lines t' Ha) as (s & _ & ->).
      apply remove_commas_clean.
  - intros H. destruct (fallback_total_source lines t H) as (x & _ & ->).
    split; [apply py_str_nonempty|].
    apply within_py_str. reflexivity.
Qed.

Lemma total_is_clean_witness :
  exists f t, parse_fields "Grand total 1,250.00 AED" = inr f /\
    total f = Some t /\ t <> "" /\ no_comma t /\ t = "1250.00".
Proof.
  eexists. exists "1250.00". split; [vm_compute; reflexivity|].
  split; [reflexivity|].
  destruct (total_is_clean "Grand total 1,250.00 AED" _ "1250.00"
              ltac:(vm_compute; reflexivity) eq_refl) as [H1 H2].
  auto.
Defined.

End TotalFacts.

(* ===================================================================== *)
(** * Several callers of [write_csv] on a file that is there              *)
(* ===================================================================== *)

Module ConcurrentFacts.
Import Csv CsvWriter CsvWriterFacts CsvWriterMore.
Local Open Scope list_scope.






Lemma stamp_rows_clock rows_ w : clock_ok w -> clock_ok (stamp_rows rows_ w).
Proof.
  intros Hc k. destruct (stamp_rows_frame rows_ w) as (_ & -> & _). apply Hc.
Qed.


(** ** One statement of one caller *)


(** ** Any schedule *)










End ConcurrentFacts.
